(** * Version views: the snapshot store and the diff renderer

    A shallow embedding of [src/services/version-diff.ts] and
    [src/services/version-storage.ts], with the data model of [types.ts].

    Conventions.
    - A JavaScript string is the list of its UTF-16 code units ([jsstring]).
    - A JavaScript number holding a timestamp or a count is an integer of [Z].
    - The host vault is an ordered list of paths with their nodes; the order
      is the listing order of [TFolder.children].
    - [diff-match-patch] and [JSON] are libraries outside the repository: they
      are parameters of the sections that use them. *)

From Stdlib Require Import String Ascii NArith ZArith Bool Lia.
From Stdlib Require Import DecimalString DecimalZ.
From Stdlib Require Import List.
Import ListNotations.

Set Implicit Arguments.
Local Open Scope Z_scope.

(* ================================================================== *)
(** ** JavaScript strings *)

Module JS.

Definition jsstring := list N.

(** The code units of an ASCII literal. *)
Definition js (s : string) : jsstring :=
  map N_of_ascii (list_ascii_of_string s).

Arguments js s%_string.

Definition nl : N := 10%N.
Definition dquote : N := 34%N.

Fixpoint eqb (a b : jsstring) : bool :=
  match a, b with
  | [], [] => true
  | x :: a', y :: b' => N.eqb x y && eqb a' b'
  | _, _ => false
  end.

(** [s.startsWith(pat)] *)
Fixpoint startsWith (s pat : jsstring) {struct pat} : bool :=
  match pat with
  | [] => true
  | p :: pat' =>
      match s with
      | [] => false
      | c :: s' => N.eqb c p && startsWith s' pat'
      end
  end.

(** [s.endsWith(pat)] *)
Definition endsWith (s pat : jsstring) : bool :=
  startsWith (rev s) (rev pat).

(** [s.includes(pat)] *)
Fixpoint includes (s pat : jsstring) : bool :=
  startsWith s pat ||
  match s with
  | [] => false
  | _ :: s' => includes s' pat
  end.

(** [s.split(sep)] for a separator of one code unit: never empty. *)
Fixpoint split (sep : N) (s : jsstring) : list jsstring :=
  match s with
  | [] => [[]]
  | c :: r =>
      if N.eqb c sep then [] :: split sep r
      else match split sep r with
           | [] => [[c]]
           | h :: t => (c :: h) :: t
           end
  end.

(** [s.replace(pat, rep)] with a string pattern: the first occurrence only. *)
Fixpoint replaceFirst (pat rep s : jsstring) : jsstring :=
  if startsWith s pat then rep ++ skipn (length pat) s
  else match s with
       | [] => []
       | c :: r => c :: replaceFirst pat rep r
       end.

(** [s.replace(/c/g, rep)] for a pattern of one code unit. *)
Definition replaceAll (c : N) (rep s : jsstring) : jsstring :=
  flat_map (fun x => if N.eqb x c then rep else [x]) s.

(** White space and line terminators of ECMAScript, as [trim] strips them. *)
Definition isWhite (c : N) : bool :=
  ((9 <=? c) && (c <=? 13) || (c =? 32) || (c =? 160) || (c =? 5760)
   || (8192 <=? c) && (c <=? 8202) || (c =? 8232) || (c =? 8233)
   || (c =? 8239) || (c =? 8287) || (c =? 12288) || (c =? 65279))%N.

Fixpoint trimStart (s : jsstring) : jsstring :=
  match s with
  | [] => []
  | c :: r => if isWhite c then trimStart r else s
  end.

Definition trimEnd (s : jsstring) : jsstring := rev (trimStart (rev s)).

(** [s.trim()] *)
Definition trim (s : jsstring) : jsstring := trimEnd (trimStart s).

(** [lines.join(sep)] *)
Fixpoint join (sep : jsstring) (l : list jsstring) : jsstring :=
  match l with
  | [] => []
  | [x] => x
  | x :: r => x ++ sep ++ join sep r
  end.

(** The text made of the given ASCII lines, a line feed between them. *)
Definition jsLines (l : list string) : jsstring := join [nl] (map js l).

(** A non-empty string is truthy. *)
Definition truthy (s : jsstring) : bool :=
  match s with [] => false | _ => true end.

End JS.

Import JS.

(* ================================================================== *)
(** ** The diff service ([version-diff.ts]) *)

Module VersionDiff.

(** A [Diff] of diff-match-patch: the operation (1 insert, -1 delete,
    0 equal) and its text. *)
Definition Diff : Type := Z * jsstring.

Inductive SegmentType := equal | insert | delete.

Record DiffSegment := { type : SegmentType; text : jsstring }.

(** [escapeHtml]: five replacements, in the order of the source. *)
Definition escapeHtml (t : jsstring) : jsstring :=
  replaceAll 39 (js "&#039;")
    (replaceAll 34 (js "&quot;")
      (replaceAll 62 (js "&gt;")
        (replaceAll 60 (js "&lt;")
          (replaceAll 38 (js "&amp;") t)))).

Definition delWrap (s : jsstring) : jsstring :=
  js "<del class=" ++ [dquote] ++ js "version-diff-delete" ++ [dquote]
     ++ js ">" ++ s ++ js "</del>".

Definition insWrap (s : jsstring) : jsstring :=
  js "<ins class=" ++ [dquote] ++ js "version-diff-insert" ++ [dquote]
     ++ js ">" ++ s ++ js "</ins>".

Definition fmWrap (s : jsstring) : jsstring :=
  js "<span class=" ++ [dquote] ++ js "version-diff-frontmatter" ++ [dquote]
     ++ js ">" ++ s ++ js "</span>".

(** The four variables of the loop of [renderSideBySide]. *)
Record Panes := {
  leftLines : list jsstring;
  rightLines : list jsstring;
  currentOld : jsstring;
  currentNew : jsstring
}.

Definition emptyPanes : Panes :=
  {| leftLines := []; rightLines := []; currentOld := []; currentNew := [] |}.

(** The body of the inner loop: one line [line] of the segment
    [(ty, text)], the last one or not. *)
Definition stepLine (ty : Z) (text line : jsstring) (isLast : bool)
    (p : Panes) : Panes :=
  let lineWithNewline := if isLast then line else line ++ [nl] in
  if ty =? 1 then
    let cur := currentNew p ++ lineWithNewline in
    if negb isLast || (isLast && endsWith text [nl]) then
      {| leftLines := leftLines p;
         rightLines := rightLines p ++ [escapeHtml cur];
         currentOld := currentOld p;
         currentNew := [] |}
    else
      {| leftLines := leftLines p;
         rightLines := rightLines p;
         currentOld := currentOld p;
         currentNew := cur |}
  else if ty =? -1 then
    let cur := currentOld p ++ lineWithNewline in
    if negb isLast || (isLast && endsWith text [nl]) then
      {| leftLines := leftLines p ++ [delWrap (escapeHtml cur)];
         rightLines := rightLines p;
         currentOld := [];
         currentNew := currentNew p |}
    else
      {| leftLines := leftLines p;
         rightLines := rightLines p;
         currentOld := cur;
         currentNew := currentNew p |}
  else
    let l1 := if truthy (currentOld p)
              then leftLines p ++ [delWrap (escapeHtml (currentOld p))]
              else leftLines p in
    let r1 := if truthy (currentNew p)
              then rightLines p ++ [insWrap (escapeHtml (currentNew p))]
              else rightLines p in
    {| leftLines := l1 ++ [escapeHtml lineWithNewline];
       rightLines := r1 ++ [escapeHtml lineWithNewline];
       currentOld := [];
       currentNew := [] |}.

(** [for (let i = 0; i < lines.length; i++)] *)
Fixpoint stepLines (ty : Z) (text : jsstring) (lines : list jsstring)
    (p : Panes) : Panes :=
  match lines with
  | [] => p
  | line :: rest =>
      let isLast := match rest with [] => true | _ => false end in
      stepLines ty text rest (stepLine ty text line isLast p)
  end.

Definition stepDiff (p : Panes) (d : Diff) : Panes :=
  let '(ty, text) := d in
  stepLines ty text (split nl text) p.

(** The lines pushed by the loop and by the final flush, before any
    filtering. *)
Definition collectLines (diffs : list Diff) : list jsstring * list jsstring :=
  let p := fold_left stepDiff diffs emptyPanes in
  let l := if truthy (currentOld p)
           then leftLines p ++ [delWrap (escapeHtml (currentOld p))]
           else leftLines p in
  let r := if truthy (currentNew p)
           then rightLines p ++ [insWrap (escapeHtml (currentNew p))]
           else rightLines p in
  (l, r).

(** [line.trim().length > 0] *)
Definition keepLine (line : jsstring) : bool :=
  (0 <? length (trim line))%nat.

(** [line.replace(/<[^>]+>/g, '')]: [pending] is the text read since an
    opening [<] that has not met its [>] yet, in reverse. *)
Fixpoint stripTagsFrom (pending : option jsstring) (s : jsstring) : jsstring :=
  match s with
  | [] => match pending with
          | None => []
          | Some buf => rev buf
          end
  | c :: r =>
      match pending with
      | None =>
          if N.eqb c 60 then stripTagsFrom (Some [c]) r
          else c :: stripTagsFrom None r
      | Some buf =>
          if N.eqb c 62 then
            match buf with
            | [_] => rev buf ++ c :: stripTagsFrom None r
            | _ => stripTagsFrom None r
            end
          else stripTagsFrom (Some (c :: buf)) r
      end
  end.

Definition stripTags (s : jsstring) : jsstring := stripTagsFrom None s.

Definition isDelimiter (line : jsstring) : bool :=
  eqb (trim (stripTags line)) (js "---").

(** [markFrontmatter]: the map over the lines, with its two flags. *)
Fixpoint markFrom (inFrontmatter frontmatterFound : bool)
    (lines : list jsstring) : list jsstring :=
  match lines with
  | [] => []
  | line :: rest =>
      if isDelimiter line && negb frontmatterFound then
        fmWrap line :: markFrom true true rest
      else if isDelimiter line && inFrontmatter then
        fmWrap line :: markFrom false frontmatterFound rest
      else if inFrontmatter then
        fmWrap line :: markFrom inFrontmatter frontmatterFound rest
      else
        line :: markFrom inFrontmatter frontmatterFound rest
  end.

Definition markFrontmatter (lines : list jsstring) : list jsstring :=
  markFrom false false lines.

Record SideBySide := { left : jsstring; right : jsstring }.

(** [renderSideBySide] from the cleaned-up diffs on. *)
Definition renderDiffs (diffs : list Diff) : SideBySide :=
  let '(l, r) := collectLines diffs in
  let filteredLeftLines := filter keepLine l in
  let filteredRightLines := filter keepLine r in
  {| left := join [nl] (markFrontmatter filteredLeftLines);
     right := join [nl] (markFrontmatter filteredRightLines) |}.

(** [diff_text1] and [diff_text2] of diff-match-patch: the source and the
    destination text of a list of diffs. *)
Definition diff_text1 (diffs : list Diff) : jsstring :=
  concat (map snd (filter (fun d => negb (fst d =? 1)) diffs)).

Definition diff_text2 (diffs : list Diff) : jsstring :=
  concat (map snd (filter (fun d => negb (fst d =? -1)) diffs)).

Section WithDiffMatchPatch.

(** [dmp.diff_main] and [dmp.diff_cleanupSemantic]; the latter rewrites
    its array in place and is taken as the function from the old array
    to the new one. *)
Variable diff_main : jsstring -> jsstring -> list Diff.
Variable diff_cleanupSemantic : list Diff -> list Diff.

Definition toSegment (d : Diff) : DiffSegment :=
  let '(ty, t) := d in
  if ty =? 1 then {| type := insert; text := t |}
  else if ty =? -1 then {| type := delete; text := t |}
  else {| type := equal; text := t |}.

Definition computeDiff (oldText newText : jsstring) : list DiffSegment :=
  let diffs := diff_cleanupSemantic (diff_main oldText newText) in
  map toSegment diffs.

Definition renderSideBySide (oldText newText : jsstring) : SideBySide :=
  renderDiffs (diff_cleanupSemantic (diff_main oldText newText)).

End WithDiffMatchPatch.

(** The text of the segments of the new side and of the old side. *)
Definition isNewSide (s : DiffSegment) : bool :=
  match type s with equal | insert => true | delete => false end.

Definition isOldSide (s : DiffSegment) : bool :=
  match type s with equal | delete => true | insert => false end.

Definition segmentsText (keep : DiffSegment -> bool) (l : list DiffSegment)
  : jsstring :=
  concat (map text (filter keep l)).

(** The lines pushed to a pane ([true]: the old pane, [leftLines]), and
    those of them that survive the filter. *)
Definition pushedLines (oldPane : bool) (diffs : list Diff) : list jsstring :=
  if oldPane then fst (collectLines diffs) else snd (collectLines diffs).

Definition keptLines (oldPane : bool) (diffs : list Diff) : list jsstring :=
  filter keepLine (pushedLines oldPane diffs).

Definition pane (oldPane : bool) (r : SideBySide) : jsstring :=
  if oldPane then left r else right r.

(** A small differ with the interface of [diff_main]: the common prefix,
    then what is left of the old text, then what is left of the new one. *)
Fixpoint commonPrefix (a b : jsstring) : jsstring * (jsstring * jsstring) :=
  match a, b with
  | x :: a', y :: b' =>
      if N.eqb x y
      then let '(p, r) := commonPrefix a' b' in (x :: p, r)
      else ([], (a, b))
  | _, _ => ([], (a, b))
  end.

Definition prefixDiff (a b : jsstring) : list Diff :=
  let '(p, (ra, rb)) := commonPrefix a b in
  (if truthy p then [(0, p)] else [])
    ++ (if truthy ra then [(-1, ra)] else [])
    ++ (if truthy rb then [(1, rb)] else []).

End VersionDiff.


(* ================================================================== *)
(** ** Numbers in file names *)

Module JSNumber.

(** The text of an integer in a template literal, [`${n}`]. *)
Definition toString (n : Z) : jsstring :=
  js (NilZero.string_of_int (Z.to_int n)).

Definition digitValue (radix : Z) (c : N) : option Z :=
  let v :=
    if ((48 <=? c) && (c <=? 57))%N then Some (Z.of_N c - 48)
    else if ((97 <=? c) && (c <=? 102))%N then Some (Z.of_N c - 87)
    else if ((65 <=? c) && (c <=? 70))%N then Some (Z.of_N c - 55)
    else None in
  match v with
  | Some d => if d <? radix then Some d else None
  | None => None
  end.

(** The longest prefix of digits, read in the given radix; [None] when
    there is no digit at all. *)
Fixpoint readDigits (radix : Z) (acc : option Z) (s : jsstring) : option Z :=
  match s with
  | [] => acc
  | c :: r =>
      match digitValue radix c with
      | Some d =>
          readDigits radix
            (Some (radix * match acc with Some a => a | None => 0 end + d)) r
      | None => acc
      end
  end.

(** [parseInt(s)] without a radix: leading white space, a sign, a [0x]
    prefix, then digits; [None] stands for [NaN]. *)
Definition parseInt (s : jsstring) : option Z :=
  let s1 := trimStart s in
  let '(sign, s2) :=
    match s1 with
    | 45%N :: r => (-1, r)
    | 43%N :: r => (1, r)
    | _ => (1, s1)
    end in
  let '(radix, s3) :=
    match s2 with
    | 48%N :: 120%N :: r => (16, r)
    | 48%N :: 88%N :: r => (16, r)
    | _ => (10, s2)
    end in
  match readDigits radix None s3 with
  | Some n => Some (sign * n)
  | None => None
  end.

End JSNumber.

(* ================================================================== *)
(** ** Asynchronous code that may throw *)

Module Async.

(** A thrown [Error]; only its message is ever looked at. *)
Record Error := { message : jsstring }.

Inductive outcome (A : Type) :=
| Return (a : A)
| Throw (e : Error).

Arguments Return {A} a.
Arguments Throw {A} e.

Section Monad.
Variable world : Type.

Definition M (A : Type) : Type := world -> outcome A * world.

Definition ret {A} (a : A) : M A := fun w => (Return a, w).

Definition throw {A} (e : Error) : M A := fun w => (Throw e, w).

Definition bind {A B} (c : M A) (k : A -> M B) : M B :=
  fun w =>
    match c w with
    | (Return a, w') => k a w'
    | (Throw e, w') => (Throw e, w')
    end.

(** [try { c } catch (e) { h e }] *)
Definition tryCatch {A} (c : M A) (h : Error -> M A) : M A :=
  fun w =>
    match c w with
    | (Return a, w') => (Return a, w')
    | (Throw e, w') => h e w'
    end.

Definition gets {A} (f : world -> A) : M A := fun w => (Return (f w), w).

Definition modify (f : world -> world) : M unit := fun w => (Return tt, f w).

(** [for (const x of l) { await body(x) }] *)
Fixpoint forEach {A} (l : list A) (body : A -> M unit) : M unit :=
  match l with
  | [] => ret tt
  | x :: r => bind (body x) (fun _ => forEach r body)
  end.
End Monad.

Arguments ret {world A} a.
Arguments throw {world A} e.
Arguments bind {world A B} c k.
Arguments tryCatch {world A} c h.
Arguments gets {world A} f.
Arguments modify {world} f.
Arguments forEach {world A} l body.

End Async.

(* ================================================================== *)
(** ** The host vault *)

Module Vault.
Import Async.

Inductive node :=
| FileNode (data : jsstring)      (* a [TFile] and its text *)
| FolderNode.                     (* a [TFolder] *)

(** Paths and their nodes, in listing order. *)
Definition vault := list (jsstring * node).

(** The notices shown to the user. *)
Inductive Notice :=
| DeleteFailed
| RestoreUnreadable
| Restored
| RestoreFailed
| VersionMissing
| Updated
| UpdateFailed.

Record world := { files : vault; notices : list Notice }.

Definition setFiles (f : vault -> vault) (w : world) : world :=
  {| files := f (files w); notices := notices w |}.

Fixpoint lookup (p : jsstring) (v : vault) : option node :=
  match v with
  | [] => None
  | (q, n) :: r => if eqb q p then Some n else lookup p r
  end.

Definition addNode (p : jsstring) (n : node) (v : vault) : vault :=
  v ++ [(p, n)].

Definition setData (p data : jsstring) (v : vault) : vault :=
  map (fun e => if eqb (fst e) p then (p, FileNode data) else e) v.

Definition slash : jsstring := js "/".

(** [q] is [p] or lies below the folder [p]. *)
Definition within (p q : jsstring) : bool :=
  eqb q p || startsWith q (p ++ slash).

Definition removePath (p : jsstring) (v : vault) : vault :=
  filter (fun e => negb (within p (fst e))) v.

(** A child of a folder, as the code looks at it: its name and its path. *)
Record Child := { childName : jsstring; childPath : jsstring }.

(** The name of [q] as a direct child of the folder [folder], if it is one. *)
Definition childOf (folder q : jsstring) : option jsstring :=
  if startsWith q (folder ++ slash) then
    let n := skipn (length (folder ++ slash)) q in
    if truthy n && negb (existsb (N.eqb 47) n) then Some n else None
  else None.

(** [folder.children] *)
Fixpoint children (folder : jsstring) (v : vault) : list Child :=
  match v with
  | [] => []
  | (q, _) :: r =>
      match childOf folder q with
      | Some n => {| childName := n; childPath := q |} :: children folder r
      | None => children folder r
      end
  end.

Definition fileExists : Error := {| message := js "File already exists." |}.
Definition folderExists : Error := {| message := js "Folder already exists." |}.
Definition notFound : Error := {| message := js "File not found." |}.
Definition syntaxError : Error := {| message := js "Unexpected token" |}.

(** [app.vault.getAbstractFileByPath] *)
Definition getAbstractFileByPath (p : jsstring) : M world (option node) :=
  gets (fun w => lookup p (files w)).

(** [app.vault.read] *)
Definition read (p : jsstring) : M world jsstring :=
  fun w =>
    match lookup p (files w) with
    | Some (FileNode d) => (Return d, w)
    | _ => (Throw notFound, w)
    end.

(** [app.vault.create] *)
Definition create (p data : jsstring) : M world unit :=
  fun w =>
    match lookup p (files w) with
    | Some _ => (Throw fileExists, w)
    | None => (Return tt, setFiles (addNode p (FileNode data)) w)
    end.

(** [app.vault.modify] *)
Definition modify (p data : jsstring) : M world unit :=
  fun w =>
    match lookup p (files w) with
    | Some (FileNode _) => (Return tt, setFiles (setData p data) w)
    | _ => (Throw notFound, w)
    end.

(** [app.vault.delete] *)
Definition delete (p : jsstring) : M world unit :=
  Async.modify (setFiles (removePath p)).

(** [app.vault.createFolder] *)
Definition createFolder (p : jsstring) : M world unit :=
  fun w =>
    match lookup p (files w) with
    | Some _ => (Throw folderExists, w)
    | None => (Return tt, setFiles (addNode p FolderNode) w)
    end.

(** [new Notice(...)] *)
Definition notice (n : Notice) : M world unit :=
  Async.modify
    (fun w => {| files := files w; notices := notices w ++ [n] |}).

End Vault.

(* ================================================================== *)
(** ** The storage service ([version-storage.ts], [types.ts]) *)

Module TFile.
Record t := { name : jsstring; path : jsstring }.
End TFile.

Module VersionStorage.
Import Async Vault.

Notation "x <- c ;; k" := (bind c (fun x => k))
  (at level 61, c at next level, right associativity).
Notation "c ;;; k" := (bind c (fun _ => k))
  (at level 61, right associativity).

Record VersionMeta := {
  filename : jsstring;
  timestamp : Z;
  name : option jsstring;
  description : option jsstring;
  originalPath : jsstring
}.

Record VersionIndex := {
  versions : list VersionMeta;
  lastUpdated : Z
}.

Record VersionViewSettings := {
  storageFolder : jsstring;
  maxVersions : Z;
  autoSave : bool
}.

(** The fields of the [updates] argument of [updateVersion]; an absent
    field and a field set to [undefined] are both [None]. *)
Record Updates := {
  newName : option jsstring;
  newDescription : option jsstring
}.

(** [filename.replace(/\.[^/.]+$/, '')]: the pattern matches at a dot that
    is followed, up to the end, by one or more characters other than a
    slash and a dot. *)
Fixpoint stripExtension (s : jsstring) : jsstring :=
  match s with
  | [] => []
  | c :: r =>
      if N.eqb c 46 && truthy r
         && forallb (fun x => negb (N.eqb x 47) && negb (N.eqb x 46)) r
      then []
      else c :: stripExtension r
  end.

(** [array.slice(start)] *)
Definition slice {A} (start : Z) (l : list A) : list A :=
  if start <? 0
  then skipn (Z.to_nat (Z.max (Z.of_nat (length l) + start) 0)) l
  else skipn (Z.to_nat start) l.

(** [array.findIndex(p)]; [None] stands for -1. *)
Fixpoint findIndex {A} (p : A -> bool) (l : list A) : option nat :=
  match l with
  | [] => None
  | x :: r =>
      if p x then Some O
      else match findIndex p r with
           | Some i => Some (S i)
           | None => None
           end
  end.

(** The array with the object at position [i] changed by [f]. *)
Fixpoint updateAt {A} (i : nat) (f : A -> A) (l : list A) : list A :=
  match l, i with
  | [], _ => []
  | x :: r, O => f x :: r
  | x :: r, S j => x :: updateAt j f r
  end.

(** The test of the two loops over [folder.children]: the name is a
    content file name and the number after [version_] is [ts]. *)
Definition encodesTimestamp (childName : jsstring) (ts : Z) : bool :=
  if startsWith childName (js "version_") && endsWith childName (js ".md")
  then
    let nameWithoutPrefix := replaceFirst (js "version_") [] childName in
    let nameWithoutSuffix := replaceFirst (js ".md") [] nameWithoutPrefix in
    let parts := split 95 nameWithoutSuffix in
    if (2 <=? length parts)%nat then
      match JSNumber.parseInt (hd [] parts) with
      | Some fileTimestamp => fileTimestamp =? ts
      | None => false
      end
    else false
  else false.

Definition emptyIndex : VersionIndex := {| versions := []; lastUpdated := 0 |}.

Definition applyUpdates (u : Updates) (version : VersionMeta) : VersionMeta :=
  let v1 :=
    match newName u with
    | Some n =>
        {| filename := filename version; timestamp := timestamp version;
           name := Some n; description := description version;
           originalPath := originalPath version |}
    | None => version
    end in
  match newDescription u with
  | Some d =>
      {| filename := filename v1; timestamp := timestamp v1;
         name := name v1; description := Some d;
         originalPath := originalPath v1 |}
  | None => v1
  end.

Section Service.

(** [JSON.stringify(index, null, 2)] and [JSON.parse(content)] read as a
    [VersionIndex]; [None] stands for a thrown [SyntaxError].  This is the
    service on index files whose text denotes an index, as the cast of
    the source takes it; [UncheckedIndex], further down, has
    [readVersionIndex] and [getVersions] for the other values that
    [JSON.parse] may return. *)
Variable JSON_stringify : VersionIndex -> jsstring.
Variable JSON_parse : jsstring -> option VersionIndex.

Variable settings : VersionViewSettings.

Definition getVersionFolder (filename : jsstring) : jsstring :=
  storageFolder settings ++ slash ++ stripExtension filename.

Definition getIndexFilePath (filename : jsstring) : jsstring :=
  getVersionFolder filename ++ js "/versions.json".

Definition readVersionIndex (filename : jsstring) : M world VersionIndex :=
  let indexPath := getIndexFilePath filename in
  returned <-
    tryCatch
      (file <- getAbstractFileByPath indexPath ;;
       match file with
       | Some (FileNode _) =>
           content <- read indexPath ;;
           match JSON_parse content with
           | Some index => ret (Some index)
           | None => throw syntaxError
           end
       | _ => ret None
       end)
      (fun _ => ret None) ;;
  match returned with
  | Some index => ret index
  | None => ret emptyIndex
  end.

Definition ensureFolderExists (folderPath : jsstring) : M world unit :=
  tryCatch
    (folder <- getAbstractFileByPath folderPath ;;
     match folder with
     | Some FolderNode => ret tt
     | Some (FileNode _) => ret tt
     | None => createFolder folderPath
     end)
    (fun e =>
       if includes (message e) (js "already exists") then ret tt
       else throw e).

Definition writeVersionIndex (filename : jsstring) (index : VersionIndex)
  : M world unit :=
  let indexPath := getIndexFilePath filename in
  let folderPath := getVersionFolder filename in
  ensureFolderExists folderPath ;;;
  tryCatch
    (file <- getAbstractFileByPath indexPath ;;
     match file with
     | Some (FileNode _) => modify indexPath (JSON_stringify index)
     | _ => create indexPath (JSON_stringify index)
     end)
    (fun e =>
       if includes (message e) (js "already exists") then
         file <- getAbstractFileByPath indexPath ;;
         match file with
         | Some (FileNode _) => modify indexPath (JSON_stringify index)
         | _ => throw e
         end
       else throw e).

(** The loop of [deleteVersion] over [folder.children]: the first child
    that encodes the timestamp is deleted and the loop is left. *)
Fixpoint deleteFirstMatch (ts : Z) (cs : list Child) : M world unit :=
  match cs with
  | [] => ret tt
  | child :: rest =>
      if encodesTimestamp (childName child) ts
      then delete (childPath child)
      else deleteFirstMatch ts rest
  end.

Definition deleteVersion (file : TFile.t) (ts : Z) : M world unit :=
  let folderPath := getVersionFolder (TFile.name file) in
  tryCatch
    (index <- readVersionIndex (TFile.name file) ;;
     let index' :=
       {| versions :=
            filter (fun v => negb (timestamp v =? ts)) (versions index);
          lastUpdated := lastUpdated index |} in
     writeVersionIndex (TFile.name file) index' ;;;
     folder <- getAbstractFileByPath folderPath ;;
     match folder with
     | Some FolderNode =>
         cs <- gets (fun w => children folderPath (files w)) ;;
         deleteFirstMatch ts cs
     | _ => ret tt
     end)
    (fun _ => notice DeleteFailed).

Definition cleanupOldVersions (file : TFile.t) : M world unit :=
  index <- readVersionIndex (TFile.name file) ;;
  if maxVersions settings <? Z.of_nat (length (versions index)) then
    let toDelete := slice (maxVersions settings) (versions index) in
    forEach toDelete (fun version => deleteVersion file (timestamp version))
  else ret tt.

(** [saveVersion]; [now] is the reading of [Date.now()] and [vid] the
    number drawn from [Math.random()]. *)
Definition saveVersion (now vid : Z) (file : TFile.t)
    (name description : option jsstring) : M world VersionMeta :=
  let versionFilename :=
    js "version_" ++ JSNumber.toString now ++ js "_"
      ++ JSNumber.toString vid ++ js ".md" in
  let folderPath := getVersionFolder (TFile.name file) in
  content <- read (TFile.path file) ;;
  ensureFolderExists folderPath ;;;
  create (folderPath ++ slash ++ versionFilename) content ;;;
  index <- readVersionIndex (TFile.name file) ;;
  let meta :=
    {| filename := TFile.name file;
       timestamp := now;
       name := name;
       description := description;
       originalPath := TFile.path file |} in
  let index' :=
    {| versions := meta :: versions index; lastUpdated := now |} in
  writeVersionIndex (TFile.name file) index' ;;;
  cleanupOldVersions file ;;;
  ret meta.

Definition getVersions (file : TFile.t) : M world (list VersionMeta) :=
  index <- readVersionIndex (TFile.name file) ;;
  ret (versions index).

(** The loop of [getVersionContent] over [folder.children]. *)
Fixpoint readFirstMatch (ts : Z) (cs : list Child)
  : M world (option jsstring) :=
  match cs with
  | [] => ret None
  | child :: rest =>
      if encodesTimestamp (childName child) ts
      then content <- read (childPath child) ;; ret (Some content)
      else readFirstMatch ts rest
  end.

(** [getVersionContent]; [None] stands for [null]. *)
Definition getVersionContent (file : TFile.t) (ts : Z)
  : M world (option jsstring) :=
  let folderPath := getVersionFolder (TFile.name file) in
  index <- readVersionIndex (TFile.name file) ;;
  match find (fun v => timestamp v =? ts) (versions index) with
  | None => ret None
  | Some _ =>
      tryCatch
        (folder <- getAbstractFileByPath folderPath ;;
         match folder with
         | Some FolderNode =>
             cs <- gets (fun w => children folderPath (files w)) ;;
             readFirstMatch ts cs
         | _ => ret None
         end)
        (fun _ => ret None)
  end.

Definition restoreVersion (file : TFile.t) (ts : Z) : M world bool :=
  content <- getVersionContent file ts ;;
  match content with
  | None => notice RestoreUnreadable ;;; ret false
  | Some c =>
      tryCatch
        (modify (TFile.path file) c ;;; notice Restored ;;; ret true)
        (fun _ => notice RestoreFailed ;;; ret false)
  end.

Definition updateVersion (file : TFile.t) (ts : Z) (updates : Updates)
  : M world bool :=
  tryCatch
    (index <- readVersionIndex (TFile.name file) ;;
     match findIndex (fun v => timestamp v =? ts) (versions index) with
     | None => notice VersionMissing ;;; ret false
     | Some versionIndex =>
         match nth_error (versions index) versionIndex with
         | None => notice VersionMissing ;;; ret false
         | Some _ =>
             let index' :=
               {| versions :=
                    updateAt versionIndex (applyUpdates updates)
                      (versions index);
                  lastUpdated := lastUpdated index |} in
             writeVersionIndex (TFile.name file) index' ;;;
             notice Updated ;;;
             ret true
         end
     end)
    (fun _ => notice UpdateFailed ;;; ret false).

End Service.

End VersionStorage.


(* ================================================================== *)
(** ** A serialisation of the index

    The service only needs of [JSON.stringify] and [JSON.parse] that
    parsing what was written gives the index back.  This module has a
    serialisation with that property, to run the service on given vaults:
    lengths come first, then the items. *)

Module Codec.
Import VersionStorage.

Definition Parser (A : Type) : Type := jsstring -> option (A * jsstring).

Definition putZ (z : Z) : jsstring :=
  [if z <? 0 then 1%N else 0%N; Z.abs_N z].

Definition getZ : Parser Z := fun s =>
  match s with
  | sign :: n :: rest =>
      Some (if N.eqb sign 1 then - Z.of_N n else Z.of_N n, rest)
  | _ => None
  end.

Definition putString (s : jsstring) : jsstring := N.of_nat (length s) :: s.

Definition getString : Parser jsstring := fun s =>
  match s with
  | n :: rest =>
      if (N.to_nat n <=? length rest)%nat
      then Some (firstn (N.to_nat n) rest, skipn (N.to_nat n) rest)
      else None
  | [] => None
  end.

Definition putOption (o : option jsstring) : jsstring :=
  match o with
  | None => [0%N]
  | Some s => 1%N :: putString s
  end.

Definition getOption : Parser (option jsstring) := fun s =>
  match s with
  | 0%N :: rest => Some (None, rest)
  | 1%N :: rest =>
      match getString rest with
      | Some (x, rest') => Some (Some x, rest')
      | None => None
      end
  | _ => None
  end.

Definition putMeta (m : VersionMeta) : jsstring :=
  putString (filename m) ++ putZ (timestamp m) ++ putOption (name m)
    ++ putOption (description m) ++ putString (originalPath m).

Definition getMeta : Parser VersionMeta := fun s =>
  match getString s with
  | Some (f, s1) =>
    match getZ s1 with
    | Some (t, s2) =>
      match getOption s2 with
      | Some (n, s3) =>
        match getOption s3 with
        | Some (d, s4) =>
          match getString s4 with
          | Some (p, s5) =>
              Some ({| filename := f; timestamp := t; name := n;
                       description := d; originalPath := p |}, s5)
          | None => None
          end
        | None => None
        end
      | None => None
      end
    | None => None
    end
  | None => None
  end.

Fixpoint getMetas (n : nat) : Parser (list VersionMeta) := fun s =>
  match n with
  | O => Some ([], s)
  | S k =>
      match getMeta s with
      | Some (m, s1) =>
          match getMetas k s1 with
          | Some (ms, s2) => Some (m :: ms, s2)
          | None => None
          end
      | None => None
      end
  end.

Definition stringify (i : VersionIndex) : jsstring :=
  putZ (lastUpdated i) ++ N.of_nat (length (versions i))
    :: flat_map putMeta (versions i).

Definition parse (s : jsstring) : option VersionIndex :=
  match getZ s with
  | Some (u, n :: s1) =>
      match getMetas (N.to_nat n) s1 with
      | Some (ms, []) => Some {| versions := ms; lastUpdated := u |}
      | _ => None
      end
  | _ => None
  end.

End Codec.


(* ================================================================== *)
(** ** What the service does to the vault, as functions *)

Module StorageEffects.
Import Async Vault VersionStorage.

Section Effects.
Variable JSON_stringify : VersionIndex -> jsstring.
Variable JSON_parse : jsstring -> option VersionIndex.
Variable settings : VersionViewSettings.

(** The index that [readVersionIndex] finds in a vault. *)
Definition indexOf (v : vault) (filename : jsstring) : VersionIndex :=
  match lookup (getIndexFilePath settings filename) v with
  | Some (FileNode content) =>
      match JSON_parse content with
      | Some index => index
      | None => emptyIndex
      end
  | _ => emptyIndex
  end.

(** The vault after [ensureFolderExists]. *)
Definition ensured (folderPath : jsstring) (v : vault) : vault :=
  match lookup folderPath v with
  | None => addNode folderPath FolderNode v
  | Some _ => v
  end.

(** The vault after a text went to a path that is no folder. *)
Definition written (p data : jsstring) (v : vault) : vault :=
  match lookup p v with
  | Some (FileNode _) => setData p data v
  | _ => addNode p (FileNode data) v
  end.

Definition firstMatch (ts : Z) (cs : list Child) : option Child :=
  find (fun c => encodesTimestamp (childName c) ts) cs.

(** The index that [deleteVersion] writes. *)
Definition withoutTimestamp (ts : Z) (index : VersionIndex) : VersionIndex :=
  {| versions := filter (fun v => negb (timestamp v =? ts)) (versions index);
     lastUpdated := lastUpdated index |}.

(** The vault after [deleteVersion], when the index path is no folder. *)
Definition afterDelete (filename : jsstring) (ts : Z) (v : vault) : vault :=
  let folderPath := getVersionFolder settings filename in
  let v1 :=
    written (getIndexFilePath settings filename)
      (JSON_stringify (withoutTimestamp ts (indexOf v filename)))
      (ensured folderPath v) in
  match lookup folderPath v1 with
  | Some FolderNode =>
      match firstMatch ts (children folderPath v1) with
      | Some c => removePath (childPath c) v1
      | None => v1
      end
  | _ => v1
  end.

(** The path of the content file of a save. *)
Definition contentPath (filename : jsstring) (now vid : Z) : jsstring :=
  getVersionFolder settings filename ++ slash
    ++ (js "version_" ++ JSNumber.toString now ++ js "_"
          ++ JSNumber.toString vid ++ js ".md").

(** One call of [saveVersion]: the clock, the random number and the
    two optional arguments. *)
Record SaveRequest := {
  savedAt : Z;
  randomId : Z;
  givenName : option jsstring;
  givenDescription : option jsstring
}.

(** The calls of [saveVersion] for the requests, one after the other;
    the result is the list of the returned metadata. *)
Fixpoint saveAll (file : TFile.t) (requests : list SaveRequest)
  : M world (list VersionMeta) :=
  match requests with
  | [] => ret []
  | r :: rest =>
      bind (saveVersion JSON_stringify JSON_parse settings
              (savedAt r) (randomId r) file (givenName r)
              (givenDescription r))
        (fun meta =>
           bind (saveAll file rest) (fun metas => ret (meta :: metas)))
  end.

Definition metaOf (file : TFile.t) (r : SaveRequest) : VersionMeta :=
  {| filename := TFile.name file;
     timestamp := savedAt r;
     name := givenName r;
     description := givenDescription r;
     originalPath := TFile.path file |}.

(** The vault between two saves of [file], after the requests [saved]:
    - the index holds the newest [maxVersions] of the saved versions,
      newest first;
    - the index path is no folder;
    - the document is a file that does not lie below its version folder;
    - below the version folder there is nothing but the index and
      content files of the saved versions. *)
Definition wellStored (file : TFile.t) (saved : list SaveRequest)
    (v : vault) : Prop :=
  let folderPath := getVersionFolder settings (TFile.name file) in
  let indexPath := getIndexFilePath settings (TFile.name file) in
  versions (indexOf v (TFile.name file))
  = firstn (Z.to_nat (maxVersions settings))
      (rev (map (metaOf file) saved))
  /\ lookup indexPath v <> Some FolderNode
  /\ (exists content, lookup (TFile.path file) v = Some (FileNode content))
  /\ startsWith (TFile.path file) (folderPath ++ slash) = false
  /\ (forall q, startsWith q (folderPath ++ slash) = true ->
                lookup q v <> None ->
                q = indexPath
                \/ exists r, In r saved
                     /\ q = contentPath (TFile.name file)
                             (savedAt r) (randomId r)).

End Effects.

(** The versions left when the versions with the timestamp of an entry
    of [gone] are filtered out, one entry of [gone] after the other. *)
Definition dropTimestamps (gone l : list VersionStorage.VersionMeta)
  : list VersionStorage.VersionMeta :=
  fold_left
    (fun acc m =>
       filter (fun v => negb (VersionStorage.timestamp v
                              =? VersionStorage.timestamp m)) acc)
    gone l.

(** The element that [array.find] would return is taken out. *)
Fixpoint removeFirst {A} (p : A -> bool) (l : list A) : list A :=
  match l with
  | [] => []
  | x :: r => if p x then r else x :: removeFirst p r
  end.

End StorageEffects.


(* ================================================================== *)
(** ** A small vault to run the service on *)

Module Scenario.
Import Async Vault VersionStorage StorageEffects.

(** [DEFAULT_SETTINGS] of [settings.ts]. *)
Definition DEFAULT_SETTINGS : VersionViewSettings :=
  {| storageFolder := js "res/versions"; maxVersions := 50;
     autoSave := false |}.

(** The same with room for one version only. *)
Definition keepOne : VersionViewSettings :=
  {| storageFolder := js "res/versions"; maxVersions := 1;
     autoSave := false |}.

Definition note : TFile.t :=
  {| TFile.name := js "note.md"; TFile.path := js "notes/note.md" |}.

(** A vault with the note and nothing else. *)
Definition fresh : world :=
  {| files := [(js "notes/note.md", FileNode (js "hello"))]; notices := [] |}.

(** A save without name and description. *)
Definition request (now vid : Z) : SaveRequest :=
  {| savedAt := now; randomId := vid;
     givenName := None; givenDescription := None |}.

(** The vault after two saves of the note, at 100 and at 101. *)
Definition savedTwice : world :=
  snd (saveAll Codec.stringify Codec.parse DEFAULT_SETTINGS note
         [request 100 1; request 101 2] fresh).

(** A version folder with two content files for the timestamp 5, one
    for 6, and an index that lists 6, 5 and 5. *)
Definition twins : world :=
  let entry (t : Z) :=
    {| filename := js "note.md"; timestamp := t; name := None;
       description := None; originalPath := js "notes/note.md" |} in
  {| files :=
       [(js "notes/note.md", FileNode (js "hello"));
        (js "res/versions/note", FolderNode);
        (js "res/versions/note/version_5_1.md", FileNode (js "a"));
        (js "res/versions/note/versions.json",
         FileNode (Codec.stringify
                     {| versions := [entry 6; entry 5; entry 5];
                        lastUpdated := 6 |}));
        (js "res/versions/note/version_6_3.md", FileNode (js "c"));
        (js "res/versions/note/version_5_2.md", FileNode (js "b"))];
     notices := [] |}.

End Scenario.

(* ================================================================== *)
(** ** More of the diff service *)

Module VersionDiffMore.
Import VersionDiff.

(** [renderDiffHtml] from the cleaned-up diffs on: one element per diff,
    joined without separator. *)
Definition spanWrap (s : jsstring) : jsstring :=
  js "<span class=" ++ [dquote] ++ js "version-diff-equal" ++ [dquote]
     ++ js ">" ++ s ++ js "</span>".

Definition diffHtmlPiece (d : Diff) : jsstring :=
  let '(ty, text) := d in
  let escapedText := escapeHtml text in
  if ty =? 1 then insWrap escapedText
  else if ty =? -1 then delWrap escapedText
  else spanWrap escapedText.

Definition renderDiffHtmlOf (diffs : list Diff) : jsstring :=
  join [] (map diffHtmlPiece diffs).

Definition renderDiffHtml
    (diff_main : jsstring -> jsstring -> list Diff)
    (diff_cleanupSemantic : list Diff -> list Diff)
    (oldText newText : jsstring) : jsstring :=
  renderDiffHtmlOf (diff_cleanupSemantic (diff_main oldText newText)).

(** What the five replacements of [escapeHtml] make of one code unit. *)
Definition escapeChar (c : N) : jsstring :=
  if N.eqb c 38 then js "&amp;"
  else if N.eqb c 60 then js "&lt;"
  else if N.eqb c 62 then js "&gt;"
  else if N.eqb c 34 then js "&quot;"
  else if N.eqb c 39 then js "&#039;"
  else [c].

(** The text a pane has been given so far: its lines without their tags,
    then the pending text. *)
Definition oldContent (p : Panes) : jsstring :=
  concat (map stripTags (leftLines p)) ++ escapeHtml (currentOld p).

Definition newContent (p : Panes) : jsstring :=
  concat (map stripTags (rightLines p)) ++ escapeHtml (currentNew p).

(** A line of the old pane: escaped text, bare or in the delete wrapper;
    a line of the new pane: escaped text, bare or in the insert wrapper. *)
Definition oldPaneLine (l : jsstring) : Prop :=
  exists s, l = escapeHtml s \/ l = delWrap (escapeHtml s).

Definition newPaneLine (l : jsstring) : Prop :=
  exists s, l = escapeHtml s \/ l = insWrap (escapeHtml s).

End VersionDiffMore.

(* ================================================================== *)
(** ** More of the storage service and of its callers *)

Module VersionStorageMore.
Import Async Vault VersionStorage StorageEffects.

(** The name that [saveVersion] gives to a content file. *)
Definition versionFilename (now vid : Z) : jsstring :=
  js "version_" ++ JSNumber.toString now ++ js "_"
    ++ JSNumber.toString vid ++ js ".md".

Section Store.
Variable JSON_stringify : VersionIndex -> jsstring.
Variable JSON_parse : jsstring -> option VersionIndex.
Variable settings : VersionViewSettings.
Variable file : TFile.t.

(** The versions that [cleanupOldVersions] deletes. *)
Definition toDelete (index : VersionIndex) : list VersionMeta :=
  if maxVersions settings <? Z.of_nat (length (versions index))
  then slice (maxVersions settings) (versions index)
  else [].

(** The vault after a call of [saveVersion] that returns. *)
Definition afterSave (r : SaveRequest) (v : vault) : vault :=
  match lookup (TFile.path file) v with
  | Some (FileNode content) =>
      let folderPath := getVersionFolder settings (TFile.name file) in
      let v2 :=
        addNode (contentPath settings (TFile.name file)
                   (savedAt r) (randomId r))
          (FileNode content) (ensured folderPath v) in
      let index' :=
        {| versions :=
             metaOf file r
               :: versions (indexOf JSON_parse settings v2 (TFile.name file));
           lastUpdated := savedAt r |} in
      let v3 :=
        written (getIndexFilePath settings (TFile.name file))
          (JSON_stringify index') (ensured folderPath v2) in
      fold_left
        (fun acc m =>
           afterDelete JSON_stringify JSON_parse settings (TFile.name file)
             (timestamp m) acc)
        (toDelete index') v3
  | _ => v
  end.

(** The document is given a text and then saved as a version, one
    request after the other. *)
Fixpoint editAndSaveAll (steps : list (jsstring * SaveRequest))
  : M world (list VersionMeta) :=
  match steps with
  | [] => ret []
  | (text, r) :: rest =>
      bind (modify (TFile.path file) text)
        (fun _ =>
           bind (saveVersion JSON_stringify JSON_parse settings
                   (savedAt r) (randomId r) file (givenName r)
                   (givenDescription r))
             (fun meta =>
                bind (editAndSaveAll rest)
                  (fun metas => ret (meta :: metas))))
  end.

(** The content files between two saves, after the steps [saved]:
    - the version folder is no file, and it is a folder once a version
      was saved;
    - a version that the index lists has its content file, with the text
      of the document at the time of the save;
    - a content file of a save is there only as long as the index lists
      the version. *)
Definition contentsKept (saved : list (jsstring * SaveRequest))
    (v : vault) : Prop :=
  let folderPath := getVersionFolder settings (TFile.name file) in
  let listed :=
    map timestamp (versions (indexOf JSON_parse settings v (TFile.name file)))
  in
  (forall d, lookup folderPath v <> Some (FileNode d))
  /\ (saved <> [] -> lookup folderPath v = Some FolderNode)
  /\ (forall text r, In (text, r) saved -> In (savedAt r) listed ->
        lookup (contentPath settings (TFile.name file)
                  (savedAt r) (randomId r)) v
        = Some (FileNode text))
  /\ (forall text r, In (text, r) saved ->
        lookup (contentPath settings (TFile.name file)
                  (savedAt r) (randomId r)) v <> None ->
        In (savedAt r) listed).

(** What [getVersionContent] returns in a vault; [None] stands for
    [null]. *)
Definition contentOf (v : vault) (ts : Z) : option jsstring :=
  let folderPath := getVersionFolder settings (TFile.name file) in
  match find (fun m => timestamp m =? ts)
          (versions (indexOf JSON_parse settings v (TFile.name file))) with
  | None => None
  | Some _ =>
      match lookup folderPath v with
      | Some FolderNode =>
          match firstMatch ts (children folderPath v) with
          | Some child =>
              match lookup (childPath child) v with
              | Some (FileNode content) => Some content
              | _ => None
              end
          | None => None
          end
      | _ => None
      end
  end.

End Store.

End VersionStorageMore.

(* ================================================================== *)
(** ** The settings tab ([settings.ts]) *)

Module SettingsTab.
Import VersionStorage.

(** The Number value of an integer: the integer itself up to 2^53, and
    beyond it the nearest integer with 53 significant bits, the even one
    of two that are equally near.  (From 2^1024 on the Number value is
    [Infinity], which is left out here.) *)
Definition toDouble (n : Z) : Z :=
  let a := Z.abs n in
  if a <=? 2 ^ 53 then n
  else
    let e := Z.log2 a - 52 in
    let q := a / 2 ^ e in
    let r := a mod 2 ^ e in
    let half := 2 ^ (e - 1) in
    let q' :=
      if (half <? r) || ((r =? half) && Z.odd q) then q + 1 else q in
    Z.sgn n * (q' * 2 ^ e).

(** [parseInt(value, 10)]: leading white space, a sign, then decimal
    digits, the number read being a Number value; [None] stands for
    [NaN]. *)
Definition parseInt10 (s : jsstring) : option Z :=
  let s1 := trimStart s in
  let '(sign, s2) :=
    match s1 with
    | 45%N :: r => (-1, r)
    | 43%N :: r => (1, r)
    | _ => (1, s1)
    end in
  match JSNumber.readDigits 10 None s2 with
  | Some n => Some (toDouble (sign * n))
  | None => None
  end.

(** What the user changes in the tab: the text of the folder field, the
    text of the number field, the toggle. *)
Inductive Change :=
| StorageFolder (value : jsstring)
| MaxVersions (value : jsstring)
| AutoSave (value : bool).

(** The [onChange] handlers, as they change [plugin.settings]. *)
Definition onChange (c : Change) (settings : VersionViewSettings)
  : VersionViewSettings :=
  match c with
  | StorageFolder value =>
      {| storageFolder := if truthy value then value else js "res/versions";
         maxVersions := maxVersions settings;
         autoSave := autoSave settings |}
  | MaxVersions value =>
      match parseInt10 value with
      | Some num =>
          if 0 <? num
          then {| storageFolder := storageFolder settings;
                  maxVersions := num;
                  autoSave := autoSave settings |}
          else settings
      | None => settings
      end
  | AutoSave value =>
      {| storageFolder := storageFolder settings;
         maxVersions := maxVersions settings;
         autoSave := value |}
  end.

(** The text that [display] puts into the number field,
    [String(maxVersions)], for a number up to 2^53: its decimal digits.
    Beyond 2^53 [String] prints the shortest digits that denote the same
    Number value, filled up with zeros or followed by an exponent; that
    text is left out here ([None]). *)
Definition shownMaxVersions (settings : VersionViewSettings)
  : option jsstring :=
  if Z.abs (maxVersions settings) <=? 2 ^ 53
  then Some (JSNumber.toString (maxVersions settings))
  else None.

End SettingsTab.

(* ================================================================== *)
(** ** The version view ([version-view.ts]) *)

Module VersionViewUI.
Import VersionStorage.

(** The loop of [render] over the versions: the item of position [i]
    gets the number [versions.length - i]. *)
Fixpoint itemsFrom (len i : Z) (versions : list VersionMeta)
  : list (VersionMeta * Z) :=
  match versions with
  | [] => []
  | version :: rest => (version, len - i) :: itemsFrom len (i + 1) rest
  end.

Definition items (versions : list VersionMeta) : list (VersionMeta * Z) :=
  itemsFrom (Z.of_nat (length versions)) 0 versions.

(** The number that [handleDiff] gives to the diff window. *)
Definition diffNumber (versions : list VersionMeta) (meta : VersionMeta) : Z :=
  let versionIndex :=
    match findIndex (fun v => timestamp v =? timestamp meta) versions with
    | Some i => Z.of_nat i
    | None => -1
    end in
  Z.of_nat (length versions) - versionIndex.

(** What the container shows. *)
Inductive Shown :=
| Blank
| OpenAFileFirst                 (* the message of line 47 *)
| Loading (file : TFile.t)       (* header and save row, no list yet *)
| NoHistory (file : TFile.t)     (* the message of line 104 *)
| History (file : TFile.t) (list : list (VersionMeta * Z)).

(** The two flags of the view, the file of the call of [render] that
    waits for [getVersions], and the container. *)
Record View := {
  isRendering : bool;
  pendingRender : bool;
  awaiting : option TFile.t;
  shown : Shown
}.

(** A new view, before the call of [render] in the constructor. *)
Definition created : View :=
  {| isRendering := false; pendingRender := false;
     awaiting := None; shown := Blank |}.

(** A call of [render], up to its first [await]; [activeFile] is what
    [getActiveFile] returns. *)
Definition render (activeFile : option TFile.t) (view : View) : View :=
  if isRendering view then
    {| isRendering := true; pendingRender := true;
       awaiting := awaiting view; shown := shown view |}
  else
    match activeFile with
    | None =>
        {| isRendering := true; pendingRender := pendingRender view;
           awaiting := None; shown := OpenAFileFirst |}
    | Some file =>
        {| isRendering := true; pendingRender := pendingRender view;
           awaiting := Some file; shown := Loading file |}
    end.

(** The rest of the waiting call of [render], once [getVersions] has
    returned [versions]; [activeFile] is what [getActiveFile] returns to
    the call of [render] that a pending request starts. *)
Definition resume (versions : list VersionMeta) (activeFile : option TFile.t)
    (view : View) : View :=
  match awaiting view with
  | None => view
  | Some file =>
      let listed :=
        match versions with
        | [] => NoHistory file
        | _ => History file (items versions)
        end in
      if pendingRender view then
        render activeFile
          {| isRendering := false; pendingRender := false;
             awaiting := None; shown := listed |}
      else
        {| isRendering := false; pendingRender := false;
           awaiting := None; shown := listed |}
  end.

(** What happens to a view: [render] is called (by the constructor, by
    [refresh], by a handler), or the versions arrive. *)
Inductive Event :=
| Render (activeFile : option TFile.t)
| Versions (versions : list VersionMeta) (activeFile : option TFile.t).

Definition step (view : View) (e : Event) : View :=
  match e with
  | Render activeFile => render activeFile view
  | Versions versions activeFile => resume versions activeFile view
  end.

(** The texts that the save button of [EditVersionModal] passes on. *)
Definition modalUpdates (meta : VersionMeta) (nameValue descValue : jsstring)
  : Updates :=
  {| newName :=
       Some (if truthy nameValue then nameValue
             else match name meta with
                  | Some n => if truthy n then n else []
                  | None => []
                  end);
     newDescription := Some (if truthy descValue then descValue else []) |}.

End VersionViewUI.

(* ================================================================== *)
(** ** The index as [JSON.parse] hands it over *)

Module UncheckedIndex.
Import Async Vault VersionStorage.

(** [readVersionIndex] returns [JSON.parse(content) as VersionIndex], and
    the cast checks nothing: the value may be any value that a JSON text
    denotes.  The service only ever reads the property [versions] of it,
    so a parsed value is one of four kinds:
    - an object of the declared type;
    - [null], of which no property can be read;
    - another value that has no property [versions] (an object without
      that key, an array, a number, a string, [true], [false]);
    - an object whose [versions] is not an array of [VersionMeta]. *)
Inductive Parsed :=
| AnIndex (index : VersionIndex)
| Null
| NoVersions
| OtherVersions.

(** What [index.versions] evaluates to, and [getVersions] resolves to. *)
Inductive Versions :=
| Array (versions : list VersionMeta)
| Undefined
| NotAnArray.

(** The [TypeError] of a property read on [null]. *)
Definition typeError : Error :=
  {| message := js "Cannot read properties of null (reading 'versions')" |}.

Section Service.
Variable JSON_parse : jsstring -> option Parsed.
Variable settings : VersionViewSettings.

Definition readVersionIndex (filename : jsstring) : M world Parsed :=
  let indexPath := getIndexFilePath settings filename in
  returned <-
    tryCatch
      (file <- getAbstractFileByPath indexPath ;;
       match file with
       | Some (FileNode _) =>
           content <- read indexPath ;;
           match JSON_parse content with
           | Some value => ret (Some value)
           | None => throw syntaxError
           end
       | _ => ret None
       end)
      (fun _ => ret None) ;;
  match returned with
  | Some value => ret value
  | None => ret (AnIndex emptyIndex)
  end.

Definition getVersions (file : TFile.t) : M world Versions :=
  index <- readVersionIndex (TFile.name file) ;;
  match index with
  | AnIndex index => ret (Array (versions index))
  | Null => throw typeError
  | NoVersions => ret Undefined
  | OtherVersions => ret NotAnArray
  end.

End Service.

(** A parser all of whose values have the declared type. *)
Definition checked (JSON_parse : jsstring -> option VersionIndex)
  : jsstring -> option Parsed :=
  fun content =>
    match JSON_parse content with
    | Some index => Some (AnIndex index)
    | None => None
    end.

(** A parser to run the service on: the texts [null] and [{}] are read
    as JSON reads them, every other text as the codec reads it. *)
Definition parse (content : jsstring) : option Parsed :=
  if eqb content (js "null") then Some Null
  else if eqb content (js "{}") then Some NoVersions
  else checked Codec.parse content.

(** The note with a version folder whose index file holds [text]. *)
Definition withIndexText (text : jsstring) : world :=
  {| files :=
       [(js "notes/note.md", FileNode (js "hello"));
        (js "res/versions/note", FolderNode);
        (js "res/versions/note/versions.json", FileNode text)];
     notices := [] |}.

End UncheckedIndex.

(* ================================================================== *)
(** ** Properties of the string primitives *)

Unset Implicit Arguments.

Module JSFacts.

Lemma eqb_eq a b : eqb a b = true <-> a = b.
Proof.
  revert b; induction a as [|x a IH]; intros [|y b]; simpl;
    try (split; (reflexivity || discriminate)).
  rewrite andb_true_iff, N.eqb_eq, IH.
  split; [intros [-> ->]; reflexivity | intros E; inversion E; auto].
Qed.

Lemma eqb_refl a : eqb a a = true.
Proof. apply eqb_eq; reflexivity. Qed.

Lemma eqb_neq a b : eqb a b = false <-> a <> b.
Proof.
  rewrite <- eqb_eq. destruct (eqb a b); split; congruence.
Qed.

Lemma eqb_sym a b : eqb a b = eqb b a.
Proof.
  destruct (eqb a b) eqn:E.
  - apply eqb_eq in E. subst. symmetry. apply eqb_refl.
  - symmetry. apply eqb_neq. apply eqb_neq in E. congruence.
Qed.

Lemma startsWith_iff s p : startsWith s p = true <-> exists r, s = p ++ r.
Proof.
  revert s; induction p as [|x p IH]; intros s; simpl.
  - split; [intros _; now exists s | reflexivity].
  - destruct s as [|c s].
    + split; [discriminate | intros [r E]; discriminate].
    + rewrite andb_true_iff, N.eqb_eq, IH. split.
      * intros [-> [r ->]]. now exists r.
      * intros [r E]. inversion E; subst. split; [reflexivity | now exists r].
Qed.

Lemma startsWith_app p r : startsWith (p ++ r) p = true.
Proof. apply startsWith_iff. now exists r. Qed.

Lemma startsWith_app_l s p q :
  startsWith s (p ++ q) = true -> startsWith s p = true.
Proof.
  rewrite !startsWith_iff. intros [r ->]. exists (q ++ r).
  now rewrite app_assoc.
Qed.

Lemma startsWith_false_app_l s p q :
  startsWith s p = false -> startsWith s (p ++ q) = false.
Proof.
  intros H. destruct (startsWith s (p ++ q)) eqn:E; [|reflexivity].
  apply startsWith_app_l in E. congruence.
Qed.

Lemma skipn_length_app (p r : jsstring) : skipn (length p) (p ++ r) = r.
Proof. induction p; simpl; auto. Qed.

Lemma app_neq_self (a x : jsstring) : x <> [] -> a ++ x <> a.
Proof.
  intros Hx E. apply (f_equal (@length N)) in E.
  rewrite length_app in E. destruct x; [congruence | simpl in E; lia].
Qed.

Lemma startsWith_self_app_false (a x : jsstring) :
  x <> [] -> startsWith a (a ++ x) = false.
Proof.
  intros Hx. destruct (startsWith a (a ++ x)) eqn:E; [|reflexivity].
  apply startsWith_iff in E as [r E].
  apply (f_equal (@length N)) in E. rewrite !length_app in E.
  destruct x; [congruence | simpl in E; lia].
Qed.

Lemma js_inj (a b : string) : js a = js b -> a = b.
Proof.
  unfold js. intros H.
  rewrite <- (string_of_list_ascii_of_string a),
    <- (string_of_list_ascii_of_string b).
  f_equal.
  revert H. generalize (list_ascii_of_string a) (list_ascii_of_string b).
  induction l as [|x l IH]; intros [|y l']; simpl; try discriminate; auto.
  intros [= Hxy Hl]. f_equal; [|now apply IH].
  rewrite <- (ascii_N_embedding x), <- (ascii_N_embedding y). now f_equal.
Qed.

(** Two texts that agree up to a separator which their heads do not
    contain have the same head. *)
Lemma app_sep_inj (sep : N) (a b x y : jsstring) :
  ~ In sep a -> ~ In sep b ->
  a ++ sep :: x = b ++ sep :: y -> a = b.
Proof.
  revert b. induction a as [|c a IH]; intros [|d b] Ha Hb E; simpl in *.
  - reflexivity.
  - injection E as E1 E2. subst d. exfalso. apply Hb. now left.
  - injection E as E1 E2. subst c. exfalso. apply Ha. now left.
  - injection E as E1 E2. subst d. f_equal.
    apply IH; auto.
Qed.

End JSFacts.
Import JSFacts.

(* ================================================================== *)
(** ** Numbers in file names: printing is injective *)

Module JSNumberFacts.
Import JSNumber.

Lemma to_int_not_nil z : Z.to_int z <> Decimal.Pos Decimal.Nil
                         /\ Z.to_int z <> Decimal.Neg Decimal.Nil.
Proof.
  destruct z; simpl; split; try discriminate; intros [= H];
    now apply DecimalPos.Unsigned.to_uint_nonnil in H.
Qed.

Lemma toString_inj a b : toString a = toString b -> a = b.
Proof.
  unfold toString. intros H. apply js_inj in H.
  apply DecimalZ.to_int_inj.
  destruct (to_int_not_nil a) as [A1 A2], (to_int_not_nil b) as [B1 B2].
  pose proof (NilZero.isi (Z.to_int a) A1 A2) as Ia.
  pose proof (NilZero.isi (Z.to_int b) B1 B2) as Ib.
  rewrite H in Ia. congruence.
Qed.

Lemma uint_chars d c :
  In c (js (NilEmpty.string_of_uint d)) -> (48 <= c <= 57)%N.
Proof.
  induction d; simpl; try tauto;
    (intros [<- | H]; [cbv; split; discriminate | now apply IHd]).
Qed.

Lemma toString_chars z c :
  In c (toString z) -> (c = 45 \/ 48 <= c <= 57)%N.
Proof.
  unfold toString.
  assert (U : forall d, In c (js (NilZero.string_of_uint d)) ->
                        (48 <= c <= 57)%N).
  { intros d. destruct d; try apply (uint_chars _ c).
    simpl. intros [<- | []]. cbv; split; discriminate. }
  destruct (Z.to_int z) as [d|d]; simpl.
  - intros H. right. now apply (U d).
  - intros [<- | H]; [now left | right; now apply (U d)].
Qed.

Lemma toString_no_underscore z : ~ In 95%N (toString z).
Proof.
  intros H. apply toString_chars in H. lia.
Qed.

End JSNumberFacts.

(* ================================================================== *)
(** ** Properties of the diff service *)

Module VersionDiffFacts.
Import VersionDiff.

(** *** Segments against the texts of the diffs *)

Lemma newSide_text_diff_text2 (diffs : list Diff) :
  segmentsText isNewSide (map toSegment diffs) = diff_text2 diffs.
Proof.
  unfold segmentsText, diff_text2.
  induction diffs as [|[ty t] ds IH]; [reflexivity|].
  cbn [map filter fst snd toSegment].
  destruct (ty =? 1) eqn:E1.
  - apply Z.eqb_eq in E1; subst ty. cbn. now rewrite IH.
  - destruct (ty =? -1) eqn:E2; cbn; now rewrite IH.
Qed.

Lemma oldSide_text_diff_text1 (diffs : list Diff) :
  segmentsText isOldSide (map toSegment diffs) = diff_text1 diffs.
Proof.
  unfold segmentsText, diff_text1.
  induction diffs as [|[ty t] ds IH]; [reflexivity|].
  cbn [map filter fst snd toSegment].
  destruct (ty =? 1) eqn:E1; [cbn; exact IH|].
  destruct (ty =? -1) eqn:E2; cbn; now rewrite IH.
Qed.

(** *** White space *)

Lemma trimStart_nil_iff s : trimStart s = [] <-> forallb isWhite s = true.
Proof.
  induction s as [|c r IH]; simpl; [tauto|].
  destruct (isWhite c); simpl; [exact IH|].
  split; discriminate.
Qed.

Lemma trimStart_app_keep s c r :
  isWhite c = false -> trimStart (s ++ c :: r) <> [].
Proof.
  intros Hc. induction s as [|x s IH]; simpl.
  - rewrite Hc. discriminate.
  - destruct (isWhite x); [exact IH | discriminate].
Qed.

Lemma trimStart_cons_or s :
  trimStart s = [] \/ exists c r, trimStart s = c :: r /\ isWhite c = false.
Proof.
  induction s as [|x s IH]; simpl; [now left|].
  destruct (isWhite x) eqn:E; [exact IH|].
  right. now exists x, s.
Qed.

Lemma trim_nil_iff s : trim s = [] <-> forallb isWhite s = true.
Proof.
  unfold trim, trimEnd. rewrite <- trimStart_nil_iff.
  destruct (trimStart_cons_or s) as [E | (c & r & E & Hc)].
  - rewrite E. simpl. tauto.
  - rewrite E. split; [|discriminate].
    intros H. exfalso.
    apply (f_equal (@rev N)) in H. rewrite rev_involutive in H.
    simpl in H. now apply trimStart_app_keep in H.
Qed.

Lemma keepLine_iff l : keepLine l = true <-> trim l <> [].
Proof.
  unfold keepLine. destruct (trim l) as [|c r]; simpl; split;
    intros H; try discriminate; try reflexivity.
  now elim H.
Qed.

Lemma keepLine_nonwhite pre c post :
  isWhite c = false -> keepLine (pre ++ c :: post) = true.
Proof.
  intros Hc. apply keepLine_iff. rewrite trim_nil_iff.
  rewrite forallb_app. simpl. rewrite Hc.
  rewrite andb_false_r. discriminate.
Qed.

Lemma stripTags_white s :
  forallb isWhite s = true -> stripTags s = s.
Proof.
  unfold stripTags. induction s as [|c r IH]; [reflexivity|].
  simpl. intros H. apply andb_true_iff in H as [Hc Hr].
  destruct (N.eqb c 60) eqn:E.
  - apply N.eqb_eq in E. subst c. discriminate.
  - now rewrite IH.
Qed.

Lemma keepLine_delWrap s : keepLine (delWrap s) = true.
Proof. exact (keepLine_nonwhite [] 60%N _ eq_refl). Qed.

Lemma keepLine_insWrap s : keepLine (insWrap s) = true.
Proof. exact (keepLine_nonwhite [] 60%N _ eq_refl). Qed.

(** *** The frontmatter scan *)

Lemma markFrom_after (post : list jsstring) : markFrom false true post = post.
Proof.
  induction post as [|l post IH]; [reflexivity|].
  simpl. rewrite !andb_false_r. now rewrite IH.
Qed.

Lemma markFrom_inside (mid : list jsstring) d2 post :
  (forall l, In l mid -> isDelimiter l = false) ->
  isDelimiter d2 = true ->
  markFrom true true (mid ++ d2 :: post) = map fmWrap mid ++ fmWrap d2 :: post.
Proof.
  intros Hmid Hd2. induction mid as [|l mid IH]; simpl.
  - rewrite Hd2. simpl. now rewrite markFrom_after.
  - rewrite (Hmid l (or_introl eq_refl)). simpl.
    rewrite IH; [reflexivity|]. intros x Hx. apply Hmid. now right.
Qed.

Lemma markFrom_before (pre : list jsstring) rest :
  (forall l, In l pre -> isDelimiter l = false) ->
  markFrom false false (pre ++ rest) = pre ++ markFrom false false rest.
Proof.
  intros Hpre. induction pre as [|l pre IH]; [reflexivity|].
  simpl. rewrite (Hpre l (or_introl eq_refl)). simpl.
  rewrite IH; [reflexivity|]. intros x Hx. apply Hpre. now right.
Qed.

(** The first pair of delimiter lines and what lies between is wrapped;
    nothing before it and nothing after it is. *)
Lemma markFrontmatter_block pre d1 mid d2 post :
  (forall l, In l pre -> isDelimiter l = false) ->
  isDelimiter d1 = true ->
  (forall l, In l mid -> isDelimiter l = false) ->
  isDelimiter d2 = true ->
  markFrontmatter (pre ++ d1 :: mid ++ d2 :: post)
  = pre ++ map fmWrap (d1 :: mid ++ [d2]) ++ post.
Proof.
  intros Hpre Hd1 Hmid Hd2. unfold markFrontmatter.
  rewrite markFrom_before by assumption. f_equal.
  simpl. rewrite Hd1. simpl. f_equal.
  rewrite markFrom_inside by assumption.
  rewrite map_app. simpl. now rewrite <- app_assoc.
Qed.

Lemma pane_renderDiffs oldPane diffs :
  pane oldPane (renderDiffs diffs)
  = join [nl] (markFrontmatter (keptLines oldPane diffs)).
Proof.
  unfold renderDiffs, keptLines, pushedLines.
  destruct (collectLines diffs) as [l r]. now destruct oldPane.
Qed.

End VersionDiffFacts.

(* ================================================================== *)
(** ** The serialisation round trip *)

Module CodecFacts.
Import VersionStorage Codec.

Lemma getZ_putZ z rest : getZ (putZ z ++ rest) = Some (z, rest).
Proof.
  unfold getZ, putZ. simpl.
  destruct (z <? 0) eqn:E; simpl; f_equal; f_equal.
  - apply Z.ltb_lt in E. rewrite N2Z.inj_abs_N. lia.
  - apply Z.ltb_ge in E. rewrite N2Z.inj_abs_N. lia.
Qed.

Lemma getString_putString s rest :
  getString (putString s ++ rest) = Some (s, rest).
Proof.
  unfold getString, putString. simpl. rewrite Nat2N.id.
  rewrite length_app.
  replace (length s <=? length s + length rest)%nat with true
    by (symmetry; apply Nat.leb_le; lia).
  rewrite firstn_app, Nat.sub_diag, firstn_all. simpl. rewrite app_nil_r.
  rewrite skipn_app, Nat.sub_diag, skipn_all. reflexivity.
Qed.

Lemma getOption_putOption o rest :
  getOption (putOption o ++ rest) = Some (o, rest).
Proof.
  destruct o as [s|]; [|reflexivity].
  pose proof (getString_putString s rest) as H.
  unfold getOption, putOption.
  change ((1%N :: putString s) ++ rest) with (1%N :: (putString s ++ rest)).
  cbv iota beta. now rewrite H.
Qed.

Lemma getMeta_putMeta m rest : getMeta (putMeta m ++ rest) = Some (m, rest).
Proof.
  unfold getMeta, putMeta. rewrite <- !app_assoc.
  rewrite getString_putString, getZ_putZ, !getOption_putOption,
    getString_putString.
  now destruct m.
Qed.

Lemma getMetas_succ k s :
  getMetas (S k) s
  = match getMeta s with
    | Some (m, s1) =>
        match getMetas k s1 with
        | Some (ms, s2) => Some (m :: ms, s2)
        | None => None
        end
    | None => None
    end.
Proof. reflexivity. Qed.

Lemma getMetas_flat_map ms rest :
  getMetas (length ms) (flat_map putMeta ms ++ rest) = Some (ms, rest).
Proof.
  induction ms as [|m ms IH]; [reflexivity|].
  cbn [length flat_map].
  rewrite getMetas_succ, <- app_assoc, getMeta_putMeta, IH. reflexivity.
Qed.

Lemma parse_stringify i : parse (stringify i) = Some i.
Proof.
  unfold parse, stringify. rewrite getZ_putZ, Nat2N.id.
  rewrite <- (app_nil_r (flat_map putMeta (versions i))).
  rewrite getMetas_flat_map. now destruct i.
Qed.

End CodecFacts.

(* ================================================================== *)
(** ** The vault as a partial map *)

Module VaultFacts.
Import Async Vault.

Lemma lookup_addNode q p n v :
  lookup q (addNode p n v)
  = match lookup q v with
    | Some x => Some x
    | None => if eqb p q then Some n else None
    end.
Proof.
  unfold addNode. induction v as [|[r m] v IH]; simpl.
  - reflexivity.
  - destruct (eqb r q); [reflexivity | exact IH].
Qed.

Lemma lookup_setData q p d v :
  lookup q (setData p d v)
  = if eqb p q
    then match lookup q v with
         | Some _ => Some (FileNode d)
         | None => None
         end
    else lookup q v.
Proof.
  unfold setData. induction v as [|[r m] v IH]; simpl.
  - now destruct (eqb p q).
  - destruct (eqb r p) eqn:Erp; simpl.
    + apply eqb_eq in Erp. subst r. rewrite IH.
      destruct (eqb p q); reflexivity.
    + rewrite IH. destruct (eqb r q) eqn:Erq; [|reflexivity].
      apply eqb_eq in Erq. subst r. now rewrite eqb_sym, Erp.
Qed.

Lemma lookup_removePath q p v :
  lookup q (removePath p v) = if within p q then None else lookup q v.
Proof.
  unfold removePath. induction v as [|[r m] v IH]; simpl.
  - now destruct (within p q).
  - destruct (within p r) eqn:Er; simpl.
    + rewrite IH. destruct (eqb r q) eqn:Erq; [|reflexivity].
      apply eqb_eq in Erq. subst r. now rewrite Er.
    + rewrite IH. destruct (eqb r q) eqn:Erq; [|reflexivity].
      apply eqb_eq in Erq. subst r. now rewrite Er.
Qed.

Lemma within_below_false F p q :
  startsWith p (F ++ slash) = true ->
  startsWith q (F ++ slash) = false ->
  within p q = false.
Proof.
  intros Hp Hq. unfold within. apply orb_false_iff. split.
  - apply eqb_neq. intros ->. congruence.
  - destruct (startsWith q (p ++ slash)) eqn:E; [|reflexivity].
    apply startsWith_app_l in E.
    apply startsWith_iff in E as [r ->].
    apply startsWith_iff in Hp as [r' ->].
    rewrite <- app_assoc in Hq. now rewrite startsWith_app in Hq.
Qed.

(** *** Children of a folder *)

Lemma childOf_path F q n :
  childOf F q = Some n -> q = F ++ slash ++ n.
Proof.
  unfold childOf. destruct (startsWith q (F ++ slash)) eqn:E; [|discriminate].
  apply startsWith_iff in E as [r ->].
  rewrite skipn_length_app.
  destruct (truthy r && negb (existsb (N.eqb 47) r)); [|discriminate].
  intros [= <-]. now rewrite <- app_assoc.
Qed.

Lemma children_path F v c :
  In c (children F v) -> childPath c = F ++ slash ++ childName c.
Proof.
  induction v as [|[q m] v IH]; simpl; [tauto|].
  destruct (childOf F q) eqn:E; [|exact IH].
  intros [<- | H]; [|now apply IH].
  simpl. now apply childOf_path.
Qed.

Lemma children_present F v c :
  In c (children F v) -> lookup (childPath c) v <> None.
Proof.
  induction v as [|[q m] v IH]; simpl; [tauto|].
  destruct (childOf F q) eqn:E.
  - intros [<- | H]; simpl.
    + now rewrite eqb_refl.
    + destruct (eqb q (childPath c)); [discriminate | now apply IH].
  - intros H. destruct (eqb q (childPath c)); [discriminate | now apply IH].
Qed.

Lemma children_addNode F p n v :
  children F (addNode p n v)
  = children F v
      ++ match childOf F p with
         | Some nm => [{| childName := nm; childPath := p |}]
         | None => []
         end.
Proof.
  unfold addNode. induction v as [|[q m] v IH]; simpl.
  - now destruct (childOf F p).
  - rewrite IH. now destruct (childOf F q).
Qed.

Lemma children_setData F p d v : children F (setData p d v) = children F v.
Proof.
  unfold setData. induction v as [|[q m] v IH]; simpl; [reflexivity|].
  rewrite IH. destruct (eqb q p) eqn:E; simpl; [|reflexivity].
  apply eqb_eq in E. now subst q.
Qed.

Lemma children_removePath F p v :
  children F (removePath p v)
  = filter (fun c => negb (within p (childPath c))) (children F v).
Proof.
  unfold removePath. induction v as [|[q m] v IH]; simpl; [reflexivity|].
  destruct (within p q) eqn:Ew; simpl.
  - rewrite IH. destruct (childOf F q); simpl; [now rewrite Ew | reflexivity].
  - rewrite IH. destruct (childOf F q); simpl; [now rewrite Ew | reflexivity].
Qed.

Lemma childOf_self F : childOf F F = None.
Proof.
  unfold childOf. now rewrite startsWith_self_app_false.
Qed.

Lemma childOf_name_no_slash F q n :
  childOf F q = Some n -> existsb (N.eqb 47) n = false.
Proof.
  unfold childOf. destruct (startsWith q (F ++ slash)); [|discriminate].
  destruct (truthy _ && negb (existsb _ _)) eqn:E; [|discriminate].
  intros [= <-]. apply andb_true_iff in E as [_ E].
  now apply negb_true_iff in E.
Qed.

Lemma children_name_no_slash F v c :
  In c (children F v) -> existsb (N.eqb 47) (childName c) = false.
Proof.
  induction v as [|[q m] v IH]; simpl; [tauto|].
  destruct (childOf F q) eqn:E; [|exact IH].
  intros [<- | H]; [|now apply IH].
  simpl. now apply (childOf_name_no_slash F q).
Qed.

Lemma children_paths_incl F v c :
  In c (children F v) -> In (childPath c) (map fst v).
Proof.
  induction v as [|[q m] v IH]; simpl; [tauto|].
  destruct (childOf F q); [|intros H; right; now apply IH].
  intros [<- | H]; [now left | right; now apply IH].
Qed.

Lemma NoDup_children F v :
  NoDup (map fst v) -> NoDup (map childPath (children F v)).
Proof.
  induction v as [|[q m] v IH]; simpl; intros H; [constructor|].
  inversion H as [|? ? Hq Hv]; subst.
  destruct (childOf F q); [|now apply IH].
  simpl. constructor; [|now apply IH].
  intros Hin. apply in_map_iff in Hin as (c & Ec & Hc).
  apply Hq. rewrite <- Ec. now apply (children_paths_incl F).
Qed.

(** Among the children of one folder, only a child itself lies within
    the path of a child. *)
Lemma within_children F v c c' :
  In c (children F v) -> In c' (children F v) ->
  within (childPath c) (childPath c') = true <-> childPath c = childPath c'.
Proof.
  intros Hc Hc'. unfold within. split.
  - intros H. apply orb_true_iff in H as [H | H].
    + apply eqb_eq in H. now symmetry.
    + exfalso.
      pose proof (children_name_no_slash F v c' Hc') as Hn.
      rewrite (children_path F v c Hc), (children_path F v c' Hc') in H.
      apply startsWith_iff in H as [r E].
      rewrite <- !app_assoc in E.
      apply app_inv_head in E. apply app_inv_head in E.
      rewrite E in Hn. rewrite existsb_app in Hn.
      apply orb_false_iff in Hn as [_ Hn]. discriminate.
  - intros ->. now rewrite eqb_refl.
Qed.

Lemma lookup_none_notin p v : lookup p v = None -> ~ In p (map fst v).
Proof.
  induction v as [|[q m] v IH]; simpl; [tauto|].
  destruct (eqb q p) eqn:E; [discriminate|].
  intros H [Hq | Hin]; [|now apply IH].
  apply eqb_neq in E. contradiction.
Qed.

Lemma paths_setData p d v : map fst (setData p d v) = map fst v.
Proof.
  unfold setData. induction v as [|[q m] v IH]; simpl; [reflexivity|].
  rewrite IH. destruct (eqb q p) eqn:E; simpl; [|reflexivity].
  apply eqb_eq in E. now subst.
Qed.

Lemma NoDup_addNode p n v :
  lookup p v = None -> NoDup (map fst v) -> NoDup (map fst (addNode p n v)).
Proof.
  intros L H. unfold addNode. rewrite map_app. simpl.
  apply NoDup_app; [assumption | repeat constructor; simpl; tauto |].
  intros a Ha [E | []]. subst a. now apply (lookup_none_notin p v).
Qed.

End VaultFacts.

(* ================================================================== *)
(** ** Arrays *)

Module ArrayFacts.
Import VersionStorage StorageEffects.

Lemma findIndex_first {A} (p : A -> bool) before x after :
  (forall m, In m before -> p m = false) ->
  p x = true ->
  findIndex p (before ++ x :: after) = Some (length before).
Proof.
  intros Hb Hx. induction before as [|b before IH]; simpl.
  - now rewrite Hx.
  - rewrite (Hb b (or_introl eq_refl)).
    rewrite IH; [reflexivity|]. intros m Hm. apply Hb. now right.
Qed.

Lemma findIndex_none {A} (p : A -> bool) l :
  (forall m, In m l -> p m = false) -> findIndex p l = None.
Proof.
  intros H. induction l as [|b l IH]; simpl; [reflexivity|].
  rewrite (H b (or_introl eq_refl)).
  rewrite IH; [reflexivity|]. intros m Hm. apply H. now right.
Qed.

(** An array with an element that satisfies [p] splits at the first
    such element. *)
Lemma split_at_first {A} (p : A -> bool) l m :
  In m l -> p m = true ->
  exists before x after,
    l = before ++ x :: after
    /\ (forall y, In y before -> p y = false)
    /\ p x = true.
Proof.
  induction l as [|a l IH]; intros Hin Hp; [destruct Hin|].
  destruct (p a) eqn:Pa.
  - exists [], a, l. repeat split; [intros y []| exact Pa].
  - destruct Hin as [-> | Hin]; [congruence|].
    destruct (IH Hin Hp) as (before & x & after & -> & Hb & Hx).
    exists (a :: before), x, after. repeat split; [|exact Hx].
    intros y [<- | Hy]; [exact Pa | now apply Hb].
Qed.

Lemma nth_error_middle {A} (before : list A) x after :
  nth_error (before ++ x :: after) (length before) = Some x.
Proof. induction before; simpl; auto. Qed.

Lemma updateAt_middle {A} (f : A -> A) before x after :
  updateAt (length before) f (before ++ x :: after) = before ++ f x :: after.
Proof. induction before; simpl; [reflexivity | now f_equal]. Qed.

Lemma find_none_iff {A} (p : A -> bool) l :
  find p l = None <-> forall m, In m l -> p m = false.
Proof.
  split.
  - intros H m Hm. now apply (find_none p l H).
  - intros H. induction l as [|b l IH]; simpl; [reflexivity|].
    rewrite (H b (or_introl eq_refl)). apply IH.
    intros m Hm. apply H. now right.
Qed.

Lemma filter_all {A} (f : A -> bool) l :
  (forall y, In y l -> f y = true) -> filter f l = l.
Proof.
  intros H. induction l as [|y l IH]; [reflexivity|].
  simpl. rewrite (H y (or_introl eq_refl)). f_equal.
  apply IH. intros z Hz. apply H. now right.
Qed.

(** In an array without two elements of the same key, dropping what has
    the key of the first match is taking the first match out. *)
Lemma removeFirst_filter {A B} (key : A -> B) (p : A -> bool)
    (drop : A -> A -> bool) (l : list A) :
  NoDup (map key l) ->
  (forall x y, In x l -> In y l -> drop x y = true <-> key x = key y) ->
  match find p l with
  | Some c => filter (fun y => negb (drop c y)) l
  | None => l
  end = removeFirst p l.
Proof.
  induction l as [|x l IH]; intros Hnd Hdrop; [reflexivity|].
  simpl in Hnd. inversion Hnd as [|? ? Hx Hnd']; subst.
  assert (Hl : forall a b, In a l -> In b l ->
                           drop a b = true <-> key a = key b).
  { intros a b Ha Hb. apply Hdrop; now right. }
  specialize (IH Hnd' Hl).
  simpl. destruct (p x) eqn:Px.
  - simpl.
    replace (drop x x) with true
      by (symmetry; apply Hdrop; simpl; auto).
    simpl. apply filter_all. intros y Hy.
    destruct (drop x y) eqn:D; [|reflexivity].
    exfalso. apply Hx. apply Hdrop in D; simpl; auto.
    rewrite D. now apply in_map.
  - destruct (find p l) as [c|] eqn:Fc.
    + pose proof (find_some _ _ Fc) as [Hc _].
      simpl. destruct (drop c x) eqn:D.
      * exfalso. apply Hx. apply Hdrop in D; simpl; auto.
        rewrite <- D. now apply in_map.
      * simpl. now f_equal.
    + now f_equal.
Qed.

Lemma removeFirst_keeps_others {A} (p : A -> bool) l c :
  In c l -> In c (removeFirst p l) \/ find p l = Some c.
Proof.
  induction l as [|x l IH]; intros Hin; [destruct Hin|].
  simpl. destruct (p x) eqn:Px.
  - destruct Hin as [-> | Hin]; [now right | now left].
  - destruct Hin as [-> | Hin]; [left; now left|].
    destruct (IH Hin) as [H | H]; [left; now right | now right].
Qed.

Lemma removeFirst_app_keep {A} (p : A -> bool) l x :
  p x = false -> removeFirst p (l ++ [x]) = removeFirst p l ++ [x].
Proof.
  intros Hx. induction l as [|y l IH]; simpl.
  - now rewrite Hx.
  - destruct (p y); [reflexivity | now rewrite IH].
Qed.

Lemma find_app_keep {A} (p : A -> bool) l x :
  p x = false -> find p (l ++ [x]) = find p l.
Proof.
  intros Hx. induction l as [|y l IH]; simpl.
  - now rewrite Hx.
  - destruct (p y); [reflexivity | exact IH].
Qed.

(** *** Retention *)

Lemma NoDup_app_disjoint {A} (l1 l2 : list A) a :
  NoDup (l1 ++ l2) -> In a l1 -> In a l2 -> False.
Proof.
  induction l1 as [|x l1 IH]; simpl; [tauto|].
  intros H [-> | H1] H2; inversion H as [|? ? Hx Hr]; subst.
  - apply Hx. apply in_or_app. now right.
  - now apply IH.
Qed.

Lemma dropTimestamps_filter gone l :
  dropTimestamps gone l
  = filter (fun v =>
              negb (existsb (fun m => timestamp v =? timestamp m) gone)) l.
Proof.
  unfold dropTimestamps. revert l.
  induction gone as [|m gone IH]; intros l; simpl.
  - symmetry. now apply filter_all.
  - rewrite IH. clear IH. induction l as [|v l IHl]; [reflexivity|].
    simpl. destruct (timestamp v =? timestamp m); simpl.
    + exact IHl.
    + destruct (existsb _ gone); simpl; [exact IHl | now f_equal].
Qed.

Lemma dropTimestamps_tail keep gone :
  NoDup (map timestamp (keep ++ gone)) ->
  dropTimestamps gone (keep ++ gone) = keep.
Proof.
  intros Hnd. rewrite dropTimestamps_filter, filter_app.
  rewrite map_app in Hnd.
  replace (filter _ gone) with (@nil VersionMeta).
  - rewrite app_nil_r. apply filter_all. intros v Hv.
    apply negb_true_iff. destruct (existsb _ gone) eqn:E; [|reflexivity].
    apply existsb_exists in E as (m & Hm & Et). apply Z.eqb_eq in Et.
    exfalso. rewrite <- map_app in Hnd. rewrite map_app in Hnd.
    apply (NoDup_app_disjoint _ _ (timestamp v) Hnd).
    + now apply in_map.
    + rewrite Et. now apply in_map.
  - symmetry. clear Hnd.
    assert (H : forall l, incl l gone ->
      filter (fun v => negb (existsb (fun m => timestamp v =? timestamp m)
                               gone)) l = []).
    { induction l as [|v l IH]; intros Hi; [reflexivity|].
      simpl. replace (existsb _ gone) with true.
      - simpl. apply IH. intros z Hz. apply Hi. now right.
      - symmetry. apply existsb_exists. exists v. split.
        + apply Hi. now left.
        + apply Z.eqb_refl. }
    apply H, incl_refl.
Qed.

Lemma slice_skipn {A} (n : Z) (l : list A) :
  0 <= n -> slice n l = skipn (Z.to_nat n) l.
Proof.
  intros H. unfold slice.
  destruct (n <? 0) eqn:E; [apply Z.ltb_lt in E; lia | reflexivity].
Qed.

(** What the loop of [cleanupOldVersions] leaves of an index without
    repeated timestamps: its first [maxVersions] entries. *)
Lemma retention_firstn (maxVersions : Z) l :
  0 <= maxVersions ->
  NoDup (map timestamp l) ->
  dropTimestamps
    (if maxVersions <? Z.of_nat (length l) then slice maxVersions l else [])
    l
  = firstn (Z.to_nat maxVersions) l.
Proof.
  intros HM Hnd. destruct (maxVersions <? Z.of_nat (length l)) eqn:E.
  - rewrite slice_skipn by assumption.
    rewrite <- (firstn_skipn (Z.to_nat maxVersions) l) at 2.
    apply dropTimestamps_tail. now rewrite firstn_skipn.
  - apply Z.ltb_ge in E. simpl. symmetry. apply firstn_all2. lia.
Qed.

End ArrayFacts.

(* ================================================================== *)
(** ** Running the service *)

Module StorageFacts.
Import Async Vault VersionStorage StorageEffects VaultFacts ArrayFacts.

Lemma bind_unfold {W A B} (c : M W A) (k : A -> M W B) w :
  bind c k w
  = match c w with
    | (Return a, w') => k a w'
    | (Throw e, w') => (Throw e, w')
    end.
Proof. reflexivity. Qed.

Lemma tryCatch_unfold {W A} (c : M W A) (h : Error -> M W A) w :
  tryCatch c h w
  = match c w with
    | (Return a, w') => (Return a, w')
    | (Throw e, w') => h e w'
    end.
Proof. reflexivity. Qed.

Ltac run_with L :=
  first [rewrite bind_unfold | rewrite tryCatch_unfold];
  rewrite L; cbv iota beta.

Section Runs.
Variable JSON_stringify : VersionIndex -> jsstring.
Variable JSON_parse : jsstring -> option VersionIndex.
Variable settings : VersionViewSettings.

Local Abbreviation folderOf := (getVersionFolder settings).
Local Abbreviation indexPathOf := (getIndexFilePath settings).
Local Abbreviation readIndex := (readVersionIndex JSON_parse settings).
Local Abbreviation writeIndex := (writeVersionIndex JSON_stringify settings).
Local Abbreviation index_of := (indexOf JSON_parse settings).
Local Abbreviation mk v ns := {| files := v; notices := ns |}.

Lemma indexPath_not_folderPath f : eqb (folderOf f) (indexPathOf f) = false.
Proof.
  apply eqb_neq. unfold getIndexFilePath. intros E. symmetry in E.
  revert E. now apply app_neq_self.
Qed.

Lemma indexPath_below f :
  startsWith (indexPathOf f) (folderOf f ++ slash) = true.
Proof.
  unfold getIndexFilePath.
  change (js "/versions.json") with (slash ++ js "versions.json").
  rewrite app_assoc. apply startsWith_app.
Qed.

Lemma readVersionIndex_run f v ns :
  readIndex f (mk v ns) = (Return (index_of v f), mk v ns).
Proof.
  unfold readVersionIndex, indexOf, bind, tryCatch, getAbstractFileByPath,
    gets, read, ret, throw. cbn [files].
  destruct (lookup (indexPathOf f) v) as [[d|]|] eqn:E;
    cbn [files]; rewrite ?E; try reflexivity.
  now destruct (JSON_parse d).
Qed.

Lemma ensureFolderExists_run F v ns :
  ensureFolderExists F (mk v ns) = (Return tt, mk (ensured F v) ns).
Proof.
  unfold ensureFolderExists, ensured, bind, tryCatch, getAbstractFileByPath,
    gets, createFolder, ret, setFiles. cbn [files].
  destruct (lookup F v) as [[d|]|] eqn:E;
    cbn [files]; rewrite ?E; reflexivity.
Qed.

Lemma lookup_ensured_other F q v :
  eqb F q = false -> lookup q (ensured F v) = lookup q v.
Proof.
  intros H. unfold ensured. destruct (lookup F v); [reflexivity|].
  rewrite lookup_addNode, H. now destruct (lookup q v).
Qed.

Lemma lookup_ensured_self F v :
  lookup F (ensured F v)
  = match lookup F v with Some n => Some n | None => Some FolderNode end.
Proof.
  unfold ensured. destruct (lookup F v) eqn:E; [exact E|].
  now rewrite lookup_addNode, E, eqb_refl.
Qed.

Lemma lookup_written_self p d v :
  lookup p v <> Some FolderNode ->
  lookup p (written p d v) = Some (FileNode d).
Proof.
  intros H. unfold written. destruct (lookup p v) as [[x|]|] eqn:E.
  - now rewrite lookup_setData, eqb_refl, E.
  - congruence.
  - now rewrite lookup_addNode, E, eqb_refl.
Qed.

Lemma lookup_written_other p q d v :
  eqb p q = false -> lookup q (written p d v) = lookup q v.
Proof.
  intros H. unfold written. destruct (lookup p v) as [[x|]|].
  - now rewrite lookup_setData, H.
  - rewrite lookup_addNode, H. now destruct (lookup q v).
  - rewrite lookup_addNode, H. now destruct (lookup q v).
Qed.

Lemma writeVersionIndex_run f index v ns :
  lookup (indexPathOf f) v <> Some FolderNode ->
  writeIndex f index (mk v ns)
  = (Return tt,
     mk (written (indexPathOf f) (JSON_stringify index)
           (ensured (folderOf f) v)) ns).
Proof.
  intros H. unfold writeVersionIndex.
  run_with ensureFolderExists_run.
  unfold written, bind, tryCatch, getAbstractFileByPath, gets, modify,
    create, setFiles. cbn [files notices].
  pose proof (lookup_ensured_other _ _ v (indexPath_not_folderPath f)) as L.
  rewrite L.
  destruct (lookup (indexPathOf f) v) as [[x|]|] eqn:E;
    cbn [files notices]; rewrite ?L, ?E; congruence.
Qed.

Lemma writeVersionIndex_blocked f index v ns :
  lookup (indexPathOf f) v = Some FolderNode ->
  writeIndex f index (mk v ns)
  = (Throw fileExists, mk (ensured (folderOf f) v) ns).
Proof.
  intros H. unfold writeVersionIndex.
  run_with ensureFolderExists_run.
  unfold bind, tryCatch, getAbstractFileByPath, gets, modify,
    create, setFiles, throw. cbn [files notices].
  pose proof (lookup_ensured_other _ _ v (indexPath_not_folderPath f)) as L.
  repeat (progress (rewrite ?L, ?H; cbn [files notices])).
  replace (includes (message fileExists) (js "already exists")) with true
    by (vm_compute; reflexivity).
  repeat (progress (rewrite ?L, ?H; cbn [files notices])).
  reflexivity.
Qed.

Lemma deleteFirstMatch_run ts cs v ns :
  deleteFirstMatch ts cs (mk v ns)
  = (Return tt,
     mk (match firstMatch ts cs with
         | Some c => removePath (childPath c) v
         | None => v
         end) ns).
Proof.
  unfold firstMatch. induction cs as [|c cs IH]; simpl; [reflexivity|].
  destruct (encodesTimestamp (childName c) ts); [reflexivity | exact IH].
Qed.

Lemma deleteVersion_run file ts v ns :
  lookup (indexPathOf (TFile.name file)) v <> Some FolderNode ->
  deleteVersion JSON_stringify JSON_parse settings file ts (mk v ns)
  = (Return tt,
     mk (afterDelete JSON_stringify JSON_parse settings
           (TFile.name file) ts v) ns).
Proof.
  intros H. unfold deleteVersion, afterDelete.
  rewrite tryCatch_unfold.
  run_with readVersionIndex_run.
  pose proof (writeVersionIndex_run (TFile.name file)
                (withoutTimestamp ts (index_of v (TFile.name file)))
                v ns H) as W.
  unfold withoutTimestamp in W. run_with W. clear W.
  set (v1 := written _ _ _).
  rewrite bind_unfold. unfold getAbstractFileByPath, gets. cbn [files].
  destruct (lookup (folderOf (TFile.name file)) v1) as [[x|]|];
    try reflexivity.
  rewrite bind_unfold. cbn [files].
  now rewrite deleteFirstMatch_run.
Qed.

Lemma deleteVersion_blocked file ts v ns :
  lookup (indexPathOf (TFile.name file)) v = Some FolderNode ->
  deleteVersion JSON_stringify JSON_parse settings file ts (mk v ns)
  = (Return tt,
     mk (ensured (folderOf (TFile.name file)) v) (ns ++ [DeleteFailed])).
Proof.
  intros H. unfold deleteVersion.
  rewrite tryCatch_unfold.
  run_with readVersionIndex_run.
  pose proof (writeVersionIndex_blocked (TFile.name file)
                (withoutTimestamp ts (index_of v (TFile.name file)))
                v ns H) as W.
  unfold withoutTimestamp in W. now run_with W.
Qed.

(** *** Deleting a version *)

Lemma encodes_startsWith n ts :
  encodesTimestamp n ts = true -> startsWith n (js "version_") = true.
Proof.
  unfold encodesTimestamp.
  destruct (startsWith n (js "version_")); [reflexivity | discriminate].
Qed.

Lemma version_name_not_index n r :
  startsWith n (js "version_") = true -> n ++ r <> js "versions.json".
Proof.
  intros H. apply startsWith_iff in H as [x ->]. discriminate.
Qed.

Lemma content_child_not_index f v c ts :
  In c (children (folderOf f) v) ->
  encodesTimestamp (childName c) ts = true ->
  within (childPath c) (indexPathOf f) = false.
Proof.
  intros Hc He. apply encodes_startsWith in He.
  rewrite (children_path _ _ _ Hc).
  unfold within, getIndexFilePath.
  change (js "/versions.json") with (slash ++ js "versions.json").
  apply orb_false_iff. split.
  - apply eqb_neq. intros E. apply app_inv_head in E.
    apply app_inv_head in E.
    apply (version_name_not_index _ [] He). now rewrite app_nil_r.
  - match goal with |- ?x = false => destruct x eqn:E end; [|reflexivity].
    apply startsWith_iff in E as [r E].
    rewrite <- !app_assoc in E.
    apply app_inv_head in E. apply app_inv_head in E.
    exfalso. now apply (version_name_not_index _ (slash ++ r) He).
Qed.

Local Abbreviation after_delete :=
  (afterDelete JSON_stringify JSON_parse settings).

Lemma afterDelete_lookup_index f ts v :
  lookup (indexPathOf f) v <> Some FolderNode ->
  lookup (indexPathOf f) (after_delete f ts v)
  = Some (FileNode (JSON_stringify (withoutTimestamp ts (index_of v f)))).
Proof.
  intros H. unfold afterDelete.
  set (v1 := written _ _ _).
  assert (L : lookup (indexPathOf f) v1
              = Some (FileNode (JSON_stringify
                                  (withoutTimestamp ts (index_of v f))))).
  { apply lookup_written_self.
    now rewrite (lookup_ensured_other _ _ v (indexPath_not_folderPath f)). }
  destruct (lookup (folderOf f) v1) as [[x|]|]; try exact L.
  destruct (firstMatch ts (children (folderOf f) v1)) as [c|] eqn:E;
    [|exact L].
  apply find_some in E as [Hc He].
  rewrite lookup_removePath.
  now rewrite (content_child_not_index f v1 c ts Hc He).
Qed.

Lemma below_not_folder F q :
  startsWith q (F ++ slash) = true -> eqb F q = false.
Proof.
  intros H. apply eqb_neq. intros ->.
  rewrite startsWith_self_app_false in H; discriminate.
Qed.

Lemma afterDelete_lookup_outside f ts v q :
  startsWith q (folderOf f ++ slash) = false ->
  eqb (folderOf f) q = false ->
  lookup q (after_delete f ts v) = lookup q v.
Proof.
  intros Hq HF. unfold afterDelete.
  set (v1 := written _ _ _).
  assert (L : lookup q v1 = lookup q v).
  { unfold v1. rewrite lookup_written_other.
    - now apply lookup_ensured_other.
    - apply eqb_neq. intros <-. now rewrite indexPath_below in Hq. }
  destruct (lookup (folderOf f) v1) as [[x|]|]; try exact L.
  destruct (firstMatch ts (children (folderOf f) v1)) as [c|] eqn:E;
    [|exact L].
  apply find_some in E as [Hc He].
  rewrite lookup_removePath.
  rewrite (within_below_false (folderOf f)); [exact L | | exact Hq].
  rewrite (children_path _ _ _ Hc). rewrite app_assoc.
  apply startsWith_app.
Qed.

Lemma afterDelete_present_below f ts v q :
  startsWith q (folderOf f ++ slash) = true ->
  lookup q (after_delete f ts v) <> None ->
  q = indexPathOf f \/ lookup q v <> None.
Proof.
  intros Hq. unfold afterDelete.
  set (v1 := written _ _ _).
  assert (L : lookup q v1 <> None ->
              q = indexPathOf f \/ lookup q v <> None).
  { unfold v1. destruct (eqb (indexPathOf f) q) eqn:E.
    - apply eqb_eq in E. now left.
    - rewrite (lookup_written_other _ _ _ _ E).
      rewrite (lookup_ensured_other _ _ _ (below_not_folder _ _ Hq)).
      now right. }
  assert (R : forall p, lookup q (removePath p v1) <> None ->
                        lookup q v1 <> None).
  { intros p. rewrite lookup_removePath.
    now destruct (within p q). }
  destruct (lookup (folderOf f) v1) as [[x|]|]; try exact L.
  destruct (firstMatch ts (children (folderOf f) v1)) as [c|];
    [|exact L].
  intros H. apply L. now apply (R (childPath c)).
Qed.

Lemma childOf_index f :
  childOf (folderOf f) (indexPathOf f) = Some (js "versions.json").
Proof.
  unfold childOf. rewrite indexPath_below.
  unfold getIndexFilePath.
  change (js "/versions.json") with (slash ++ js "versions.json").
  rewrite app_assoc, skipn_length_app. reflexivity.
Qed.

Lemma index_name_encodes_nothing ts :
  encodesTimestamp (js "versions.json") ts = false.
Proof. reflexivity. Qed.

Lemma NoDup_ensured F v :
  NoDup (map fst v) -> NoDup (map fst (ensured F v)).
Proof.
  unfold ensured. destruct (lookup F v) eqn:E; [auto|].
  now apply NoDup_addNode.
Qed.

Lemma NoDup_written p d v :
  lookup p v <> Some FolderNode ->
  NoDup (map fst v) -> NoDup (map fst (written p d v)).
Proof.
  intros Hp. unfold written. destruct (lookup p v) as [[x|]|] eqn:E.
  - now rewrite paths_setData.
  - congruence.
  - now apply NoDup_addNode.
Qed.

(** *** Reading the versions and their content *)

Lemma getVersions_run file v ns :
  getVersions JSON_parse settings file (mk v ns)
  = (Return (versions (index_of v (TFile.name file))), mk v ns).
Proof.
  unfold getVersions. now run_with readVersionIndex_run.
Qed.

Lemma readFirstMatch_world ts cs w :
  snd (readFirstMatch ts cs w) = w.
Proof.
  induction cs as [|c cs IH]; simpl; [reflexivity|].
  destruct (encodesTimestamp (childName c) ts); [|exact IH].
  unfold bind, read. now destruct (lookup (childPath c) (files w)) as [[d|]|].
Qed.

(** [getVersionContent] returns, and leaves the world as it is. *)
Lemma getVersionContent_run file ts v ns :
  exists r,
    getVersionContent JSON_parse settings file ts (mk v ns)
    = (Return r, mk v ns).
Proof.
  unfold getVersionContent. run_with readVersionIndex_run.
  destruct (find _ _); [|now exists None].
  rewrite tryCatch_unfold, bind_unfold.
  unfold getAbstractFileByPath, gets. cbn [files].
  destruct (lookup _ v) as [[d|]|]; try (now exists None).
  rewrite bind_unfold. cbn [files].
  pose proof (readFirstMatch_world ts
                (children (folderOf (TFile.name file)) v) (mk v ns)) as W.
  destruct (readFirstMatch _ _ _) as [[r|e] w']; simpl in W; subst w'.
  - now exists r.
  - now exists None.
Qed.

Lemma restoreVersion_found file ts v ns content old :
  getVersionContent JSON_parse settings file ts (mk v ns)
  = (Return (Some content), mk v ns) ->
  lookup (TFile.path file) v = Some (FileNode old) ->
  restoreVersion JSON_parse settings file ts (mk v ns)
  = (Return true,
     mk (setData (TFile.path file) content v) (ns ++ [Restored])).
Proof.
  intros G L. unfold restoreVersion. run_with G.
  unfold tryCatch, bind, modify, notice, Async.modify, setFiles, ret.
  cbn [files notices]. now rewrite L.
Qed.

Lemma restoreVersion_missing file ts v ns :
  getVersionContent JSON_parse settings file ts (mk v ns)
  = (Return None, mk v ns) ->
  restoreVersion JSON_parse settings file ts (mk v ns)
  = (Return false, mk v (ns ++ [RestoreUnreadable])).
Proof.
  intros G. unfold restoreVersion. now run_with G.
Qed.

(** *** Updating a version *)

Lemma updateVersion_found file ts updates v ns before version after :
  versions (index_of v (TFile.name file)) = before ++ version :: after ->
  (forall m, In m before -> timestamp m <> ts) ->
  timestamp version = ts ->
  updateVersion JSON_stringify JSON_parse settings file ts updates (mk v ns)
  = (Return true,
     mk (written (indexPathOf (TFile.name file))
           (JSON_stringify
              {| versions := before ++ applyUpdates updates version :: after;
                 lastUpdated :=
                   lastUpdated (index_of v (TFile.name file)) |})
           (ensured (folderOf (TFile.name file)) v))
       (ns ++ [Updated])).
Proof.
  intros Hv Hb Ht. unfold updateVersion.
  rewrite tryCatch_unfold. run_with readVersionIndex_run.
  rewrite Hv.
  rewrite findIndex_first.
  2:{ intros m Hm. apply Z.eqb_neq. now apply Hb. }
  2:{ now apply Z.eqb_eq. }
  rewrite nth_error_middle, updateAt_middle.
  assert (HI : lookup (indexPathOf (TFile.name file)) v <> Some FolderNode).
  { intros E. unfold indexOf in Hv. rewrite E in Hv.
    simpl in Hv. now destruct before. }
  now run_with (writeVersionIndex_run (TFile.name file)
                  {| versions := before ++ applyUpdates updates version
                                   :: after;
                     lastUpdated :=
                       lastUpdated (index_of v (TFile.name file)) |}
                  v ns HI).
Qed.

Lemma updateVersion_absent file ts updates v ns :
  (forall m, In m (versions (index_of v (TFile.name file))) ->
             timestamp m <> ts) ->
  updateVersion JSON_stringify JSON_parse settings file ts updates (mk v ns)
  = (Return false, mk v (ns ++ [VersionMissing])).
Proof.
  intros H. unfold updateVersion.
  rewrite tryCatch_unfold. run_with readVersionIndex_run.
  rewrite findIndex_none; [reflexivity|].
  intros m Hm. apply Z.eqb_neq. now apply H.
Qed.

(** *** The folder after a deletion *)

Lemma children_ensured F v : children F (ensured F v) = children F v.
Proof.
  unfold ensured. destruct (lookup F v); [reflexivity|].
  now rewrite children_addNode, childOf_self, app_nil_r.
Qed.

Lemma children_afterDelete f ts v :
  NoDup (map fst v) ->
  lookup (indexPathOf f) v <> Some FolderNode ->
  children (folderOf f) (after_delete f ts v)
  = match lookup (folderOf f) v with
    | Some (FileNode _) => children (folderOf f) v
    | _ => removeFirst (fun c => encodesTimestamp (childName c) ts)
             (children (folderOf f) v)
    end
    ++ match lookup (indexPathOf f) v with
       | None => [{| childName := js "versions.json";
                     childPath := indexPathOf f |}]
       | Some _ => []
       end.
Proof.
  intros Hnd HI. unfold afterDelete.
  set (data := JSON_stringify _).
  set (v0 := ensured (folderOf f) v).
  assert (A2 : lookup (indexPathOf f) v0 = lookup (indexPathOf f) v)
    by apply (lookup_ensured_other _ _ v (indexPath_not_folderPath f)).
  assert (A3 : children (folderOf f) (written (indexPathOf f) data v0)
               = children (folderOf f) v
                 ++ match lookup (indexPathOf f) v with
                    | None => [{| childName := js "versions.json";
                                  childPath := indexPathOf f |}]
                    | Some _ => []
                    end).
  { unfold written. rewrite A2.
    destruct (lookup (indexPathOf f) v) as [[x|]|].
    - rewrite children_setData, app_nil_r. apply children_ensured.
    - congruence.
    - rewrite children_addNode, childOf_index. f_equal.
      apply children_ensured. }
  assert (A4 : lookup (folderOf f) (written (indexPathOf f) data v0)
               = match lookup (folderOf f) v with
                 | Some n => Some n
                 | None => Some FolderNode
                 end).
  { rewrite lookup_written_other.
    - unfold v0. apply lookup_ensured_self.
    - rewrite eqb_sym. apply indexPath_not_folderPath. }
  assert (A5 : NoDup (map fst (written (indexPathOf f) data v0))).
  { apply NoDup_written; [now rewrite A2 | now apply NoDup_ensured]. }
  rewrite A4.
  set (v1 := written (indexPathOf f) data v0) in *.
  set (p := fun c => encodesTimestamp (childName c) ts).
  assert (R : children (folderOf f)
                (match firstMatch ts (children (folderOf f) v1) with
                 | Some c => removePath (childPath c) v1
                 | None => v1
                 end)
              = removeFirst p (children (folderOf f) v)
                ++ match lookup (indexPathOf f) v with
                   | None => [{| childName := js "versions.json";
                                 childPath := indexPathOf f |}]
                   | Some _ => []
                   end).
  { transitivity (removeFirst p (children (folderOf f) v1)).
    - rewrite <- (removeFirst_filter childPath p
                    (fun c y => within (childPath c) (childPath y))).
      + unfold firstMatch. fold p.
        destruct (find p (children (folderOf f) v1));
          [apply children_removePath | reflexivity].
      + now apply NoDup_children.
      + intros x y Hx Hy. now apply (within_children (folderOf f) v1).
    - rewrite A3. destruct (lookup (indexPathOf f) v).
      + now rewrite !app_nil_r.
      + apply removeFirst_app_keep. apply index_name_encodes_nothing. }
  destruct (lookup (folderOf f) v) as [[d|]|]; [exact A3 | exact R | exact R].
Qed.

Lemma afterDelete_lookup_kept f ts v q :
  startsWith q (folderOf f ++ slash) = false ->
  lookup q v <> None ->
  lookup q (after_delete f ts v) = lookup q v.
Proof.
  intros Hq Hp. destruct (eqb (folderOf f) q) eqn:E.
  2:{ now apply afterDelete_lookup_outside. }
  apply eqb_eq in E. subst q. unfold afterDelete.
  set (v1 := written _ _ _).
  assert (L : lookup (folderOf f) v1 = lookup (folderOf f) v).
  { unfold v1. rewrite lookup_written_other.
    - rewrite lookup_ensured_self. now destruct (lookup (folderOf f) v).
    - rewrite eqb_sym. apply indexPath_not_folderPath. }
  destruct (lookup (folderOf f) v1) as [[x|]|] eqn:E1;
    try (rewrite <- L; now symmetry).
  destruct (firstMatch ts (children (folderOf f) v1)) as [c|] eqn:E;
    [|now rewrite <- L].
  apply find_some in E as [Hc He].
  rewrite lookup_removePath.
  rewrite (within_below_false (folderOf f)); [now rewrite <- L | | exact Hq].
  rewrite (children_path _ _ _ Hc). rewrite app_assoc.
  apply startsWith_app.
Qed.

Section RoundTrip.
Hypothesis parse_stringify :
  forall index, JSON_parse (JSON_stringify index) = Some index.

Lemma indexOf_written f index v :
  lookup (indexPathOf f) v = Some (FileNode (JSON_stringify index)) ->
  index_of v f = index.
Proof.
  intros H. unfold indexOf. now rewrite H, parse_stringify.
Qed.

Lemma indexOf_afterDelete f ts v :
  lookup (indexPathOf f) v <> Some FolderNode ->
  index_of (after_delete f ts v) f = withoutTimestamp ts (index_of v f).
Proof.
  intros H. apply indexOf_written. now apply afterDelete_lookup_index.
Qed.
(** *** The loop of [cleanupOldVersions] *)

Local Abbreviation delete_all f gone v :=
  (fold_left (fun acc m => after_delete f (timestamp m) acc) gone v).

Lemma forEach_delete_run file gone v ns :
  lookup (indexPathOf (TFile.name file)) v <> Some FolderNode ->
  forEach gone
    (fun version =>
       deleteVersion JSON_stringify JSON_parse settings file
         (timestamp version)) (mk v ns)
  = (Return tt, mk (delete_all (TFile.name file) gone v) ns).
Proof.
  revert v. induction gone as [|m gone IH]; intros v H; [reflexivity|].
  cbn [forEach fold_left].
  run_with (deleteVersion_run file (timestamp m) v ns H).
  apply IH. now rewrite afterDelete_lookup_index.
Qed.

Lemma delete_all_index_file f gone v :
  lookup (indexPathOf f) v <> Some FolderNode ->
  lookup (indexPathOf f) (delete_all f gone v) <> Some FolderNode.
Proof.
  revert v. induction gone as [|m gone IH]; intros v H; [exact H|].
  cbn [fold_left]. apply IH. now rewrite afterDelete_lookup_index.
Qed.

Lemma indexOf_delete_all f gone v :
  lookup (indexPathOf f) v <> Some FolderNode ->
  versions (index_of (delete_all f gone v) f)
  = dropTimestamps gone (versions (index_of v f))
  /\ lastUpdated (index_of (delete_all f gone v) f)
     = lastUpdated (index_of v f).
Proof.
  unfold dropTimestamps.
  revert v. induction gone as [|m gone IH]; intros v H; [now split|].
  cbn [fold_left].
  destruct (IH (after_delete f (timestamp m) v)) as [IH1 IH2].
  { now rewrite afterDelete_lookup_index. }
  rewrite IH1, IH2, (indexOf_afterDelete f (timestamp m) v H).
  now split.
Qed.

Lemma delete_all_lookup_kept f gone v q :
  startsWith q (folderOf f ++ slash) = false ->
  lookup q v <> None ->
  lookup q (delete_all f gone v) = lookup q v.
Proof.
  intros Hq. revert v.
  induction gone as [|m gone IH]; intros v H; [reflexivity|].
  cbn [fold_left]. rewrite IH.
  - now apply afterDelete_lookup_kept.
  - now rewrite afterDelete_lookup_kept.
Qed.

Lemma delete_all_present_below f gone v q :
  startsWith q (folderOf f ++ slash) = true ->
  lookup q (delete_all f gone v) <> None ->
  q = indexPathOf f \/ lookup q v <> None.
Proof.
  intros Hq. revert v.
  induction gone as [|m gone IH]; intros v H; [now right|].
  cbn [fold_left] in H. apply IH in H as [H | H]; [now left|].
  now apply (afterDelete_present_below f (timestamp m) v q).
Qed.

Lemma cleanupOldVersions_run file v ns :
  lookup (indexPathOf (TFile.name file)) v <> Some FolderNode ->
  cleanupOldVersions JSON_stringify JSON_parse settings file (mk v ns)
  = (Return tt,
     mk (delete_all (TFile.name file)
           (if maxVersions settings
               <? Z.of_nat
                    (length (versions (index_of v (TFile.name file))))
            then slice (maxVersions settings)
                   (versions (index_of v (TFile.name file)))
            else [])
           v) ns).
Proof.
  intros H. unfold cleanupOldVersions.
  run_with readVersionIndex_run.
  destruct (maxVersions settings <? _); [|reflexivity].
  now apply forEach_delete_run.
Qed.

(** *** Saving a version *)

Lemma read_run p v ns content :
  lookup p v = Some (FileNode content) ->
  read p (mk v ns) = (Return content, mk v ns).
Proof. intros H. unfold read. cbn [files]. now rewrite H. Qed.

Lemma create_run p data v ns :
  lookup p v = None ->
  create p data (mk v ns)
  = (Return tt, mk (addNode p (FileNode data) v) ns).
Proof. intros H. unfold create. cbn [files]. now rewrite H. Qed.

Local Abbreviation content_path := (contentPath settings).

Lemma contentPath_below f now vid :
  startsWith (content_path f now vid) (folderOf f ++ slash) = true.
Proof. unfold contentPath. rewrite app_assoc. apply startsWith_app. Qed.

Lemma contentPath_not_index f now vid :
  content_path f now vid <> indexPathOf f.
Proof.
  unfold contentPath, getIndexFilePath.
  change (js "/versions.json") with (slash ++ js "versions.json").
  intros E. apply app_inv_head in E. apply app_inv_head in E.
  discriminate.
Qed.

Lemma contentPath_inj f now vid now' vid' :
  content_path f now vid = content_path f now' vid' -> now = now'.
Proof.
  unfold contentPath. intros E.
  apply app_inv_head in E. apply app_inv_head in E.
  apply app_inv_head in E.
  apply JSNumberFacts.toString_inj.
  change (js "_") with [95%N] in E.
  apply (app_sep_inj 95%N _ _ _ _
           (JSNumberFacts.toString_no_underscore now)
           (JSNumberFacts.toString_no_underscore now') E).
Qed.

Lemma NoDup_firstn {A} n (l : list A) : NoDup l -> NoDup (firstn n l).
Proof.
  intros H. rewrite <- (firstn_skipn n l) in H.
  now apply NoDup_app_remove_r in H.
Qed.

Lemma firstn_In {A} n (l : list A) x : In x (firstn n l) -> In x l.
Proof.
  intros H. rewrite <- (firstn_skipn n l). apply in_or_app. now left.
Qed.

Lemma firstn_cons_firstn {A} n (x : A) l :
  firstn n (x :: firstn n l) = firstn n (x :: l).
Proof.
  destruct n as [|n]; [reflexivity|]. rewrite !firstn_cons. f_equal.
  rewrite firstn_firstn. f_equal. lia.
Qed.

Variable file : TFile.t.

Local Abbreviation well_stored :=
  (wellStored JSON_parse settings file).

Local Abbreviation fname := (TFile.name file).
Local Abbreviation fdir := (getVersionFolder settings (TFile.name file)).

Lemma timestamps_of_saved saved :
  map timestamp (rev (map (metaOf file) saved))
  = rev (map (@savedAt) saved).
Proof. now rewrite <- map_rev, map_map, map_rev. Qed.

Lemma NoDup_newest n saved r :
  NoDup (map (@savedAt) (saved ++ [r])) ->
  NoDup (map timestamp
           (metaOf file r :: firstn n (rev (map (metaOf file) saved)))).
Proof.
  intros Hnd. rewrite map_app in Hnd. simpl. constructor.
  - intros Hin. rewrite <- firstn_map in Hin. apply firstn_In in Hin.
    rewrite timestamps_of_saved in Hin. apply in_rev in Hin.
    apply (NoDup_app_disjoint _ _ (savedAt r) Hnd Hin). now left.
  - rewrite <- firstn_map. apply NoDup_firstn.
    rewrite timestamps_of_saved. apply NoDup_rev.
    now apply NoDup_app_remove_r in Hnd.
Qed.

Lemma saveVersion_step saved r v ns :
  0 <= maxVersions settings ->
  well_stored saved v ->
  NoDup (map (@savedAt) (saved ++ [r])) ->
  exists v',
    saveVersion JSON_stringify JSON_parse settings
      (savedAt r) (randomId r) file (givenName r) (givenDescription r)
      (mk v ns)
    = (Return (metaOf file r), mk v' ns)
    /\ well_stored (saved ++ [r]) v'.
Proof.
  intros HM (Hidx & HI & (content & Hdoc) & Hout & Hbelow) Hnd.
  set (cp := content_path fname (savedAt r) (randomId r)).
  assert (Hfresh : ~ In (savedAt r) (map (@savedAt) saved)).
  { rewrite map_app in Hnd. intros Hin.
    apply (NoDup_app_disjoint _ _ (savedAt r) Hnd Hin). now left. }
  assert (Hcp : lookup cp (ensured fdir v) = None).
  { rewrite (lookup_ensured_other fdir cp v)
      by apply below_not_folder, contentPath_below.
    destruct (lookup cp v) eqn:E; [|reflexivity]. exfalso.
    destruct (Hbelow cp (contentPath_below _ _ _)) as [H | (r' & Hr' & H)].
    - congruence.
    - now apply contentPath_not_index in H.
    - apply contentPath_inj in H. apply Hfresh. rewrite H.
      now apply in_map. }
  set (v2 := addNode cp (FileNode content) (ensured fdir v)).
  assert (HI2 : lookup (indexPathOf fname) v2 = lookup (indexPathOf fname) v).
  { unfold v2. rewrite lookup_addNode.
    rewrite (lookup_ensured_other fdir _ v (indexPath_not_folderPath fname)).
    destruct (lookup (indexPathOf fname) v); [reflexivity|].
    destruct (eqb cp (indexPathOf fname)) eqn:E; [|reflexivity].
    apply eqb_eq in E. now apply contentPath_not_index in E. }
  assert (Hidx2 : index_of v2 fname = index_of v fname).
  { unfold indexOf. now rewrite HI2. }
  set (index1 := {| versions := metaOf file r :: versions (index_of v fname);
                    lastUpdated := savedAt r |}).
  set (v3 := written (indexPathOf fname) (JSON_stringify index1)
               (ensured fdir v2)).
  assert (HI3 : lookup (indexPathOf fname) v3
                = Some (FileNode (JSON_stringify index1))).
  { apply lookup_written_self.
    rewrite (lookup_ensured_other fdir _ v2 (indexPath_not_folderPath fname)).
    now rewrite HI2. }
  assert (HI3' : lookup (indexPathOf fname) v3 <> Some FolderNode)
    by (rewrite HI3; discriminate).
  assert (Hidx3 : index_of v3 fname = index1)
    by now apply indexOf_written.
  set (gone := if maxVersions settings
                  <? Z.of_nat (length (versions index1))
               then slice (maxVersions settings) (versions index1)
               else []).
  exists (delete_all fname gone v3). split.
  - unfold saveVersion.
    run_with (read_run (TFile.path file) v ns content Hdoc).
    run_with ensureFolderExists_run.
    change (fdir ++ slash ++ js "version_"
              ++ JSNumber.toString (savedAt r) ++ js "_"
              ++ JSNumber.toString (randomId r) ++ js ".md") with cp.
    run_with (create_run cp content (ensured fdir v) ns Hcp).
    fold v2.
    run_with readVersionIndex_run.
    rewrite Hidx2.
    assert (HW : lookup (indexPathOf fname) v2 <> Some FolderNode)
      by now rewrite HI2.
    match goal with
    | |- context [writeVersionIndex ?a ?b ?c ?d] =>
        change (writeVersionIndex a b c d)
          with (writeVersionIndex a b c index1)
    end.
    run_with (writeVersionIndex_run fname index1 v2 ns HW).
    fold v3.
    pose proof (cleanupOldVersions_run file v3 ns HI3') as C.
    rewrite Hidx3 in C. fold gone in C.
    run_with C. reflexivity.
  - assert (Hrev : rev (map (metaOf file) (saved ++ [r]))
                   = metaOf file r :: rev (map (metaOf file) saved)).
    { now rewrite map_app, rev_app_distr. }
    repeat split.
    + destruct (indexOf_delete_all fname gone v3 HI3') as [E _].
      rewrite E, Hidx3. unfold gone.
      rewrite retention_firstn; [| exact HM |].
      * cbn [versions index1]. rewrite Hidx, Hrev.
        apply firstn_cons_firstn.
      * cbn [versions index1]. rewrite Hidx.
        now apply NoDup_newest.
    + now apply delete_all_index_file.
    + exists content.
      assert (K3 : lookup (TFile.path file) v3 = Some (FileNode content)).
      { unfold v3. rewrite lookup_written_other.
        - assert (K2 : lookup (TFile.path file) v2
                       = Some (FileNode content)).
          { unfold v2. rewrite lookup_addNode.
            assert (K0 : lookup (TFile.path file) (ensured fdir v)
                         = Some (FileNode content)).
            { destruct (eqb fdir (TFile.path file)) eqn:E.
              - apply eqb_eq in E. rewrite <- E in *.
                now rewrite lookup_ensured_self, Hdoc.
              - now rewrite lookup_ensured_other. }
            now rewrite K0. }
          destruct (eqb fdir (TFile.path file)) eqn:E.
          + apply eqb_eq in E. rewrite <- E in *.
            now rewrite lookup_ensured_self, K2.
          + now rewrite lookup_ensured_other.
        - apply eqb_neq. intros E. rewrite <- E in Hout.
          now rewrite indexPath_below in Hout. }
      rewrite delete_all_lookup_kept; [exact K3 | exact Hout |].
      rewrite K3. discriminate.
    + exact Hout.
    + intros q Hq Hp.
      apply (delete_all_present_below fname gone v3 q Hq) in Hp
        as [Hp | Hp]; [now left|].
      unfold v3 in Hp.
      destruct (eqb (indexPathOf fname) q) eqn:E.
      { apply eqb_eq in E. now left. }
      rewrite (lookup_written_other _ _ _ _ E) in Hp.
      rewrite (lookup_ensured_other _ _ _ (below_not_folder _ _ Hq)) in Hp.
      unfold v2 in Hp. rewrite lookup_addNode in Hp.
      rewrite (lookup_ensured_other _ _ _ (below_not_folder _ _ Hq)) in Hp.
      destruct (lookup q v) eqn:Eq.
      * destruct (Hbelow q Hq) as [H | (r' & Hr' & H)].
        -- congruence.
        -- now left.
        -- right. exists r'. split; [|exact H].
           apply in_or_app. now left.
      * destruct (eqb cp q) eqn:Ec; [|congruence].
        apply eqb_eq in Ec. right. exists r. split; [|now symmetry].
        apply in_or_app. right. now left.
Qed.

Lemma saveAll_run saved requests v ns :
  0 <= maxVersions settings ->
  well_stored saved v ->
  NoDup (map (@savedAt) (saved ++ requests)) ->
  exists v',
    saveAll JSON_stringify JSON_parse settings file requests (mk v ns)
    = (Return (map (metaOf file) requests), mk v' ns)
    /\ well_stored (saved ++ requests) v'.
Proof.
  intros HM. revert saved v.
  induction requests as [|r requests IH]; intros saved v Hw Hnd.
  - exists v. rewrite app_nil_r. now split.
  - assert (E : saved ++ r :: requests = (saved ++ [r]) ++ requests)
      by now rewrite <- app_assoc.
    rewrite E in Hnd |- *.
    assert (Hnd1 : NoDup (map (@savedAt) (saved ++ [r]))).
    { rewrite map_app in Hnd. now apply NoDup_app_remove_r in Hnd. }
    destruct (saveVersion_step saved r v ns HM Hw Hnd1) as (v1 & S1 & W1).
    destruct (IH (saved ++ [r]) v1 W1 Hnd) as (v2 & S2 & W2).
    exists v2. split; [|exact W2].
    cbn [saveAll map]. run_with S1. run_with S2. reflexivity.
Qed.

Lemma wellStored_initial v :
  (exists content, lookup (TFile.path file) v = Some (FileNode content)) ->
  (forall q, startsWith q (fdir ++ slash) = true -> lookup q v = None) ->
  well_stored [] v.
Proof.
  intros [content Hdoc] Hnone.
  assert (HI : lookup (indexPathOf fname) v = None)
    by apply Hnone, indexPath_below.
  repeat split.
  - unfold indexOf. rewrite HI. simpl. now rewrite firstn_nil.
  - now rewrite HI.
  - now exists content.
  - destruct (startsWith (TFile.path file) (fdir ++ slash)) eqn:E;
      [|reflexivity].
    apply Hnone in E. congruence.
  - intros q Hq Hp. now apply Hnone in Hq.
Qed.

End RoundTrip.

End Runs.

End StorageFacts.

(* ================================================================== *)
(** ** The diff service: the stated properties *)

Module VersionDiffSpec.
Import VersionDiff VersionDiffFacts.
Local Open Scope string_scope.
Local Open Scope list_scope.

(** C1. Round trip of [computeDiff]: the texts of the [equal] and [insert]
    segments, in order, make up the new text, and those of the [equal] and
    [delete] segments make up the old text, whenever the diffs handed over
    by diff-match-patch have the old text as their source ([diff_text1])
    and the new text as their destination ([diff_text2]). *)
Theorem computeDiff_roundtrip
    (diff_main : jsstring -> jsstring -> list Diff)
    (diff_cleanupSemantic : list Diff -> list Diff)
    (A B : jsstring) :
  diff_text1 (diff_cleanupSemantic (diff_main A B)) = A ->
  diff_text2 (diff_cleanupSemantic (diff_main A B)) = B ->
  segmentsText isNewSide (computeDiff diff_main diff_cleanupSemantic A B) = B
  /\ segmentsText isOldSide (computeDiff diff_main diff_cleanupSemantic A B) = A.
Proof.
  intros H1 H2. unfold computeDiff. split.
  - now rewrite newSide_text_diff_text2.
  - now rewrite oldSide_text_diff_text1.
Qed.

Lemma computeDiff_roundtrip_witness :
  segmentsText isNewSide
    (computeDiff prefixDiff (fun d => d) (js "abc") (js "abd")) = js "abd"
  /\ segmentsText isOldSide
    (computeDiff prefixDiff (fun d => d) (js "abc") (js "abd")) = js "abc".
Proof.
  apply (@computeDiff_roundtrip prefixDiff (fun d => d) (js "abc") (js "abd"));
    reflexivity.
Defined.

(** C2. A completed line of an [insert] segment goes to the new pane as the
    escaped text alone, without the [<ins>] wrapper, while the same line of
    a [delete] segment goes to the old pane inside the [<del>] wrapper; so
    for the one diff that inserts the line [x] with its line feed, the new
    pane is that line as it is. *)
Theorem insert_line_pushed_without_marker :
  (forall text line p,
      rightLines (stepLine 1 text line false p)
      = rightLines p ++ [escapeHtml (currentNew p ++ line ++ [nl])])
  /\ (forall text line p,
      leftLines (stepLine (-1) text line false p)
      = leftLines p ++ [delWrap (escapeHtml (currentOld p ++ line ++ [nl]))])
  /\ right (renderDiffs [(1, jsLines ["x"; ""])]) = jsLines ["x"; ""]
  /\ right (renderDiffs [(1, jsLines ["x"; ""])])
     <> insWrap (jsLines ["x"; ""])
  /\ keptLines true [(-1, jsLines ["x"; ""])]
     = [delWrap (jsLines ["x"; ""]); delWrap []].
Proof.
  repeat split; try reflexivity.
  vm_compute. discriminate.
Qed.

(** C7, as stated, fails: deleting the line [x] with its line feed leaves
    in the old pane, after the marked line, the line [<del ...></del>],
    whose tag-stripped content is empty. *)
Lemma marked_blank_line_is_kept :
  In (delWrap []) (pushedLines true [(-1, jsLines ["x"; ""])])
  /\ trim (stripTags (delWrap [])) = []
  /\ In (delWrap []) (keptLines true [(-1, jsLines ["x"; ""])])
  /\ left (renderDiffs [(-1, jsLines ["x"; ""])])
     = join [nl] [delWrap (jsLines ["x"; ""]); delWrap []].
Proof.
  vm_compute. repeat split; auto.
Qed.

(** C7, amended. Whatever diffs the library hands over for the two texts,
    a pushed line that, markers included, is white space only is dropped
    from its pane, and no pushed line whose tag-stripped content has a
    character other than white space is dropped; the pane is made of the
    lines that are left. *)
Theorem blank_lines_dropped
    (diff_main : jsstring -> jsstring -> list Diff)
    (diff_cleanupSemantic : list Diff -> list Diff)
    (oldText newText : jsstring) (oldPane : bool) (l : jsstring) :
  let diffs := diff_cleanupSemantic (diff_main oldText newText) in
  In l (pushedLines oldPane diffs) ->
  (trim l = [] -> ~ In l (keptLines oldPane diffs))
  /\ (trim (stripTags l) <> [] -> In l (keptLines oldPane diffs))
  /\ pane oldPane
       (renderSideBySide diff_main diff_cleanupSemantic oldText newText)
     = join [nl] (markFrontmatter (keptLines oldPane diffs)).
Proof.
  intros diffs Hin. unfold keptLines.
  repeat split.
  - intros E H. apply filter_In in H as [_ H].
    now apply keepLine_iff in H.
  - intros H. apply filter_In. split; [exact Hin|].
    apply keepLine_iff. intros E. apply H.
    apply trim_nil_iff in E. rewrite (stripTags_white _ E).
    now apply trim_nil_iff.
  - apply pane_renderDiffs.
Qed.

Lemma blank_lines_dropped_witness :
  (trim [] = [] ->
   ~ In [] (keptLines true (prefixDiff (jsLines ["A"; ""]) (jsLines ["A"; ""]))))
  /\ (trim (stripTags []) <> [] ->
      In [] (keptLines true (prefixDiff (jsLines ["A"; ""]) (jsLines ["A"; ""]))))
  /\ pane true
       (renderSideBySide prefixDiff (fun d => d)
          (jsLines ["A"; ""]) (jsLines ["A"; ""]))
     = join [nl]
         (markFrontmatter
            (keptLines true
               (prefixDiff (jsLines ["A"; ""]) (jsLines ["A"; ""])))).
Proof.
  apply (blank_lines_dropped prefixDiff (fun d => d)
           (jsLines ["A"; ""]) (jsLines ["A"; ""]) true []).
  vm_compute. auto.
Defined.

(** C9, as stated, fails: the old text begins with a [---] line, two
    key lines away from the closing [---], but the diffs against a new text
    that inserts a character inside the first [---] cut that line in two
    pieces; the opening delimiter is then not marked, the closing one is
    taken for an opening one and the body line after it is marked. *)
Lemma split_delimiter_not_marked :
  let oldText := jsLines ["---"; "k: v"; "---"; "body"] in
  let newText := jsLines ["-x--"; "k: v"; "---"; "body"] in
  let diffs := [(0, js "-"); (1, js "x");
                (0, jsLines ["--"; "k: v"; "---"; "body"])] in
  diff_text1 diffs = oldText
  /\ diff_text2 diffs = newText
  /\ markFrontmatter (keptLines true diffs)
     = [js "-"; jsLines ["--"; ""]; jsLines ["k: v"; ""];
        fmWrap (jsLines ["---"; ""]); fmWrap (js "body")]
  /\ left (renderDiffs diffs)
     = join [nl] [js "-"; jsLines ["--"; ""]; jsLines ["k: v"; ""];
                  fmWrap (jsLines ["---"; ""]); fmWrap (js "body")].
Proof.
  vm_compute. repeat split.
Qed.

(** C9, amended. Whatever diffs the library hands over for the two texts,
    whenever the lines that a pane keeps begin with a line whose
    tag-stripped, trimmed content is [---] and have a later such line, the
    pane shows every line from the first through that closing one inside
    the frontmatter wrapper and every line after it as it is, later [---]
    lines included; this holds for the old and for the new pane alike. *)
Theorem frontmatter_block_marked
    (diff_main : jsstring -> jsstring -> list Diff)
    (diff_cleanupSemantic : list Diff -> list Diff)
    (oldText newText : jsstring) (oldPane : bool)
    (d1 d2 : jsstring) (mid post : list jsstring) :
  keptLines oldPane (diff_cleanupSemantic (diff_main oldText newText))
  = d1 :: mid ++ d2 :: post ->
  isDelimiter d1 = true ->
  (forall l, In l mid -> isDelimiter l = false) ->
  isDelimiter d2 = true ->
  pane oldPane
    (renderSideBySide diff_main diff_cleanupSemantic oldText newText)
  = join [nl] (map fmWrap (d1 :: mid ++ [d2]) ++ post).
Proof.
  intros Hk Hd1 Hmid Hd2. unfold renderSideBySide.
  rewrite pane_renderDiffs, Hk.
  f_equal. apply (@markFrontmatter_block [] d1 mid d2 post); try assumption.
  intros l [].
Qed.

Lemma frontmatter_block_marked_witness :
  pane false
    (renderSideBySide prefixDiff (fun d => d)
       (jsLines ["---"; "k: v"; "---"; "body"; "---"])
       (jsLines ["---"; "k: v"; "---"; "body"; "---"]))
  = join [nl]
      (map fmWrap (jsLines ["---"; ""]
                     :: [jsLines ["k: v"; ""]] ++ [jsLines ["---"; ""]])
         ++ [jsLines ["body"; ""]; js "---"]).
Proof.
  apply (@frontmatter_block_marked prefixDiff (fun d => d)
           (jsLines ["---"; "k: v"; "---"; "body"; "---"])
           (jsLines ["---"; "k: v"; "---"; "body"; "---"]) false
           (jsLines ["---"; ""]) (jsLines ["---"; ""])
           [jsLines ["k: v"; ""]] [jsLines ["body"; ""]; js "---"]).
  - reflexivity.
  - reflexivity.
  - intros l [<- | []]. reflexivity.
  - reflexivity.
Defined.

End VersionDiffSpec.

(* ================================================================== *)
(** ** The storage service: the stated properties *)

Module VersionStorageSpec.
Import Async Vault VersionStorage StorageEffects.
Import VaultFacts ArrayFacts StorageFacts Scenario.
Local Open Scope string_scope.
Local Open Scope list_scope.

Lemma applyUpdates_fields updates version :
  applyUpdates updates version
  = {| filename := filename version;
       timestamp := timestamp version;
       name := match newName updates with
               | Some n => Some n
               | None => name version
               end;
       description := match newDescription updates with
                      | Some d => Some d
                      | None => description version
                      end;
       originalPath := originalPath version |}.
Proof.
  destruct updates as [[n|] [d|]], version; reflexivity.
Qed.

Lemma fresh_has_no_versions q :
  startsWith q (getVersionFolder keepOne (TFile.name note) ++ slash) = true ->
  lookup q (files fresh) = None.
Proof.
  intros H. cbn [fresh files lookup].
  destruct (eqb (js "notes/note.md") q) eqn:E; [|reflexivity].
  apply eqb_eq in E. subst q. discriminate.
Qed.

(** C3, as stated, fails: with room for one version, two saves taken at
    the same millisecond (and with different random numbers) both succeed,
    and the eviction of the older one removes both entries from the index:
    no entry remains where [maxVersions] is 1. *)
Lemma retention_same_millisecond :
  exists w',
    saveAll Codec.stringify Codec.parse keepOne note
      [request 100 1; request 100 2] fresh
    = (Return (map (metaOf note) [request 100 1; request 100 2]), w')
    /\ getVersions Codec.parse keepOne note w' = (Return [], w').
Proof.
  eexists. split; vm_compute; reflexivity.
Qed.

(** C3, amended. Starting with a document that has no stored version,
    after [maxVersions + K] saves with [K > 0], taken at pairwise distinct
    timestamps, every save has returned, the index holds exactly
    [maxVersions] entries, and they are the [K+1]-th through the last of
    the saved versions, newest first. *)
Theorem retention_keeps_newest
    (JSON_stringify : VersionIndex -> jsstring)
    (JSON_parse : jsstring -> option VersionIndex)
    (settings : VersionViewSettings) (file : TFile.t)
    (requests : list SaveRequest) (K : nat) (v : vault) (ns : list Notice) :
  (forall index, JSON_parse (JSON_stringify index) = Some index) ->
  0 <= maxVersions settings ->
  (exists content, lookup (TFile.path file) v = Some (FileNode content)) ->
  (forall q,
      startsWith q (getVersionFolder settings (TFile.name file) ++ slash)
      = true ->
      lookup q v = None) ->
  NoDup (map (@savedAt) requests) ->
  (0 < K)%nat ->
  length requests = (Z.to_nat (maxVersions settings) + K)%nat ->
  exists w',
    saveAll JSON_stringify JSON_parse settings file requests
      {| files := v; notices := ns |}
    = (Return (map (metaOf file) requests), w')
    /\ getVersions JSON_parse settings file w'
       = (Return (rev (skipn K (map (metaOf file) requests))), w')
    /\ length (rev (skipn K (map (metaOf file) requests)))
       = Z.to_nat (maxVersions settings).
Proof.
  intros RT HM Hdoc Hnone Hnd HK Hlen.
  pose proof (wellStored_initial JSON_parse settings file v Hdoc Hnone) as W0.
  destruct (saveAll_run JSON_stringify JSON_parse settings RT file
              [] requests v ns HM W0 Hnd) as (v' & S & W).
  exists {| files := v'; notices := ns |}. split; [exact S|].
  destruct W as (Hidx & _). simpl in Hidx.
  split.
  - rewrite getVersions_run, Hidx. f_equal. f_equal.
    rewrite firstn_rev, length_map. f_equal. f_equal. lia.
  - rewrite length_rev, length_skipn, length_map. lia.
Qed.

Lemma retention_keeps_newest_witness :
  exists w',
    saveAll Codec.stringify Codec.parse keepOne note
      [request 100 1; request 101 2] fresh
    = (Return (map (metaOf note) [request 100 1; request 101 2]), w')
    /\ getVersions Codec.parse keepOne note w'
       = (Return
            (rev (skipn 1 (map (metaOf note) [request 100 1; request 101 2]))),
          w')
    /\ length (rev (skipn 1 (map (metaOf note)
                               [request 100 1; request 101 2])))
       = Z.to_nat (maxVersions keepOne).
Proof.
  apply (retention_keeps_newest Codec.stringify Codec.parse keepOne note
           [request 100 1; request 101 2] 1 (files fresh) (notices fresh)
           CodecFacts.parse_stringify).
  - vm_compute. discriminate.
  - eexists. reflexivity.
  - exact fresh_has_no_versions.
  - repeat constructor; simpl; intuition discriminate.
  - lia.
  - reflexivity.
Defined.

(** C4. When the index has an entry with timestamp [ts], [updateVersion]
    returns [true] and stores the index in which the first such entry has
    the name and the description of [updates] where they are given (an
    empty string too) and its own where they are not, every other field,
    every other entry and [lastUpdated] being as before; when no entry has
    timestamp [ts], it returns [false] and leaves the vault as it is. *)
Theorem updateVersion_overwrites_given_fields
    (JSON_stringify : VersionIndex -> jsstring)
    (JSON_parse : jsstring -> option VersionIndex)
    (settings : VersionViewSettings) (file : TFile.t) (ts : Z)
    (updates : Updates) (v : vault) (ns : list Notice) :
  let index := indexOf JSON_parse settings v (TFile.name file) in
  (forall m,
      In m (versions index) -> timestamp m = ts ->
      exists before version after v' index',
        versions index = before ++ version :: after
        /\ (forall m', In m' before -> timestamp m' <> ts)
        /\ timestamp version = ts
        /\ updateVersion JSON_stringify JSON_parse settings file ts updates
             {| files := v; notices := ns |}
           = (Return true, {| files := v'; notices := ns ++ [Updated] |})
        /\ index'
           = {| versions :=
                  before
                    ++ {| filename := filename version;
                          timestamp := timestamp version;
                          name := match newName updates with
                                  | Some n => Some n
                                  | None => name version
                                  end;
                          description := match newDescription updates with
                                         | Some d => Some d
                                         | None => description version
                                         end;
                          originalPath := originalPath version |}
                    :: after;
                lastUpdated := lastUpdated index |}
        /\ lookup (getIndexFilePath settings (TFile.name file)) v'
           = Some (FileNode (JSON_stringify index'))
        /\ ((forall i, JSON_parse (JSON_stringify i) = Some i) ->
            indexOf JSON_parse settings v' (TFile.name file) = index'))
  /\ ((forall m, In m (versions index) -> timestamp m <> ts) ->
      updateVersion JSON_stringify JSON_parse settings file ts updates
        {| files := v; notices := ns |}
      = (Return false, {| files := v; notices := ns ++ [VersionMissing] |})).
Proof.
  intros index. split.
  - intros m Hin Hm.
    destruct (split_at_first (fun x => Z.eqb (timestamp x) ts)
                (versions index) m Hin)
      as (before & version & after & Hv & Hb & Ht).
    { now apply Z.eqb_eq. }
    apply Z.eqb_eq in Ht.
    assert (Hb' : forall m', In m' before -> timestamp m' <> ts).
    { intros m' Hm'. apply Z.eqb_neq. now apply Hb. }
    assert (HI : lookup (getIndexFilePath settings (TFile.name file))
                   (ensured (getVersionFolder settings (TFile.name file)) v)
                 <> Some FolderNode).
    { rewrite lookup_ensured_other by apply indexPath_not_folderPath.
      intros E. unfold index, indexOf in Hv. rewrite E in Hv.
      now destruct before. }
    exists before, version, after. eexists. eexists.
    split; [exact Hv|]. split; [exact Hb'|]. split; [exact Ht|].
    split; [|split; [reflexivity|split]].
    + now apply updateVersion_found with (before := before)
        (version := version) (after := after).
    + rewrite applyUpdates_fields. now apply lookup_written_self.
    + intros RT.
      apply (indexOf_written JSON_stringify JSON_parse settings RT).
      rewrite applyUpdates_fields. now apply lookup_written_self.
  - apply updateVersion_absent.
Qed.

Lemma updateVersion_overwrites_given_fields_witness :
  (exists v',
      updateVersion Codec.stringify Codec.parse DEFAULT_SETTINGS note 100
        {| newName := Some []; newDescription := None |} savedTwice
      = (Return true, {| files := v'; notices := [Updated] |})
      /\ indexOf Codec.parse DEFAULT_SETTINGS v' (TFile.name note)
         = {| versions :=
                [metaOf note (request 101 2);
                 {| filename := js "note.md"; timestamp := 100;
                    name := Some []; description := None;
                    originalPath := js "notes/note.md" |}];
              lastUpdated := 101 |})
  /\ updateVersion Codec.stringify Codec.parse DEFAULT_SETTINGS note 7
       {| newName := Some []; newDescription := None |} savedTwice
     = (Return false,
        {| files := files savedTwice; notices := [VersionMissing] |}).
Proof.
  split.
  - destruct (proj1 (updateVersion_overwrites_given_fields
                       Codec.stringify Codec.parse DEFAULT_SETTINGS note 100
                       {| newName := Some []; newDescription := None |}
                       (files savedTwice) (notices savedTwice))
                (metaOf note (request 100 1)))
      as (before & version & after & v' & index' & Hv & Hb & Ht & R
          & -> & _ & I).
    + vm_compute. auto.
    + reflexivity.
    + exists v'. split; [exact R|].
      rewrite (I CodecFacts.parse_stringify).
      destruct before as [|b [|b' before]].
      * exfalso. vm_compute in Hv. injection Hv as Hv _.
        rewrite <- Hv in Ht. discriminate.
      * vm_compute in Hv. injection Hv as <- <- <-. reflexivity.
      * exfalso. vm_compute in Hv. destruct before; discriminate.
  - apply (proj2 (updateVersion_overwrites_given_fields
                    Codec.stringify Codec.parse DEFAULT_SETTINGS note 7
                    {| newName := Some []; newDescription := None |}
                    (files savedTwice) (notices savedTwice))).
    intros m [<- | [<- | []]]; vm_compute; discriminate.
Defined.

(** C5. When the content of the snapshot with timestamp [ts] is readable
    and the document is a file of the vault, [restoreVersion] returns
    [true], the document then holds exactly that content, and every other
    file is as before, the index file with it when the document is not
    that file; when the content is not found, it returns [false] and the
    vault is as before. *)
Theorem restoreVersion_overwrites_document
    (JSON_parse : jsstring -> option VersionIndex)
    (settings : VersionViewSettings) (file : TFile.t) (ts : Z)
    (v : vault) (ns : list Notice) :
  (forall content old,
      getVersionContent JSON_parse settings file ts
        {| files := v; notices := ns |}
      = (Return (Some content), {| files := v; notices := ns |}) ->
      lookup (TFile.path file) v = Some (FileNode old) ->
      exists v',
        restoreVersion JSON_parse settings file ts
          {| files := v; notices := ns |}
        = (Return true, {| files := v'; notices := ns ++ [Restored] |})
        /\ read (TFile.path file) {| files := v'; notices := ns ++ [Restored] |}
           = (Return content, {| files := v'; notices := ns ++ [Restored] |})
        /\ (forall q, q <> TFile.path file -> lookup q v' = lookup q v)
        /\ (TFile.path file <> getIndexFilePath settings (TFile.name file) ->
            indexOf JSON_parse settings v' (TFile.name file)
            = indexOf JSON_parse settings v (TFile.name file)))
  /\ (getVersionContent JSON_parse settings file ts
        {| files := v; notices := ns |}
      = (Return None, {| files := v; notices := ns |}) ->
      restoreVersion JSON_parse settings file ts
        {| files := v; notices := ns |}
      = (Return false,
         {| files := v; notices := ns ++ [RestoreUnreadable] |})).
Proof.
  split.
  - intros content old G L.
    exists (setData (TFile.path file) content v).
    assert (F : forall q, q <> TFile.path file ->
                lookup q (setData (TFile.path file) content v) = lookup q v).
    { intros q Hq. rewrite lookup_setData.
      destruct (eqb (TFile.path file) q) eqn:E; [|reflexivity].
      apply eqb_eq in E. congruence. }
    repeat split.
    + now apply restoreVersion_found with (old := old).
    + unfold read. cbn [files].
      now rewrite lookup_setData, eqb_refl, L.
    + exact F.
    + intros Hne. unfold indexOf. rewrite F; [reflexivity | congruence].
  - apply restoreVersion_missing.
Qed.

Lemma restoreVersion_overwrites_document_witness :
  (exists v',
      restoreVersion Codec.parse DEFAULT_SETTINGS note 5 twins
      = (Return true, {| files := v'; notices := [Restored] |})
      /\ read (TFile.path note) {| files := v'; notices := [Restored] |}
         = (Return (js "a"), {| files := v'; notices := [Restored] |}))
  /\ restoreVersion Codec.parse DEFAULT_SETTINGS note 7 twins
     = (Return false,
        {| files := files twins; notices := [RestoreUnreadable] |}).
Proof.
  split.
  - destruct (proj1 (restoreVersion_overwrites_document
                       Codec.parse DEFAULT_SETTINGS note 5
                       (files twins) (notices twins))
                (js "a") (js "hello"))
      as (v' & R & C & _).
    + vm_compute. reflexivity.
    + reflexivity.
    + exists v'. now split.
  - apply (proj2 (restoreVersion_overwrites_document
                    Codec.parse DEFAULT_SETTINGS note 7
                    (files twins) (notices twins))).
    vm_compute. reflexivity.
Defined.

(** The service of [VersionStorage] is the unchecked one for a parser all
    of whose values have the declared type. *)
Lemma unchecked_getVersions_checked
    (JSON_parse : jsstring -> option VersionIndex)
    (settings : VersionViewSettings) (file : TFile.t) (w : world) :
  UncheckedIndex.getVersions (UncheckedIndex.checked JSON_parse) settings
    file w
  = match getVersions JSON_parse settings file w with
    | (Return vs, w') => (Return (UncheckedIndex.Array vs), w')
    | (Throw e, w') => (Throw e, w')
    end.
Proof.
  destruct w as [v ns]. rewrite getVersions_run.
  unfold UncheckedIndex.getVersions, UncheckedIndex.readVersionIndex,
    UncheckedIndex.checked, indexOf.
  unfold bind, tryCatch, getAbstractFileByPath, gets, read, ret, throw.
  cbn [files].
  destruct (lookup _ v) as [[content|]|] eqn:E; cbn [files];
    rewrite ?E; try reflexivity.
  now destruct (JSON_parse content).
Qed.

(** C6, as stated, fails: [readVersionIndex] returns what [JSON.parse]
    returns without a check, and [getVersions] reads [index.versions]
    outside any [try].  With the text [null] in the index file
    [getVersions] throws a [TypeError]; with the text [{}] it returns
    [undefined], which is no sequence. *)
Lemma getVersions_throws_on_null_index :
  UncheckedIndex.getVersions UncheckedIndex.parse DEFAULT_SETTINGS note
    (UncheckedIndex.withIndexText (js "null"))
  = (Throw UncheckedIndex.typeError,
     UncheckedIndex.withIndexText (js "null"))
  /\ UncheckedIndex.getVersions UncheckedIndex.parse DEFAULT_SETTINGS note
       (UncheckedIndex.withIndexText (js "{}"))
     = (Return UncheckedIndex.Undefined,
        UncheckedIndex.withIndexText (js "{}")).
Proof. split; vm_compute; reflexivity. Qed.

(** C6, amended. [getVersions] leaves the world as it is.  It returns the
    empty array when the index path holds no file and when [JSON.parse]
    throws on the text of the file; it returns the versions of the stored
    index, in the stored order, when the text denotes an index; when the
    text denotes another value, it returns the [versions] of that value
    as it is ([undefined] if there is none), and it throws a [TypeError]
    when the value is [null]. *)
Theorem getVersions_by_stored_text
    (JSON_parse : jsstring -> option UncheckedIndex.Parsed)
    (settings : VersionViewSettings) (file : TFile.t) (w : world) :
  UncheckedIndex.getVersions JSON_parse settings file w
  = (match lookup (getIndexFilePath settings (TFile.name file)) (files w) with
     | Some (FileNode content) =>
         match JSON_parse content with
         | Some (UncheckedIndex.AnIndex index) =>
             Return (UncheckedIndex.Array (versions index))
         | Some UncheckedIndex.Null => Throw UncheckedIndex.typeError
         | Some UncheckedIndex.NoVersions => Return UncheckedIndex.Undefined
         | Some UncheckedIndex.OtherVersions =>
             Return UncheckedIndex.NotAnArray
         | None => Return (UncheckedIndex.Array [])
         end
     | _ => Return (UncheckedIndex.Array [])
     end, w).
Proof.
  destruct w as [v ns].
  unfold UncheckedIndex.getVersions, UncheckedIndex.readVersionIndex.
  unfold bind, tryCatch, getAbstractFileByPath, gets, read, ret, throw.
  cbn [files].
  destruct (lookup _ v) as [[content|]|] eqn:E; cbn [files];
    rewrite ?E; try reflexivity.
  now destruct (JSON_parse content) as [[index| | |]|].
Qed.

(** C8. [deleteVersion] and [updateVersion] store the index with the
    [lastUpdated] they read: after a save at 100 and a save at 101, a
    deletion and an update, whenever they are made, leave [lastUpdated]
    at 101, the timestamp of the last save. *)
Theorem lastUpdated_only_set_by_save :
  lastUpdated (indexOf Codec.parse DEFAULT_SETTINGS (files savedTwice)
                 (TFile.name note)) = 101
  /\ lastUpdated
       (indexOf Codec.parse DEFAULT_SETTINGS
          (files (snd (deleteVersion Codec.stringify Codec.parse
                         DEFAULT_SETTINGS note 100 savedTwice)))
          (TFile.name note)) = 101
  /\ lastUpdated
       (indexOf Codec.parse DEFAULT_SETTINGS
          (files (snd (updateVersion Codec.stringify Codec.parse
                         DEFAULT_SETTINGS note 100
                         {| newName := Some (js "first");
                            newDescription := None |} savedTwice)))
          (TFile.name note)) = 101
  /\ (forall ts index, lastUpdated (withoutTimestamp ts index)
                       = lastUpdated index).
Proof.
  repeat split; vm_compute; reflexivity.
Qed.

(** C10. In a vault without repeated paths, [deleteVersion] returns; the
    index read afterwards is the former one without any of the entries of
    timestamp [ts]; and every former child of the version folder is still
    there, except at most the first one, in listing order, whose name
    encodes [ts]: later children that encode [ts] stay.  When moreover the
    index path is no folder and the version folder is a folder or does not
    exist yet, nothing is notified, the index is stored without the
    entries of timestamp [ts], and the children are exactly the former ones
    without the first that encodes [ts] (with the index file after them if
    it did not exist). *)
Theorem deleteVersion_removes_first_content_file
    (JSON_stringify : VersionIndex -> jsstring)
    (JSON_parse : jsstring -> option VersionIndex)
    (settings : VersionViewSettings) (file : TFile.t) (ts : Z)
    (v : vault) (ns : list Notice) :
  let folderPath := getVersionFolder settings (TFile.name file) in
  let indexPath := getIndexFilePath settings (TFile.name file) in
  let index := indexOf JSON_parse settings v (TFile.name file) in
  let encodes := fun c => encodesTimestamp (childName c) ts in
  NoDup (map fst v) ->
  exists v' ns',
    deleteVersion JSON_stringify JSON_parse settings file ts
      {| files := v; notices := ns |}
    = (Return tt, {| files := v'; notices := ns' |})
    /\ ((forall i, JSON_parse (JSON_stringify i) = Some i) ->
        versions (indexOf JSON_parse settings v' (TFile.name file))
        = filter (fun m => negb (Z.eqb (timestamp m) ts)) (versions index))
    /\ (forall c, In c (children folderPath v) ->
                  In c (children folderPath v')
                  \/ find encodes (children folderPath v) = Some c)
    /\ (lookup indexPath v <> Some FolderNode ->
        (forall d, lookup folderPath v <> Some (FileNode d)) ->
        ns' = ns
        /\ lookup indexPath v'
           = Some (FileNode
                     (JSON_stringify
                        {| versions :=
                             filter (fun m => negb (Z.eqb (timestamp m) ts))
                               (versions index);
                           lastUpdated := lastUpdated index |}))
        /\ children folderPath v'
           = removeFirst encodes (children folderPath v)
             ++ match lookup indexPath v with
                | None => [{| childName := js "versions.json";
                              childPath := indexPath |}]
                | Some _ => []
                end).
Proof.
  intros folderPath indexPath index encodes Hnd.
  destruct (lookup indexPath v) as [[d|]|] eqn:EI.
  2:{ (* the index path is a folder: the write throws, nothing is deleted *)
    exists (ensured folderPath v), (ns ++ [DeleteFailed]).
    assert (L : lookup indexPath (ensured folderPath v) = Some FolderNode).
    { unfold indexPath, folderPath.
      now rewrite lookup_ensured_other by apply indexPath_not_folderPath. }
    repeat split.
    - now apply deleteVersion_blocked.
    - intros _. unfold index, indexOf. fold indexPath. now rewrite L, EI.
    - intros c Hc. left. unfold folderPath. now rewrite children_ensured.
    - congruence.
    - congruence.
    - congruence. }
  all: assert (HI : lookup indexPath v <> Some FolderNode)
         by (rewrite EI; discriminate).
  all: exists (afterDelete JSON_stringify JSON_parse settings
                 (TFile.name file) ts v), ns.
  all: pose proof (children_afterDelete JSON_stringify JSON_parse settings
                     (TFile.name file) ts v Hnd HI) as C.
  all: fold folderPath indexPath in C; rewrite EI in C.
  all: split; [now apply deleteVersion_run|].
  all: split;
    [intros RT;
     now rewrite (indexOf_afterDelete JSON_stringify JSON_parse
                    settings RT (TFile.name file) ts v HI)|].
  all: split;
    [intros c Hc; rewrite C;
     destruct (lookup folderPath v) as [[x|]|];
     [ left; apply in_or_app; now left
     | destruct (removeFirst_keeps_others encodes _ c Hc) as [H | H];
       [left; apply in_or_app; now left | now right] .. ]|].
  all: intros _ HF; split; [reflexivity|].
  all: split; [now apply afterDelete_lookup_index|].
  all: rewrite C; destruct (lookup folderPath v) as [[x|]|] eqn:EF;
    try reflexivity; now elim (HF x).
Qed.

Lemma deleteVersion_removes_first_content_file_witness :
  exists v',
    deleteVersion Codec.stringify Codec.parse DEFAULT_SETTINGS note 5 twins
    = (Return tt, {| files := v'; notices := [] |})
    /\ indexOf Codec.parse DEFAULT_SETTINGS v' (TFile.name note)
       = {| versions :=
              [{| filename := js "note.md"; timestamp := 6; name := None;
                  description := None; originalPath := js "notes/note.md" |}];
            lastUpdated := 6 |}
    /\ map childName
         (children (getVersionFolder DEFAULT_SETTINGS (TFile.name note)) v')
       = [js "versions.json"; js "version_6_3.md"; js "version_5_2.md"].
Proof.
  destruct (deleteVersion_removes_first_content_file
              Codec.stringify Codec.parse DEFAULT_SETTINGS note 5
              (files twins) (notices twins))
    as (v' & ns' & R & _ & _ & Regular).
  - repeat constructor; simpl; intuition discriminate.
  - destruct Regular as (-> & I & C).
    + vm_compute. discriminate.
    + intros d. vm_compute. discriminate.
    + exists v'. split; [exact R|]. split.
      * apply (indexOf_written Codec.stringify Codec.parse DEFAULT_SETTINGS
                 CodecFacts.parse_stringify).
        rewrite I. vm_compute. reflexivity.
      * rewrite C. vm_compute. reflexivity.
Defined.

End VersionStorageSpec.

(* ================================================================== *)
(** ** The diff service: further properties *)

Module VersionDiffExtra.
Import VersionDiff VersionDiffMore VersionDiffFacts.

(** *** Escaping *)

Lemma replaceAll_app c rep a b :
  replaceAll c rep (a ++ b) = replaceAll c rep a ++ replaceAll c rep b.
Proof. unfold replaceAll. apply flat_map_app. Qed.

Lemma escapeHtml_app a b : escapeHtml (a ++ b) = escapeHtml a ++ escapeHtml b.
Proof. unfold escapeHtml. now rewrite !replaceAll_app. Qed.

Lemma escapeHtml_nil : escapeHtml [] = [].
Proof. reflexivity. Qed.

Lemma escapeHtml_single c : escapeHtml [c] = escapeChar c.
Proof.
  unfold escapeHtml, escapeChar, replaceAll. cbn [flat_map].
  destruct (N.eqb c 38) eqn:E38; [apply N.eqb_eq in E38; now subst|].
  cbn [app flat_map].
  destruct (N.eqb c 60) eqn:E60; [apply N.eqb_eq in E60; now subst|].
  cbn [app flat_map].
  destruct (N.eqb c 62) eqn:E62; [apply N.eqb_eq in E62; now subst|].
  cbn [app flat_map].
  destruct (N.eqb c 34) eqn:E34; [apply N.eqb_eq in E34; now subst|].
  cbn [app flat_map].
  destruct (N.eqb c 39) eqn:E39; [apply N.eqb_eq in E39; now subst|].
  reflexivity.
Qed.

Lemma escapeHtml_flat_map t : escapeHtml t = flat_map escapeChar t.
Proof.
  induction t as [|c t IH]; [reflexivity|].
  change (c :: t) with ([c] ++ t).
  rewrite escapeHtml_app, escapeHtml_single, IH. reflexivity.
Qed.

Lemma escapeChar_safe x c :
  In c (escapeChar x) -> c <> 60%N /\ c <> 62%N /\ c <> 34%N /\ c <> 39%N.
Proof.
  unfold escapeChar.
  destruct (N.eqb x 38) eqn:E38;
    [cbn; intros H; repeat destruct H as [<- | H]; try easy|].
  destruct (N.eqb x 60) eqn:E60;
    [cbn; intros H; repeat destruct H as [<- | H]; try easy|].
  destruct (N.eqb x 62) eqn:E62;
    [cbn; intros H; repeat destruct H as [<- | H]; try easy|].
  destruct (N.eqb x 34) eqn:E34;
    [cbn; intros H; repeat destruct H as [<- | H]; try easy|].
  destruct (N.eqb x 39) eqn:E39;
    [cbn; intros H; repeat destruct H as [<- | H]; try easy|].
  intros [<- | []].
  apply N.eqb_neq in E60, E62, E34, E39. auto.
Qed.

Lemma escapeChar_inj_app a b x y :
  escapeChar a ++ x = escapeChar b ++ y -> a = b /\ x = y.
Proof.
  unfold escapeChar.
  destruct (N.eqb a 38) eqn:A38; [apply N.eqb_eq in A38; subst a|];
  [|destruct (N.eqb a 60) eqn:A60; [apply N.eqb_eq in A60; subst a|];
    [|destruct (N.eqb a 62) eqn:A62; [apply N.eqb_eq in A62; subst a|];
      [|destruct (N.eqb a 34) eqn:A34; [apply N.eqb_eq in A34; subst a|];
        [|destruct (N.eqb a 39) eqn:A39;
          [apply N.eqb_eq in A39; subst a|]]]]];
  (destruct (N.eqb b 38) eqn:B38; [apply N.eqb_eq in B38; subst b|];
   [|destruct (N.eqb b 60) eqn:B60; [apply N.eqb_eq in B60; subst b|];
     [|destruct (N.eqb b 62) eqn:B62; [apply N.eqb_eq in B62; subst b|];
       [|destruct (N.eqb b 34) eqn:B34; [apply N.eqb_eq in B34; subst b|];
         [|destruct (N.eqb b 39) eqn:B39;
           [apply N.eqb_eq in B39; subst b|]]]]]);
  cbn; intros H; try discriminate;
  try (injection H as; subst; try discriminate; now split).
Qed.

Lemma escapeHtml_chars t c :
  In c (escapeHtml t) -> c <> 60%N /\ c <> 62%N /\ c <> 34%N /\ c <> 39%N.
Proof.
  rewrite escapeHtml_flat_map. intros H.
  apply in_flat_map in H as (x & _ & H). now apply (escapeChar_safe x).
Qed.

(** X1. The text that [escapeHtml] returns has none of the characters
    [<], [>], double quote and single quote, whatever the text given. *)
Theorem escapeHtml_leaves_no_markup (t : jsstring) :
  Forall (fun c => c <> 60%N /\ c <> 62%N /\ c <> 34%N /\ c <> 39%N)
    (escapeHtml t).
Proof. apply Forall_forall. intros c. apply escapeHtml_chars. Qed.

(** X2. [escapeHtml] loses nothing: two texts with the same escaped text
    are the same, and the five replacements in a row amount to one pass
    that replaces each character once (an ampersand written by a later
    replacement is not escaped again). *)
Theorem escapeHtml_is_one_pass_and_injective :
  (forall t, escapeHtml t = flat_map escapeChar t)
  /\ (forall a b, escapeHtml a = escapeHtml b -> a = b).
Proof.
  split; [exact escapeHtml_flat_map|].
  intros a b. rewrite !escapeHtml_flat_map. revert b.
  induction a as [|x a IH]; intros [|y b] H.
  - reflexivity.
  - cbn [flat_map] in H. exfalso.
    unfold escapeChar in H.
    repeat match type of H with
           | context [if ?c then _ else _] => destruct c
           end; discriminate.
  - cbn [flat_map] in H. exfalso.
    unfold escapeChar in H.
    repeat match type of H with
           | context [if ?c then _ else _] => destruct c
           end; discriminate.
  - cbn [flat_map] in H. apply escapeChar_inj_app in H as [-> H].
    f_equal. now apply IH.
Qed.

(** *** Removing tags *)

Lemma stripTags_plain_from s rest :
  ~ In 60%N s ->
  stripTagsFrom None (s ++ rest) = s ++ stripTagsFrom None rest.
Proof.
  induction s as [|c s IH]; intros H; [reflexivity|].
  cbn [app stripTagsFrom].
  destruct (N.eqb c 60) eqn:E.
  - apply N.eqb_eq in E. subst c. exfalso. apply H. now left.
  - f_equal. apply IH. intros Hin. apply H. now right.
Qed.

Lemma stripTags_inside buf body rest :
  ~ In 62%N body ->
  (2 <= length buf + length body)%nat ->
  stripTagsFrom (Some buf) (body ++ 62%N :: rest) = stripTagsFrom None rest.
Proof.
  revert buf. induction body as [|c body IH]; intros buf Hb Hlen.
  - cbn [app stripTagsFrom]. rewrite N.eqb_refl.
    destruct buf as [|x [|y buf]]; simpl in Hlen; try lia; reflexivity.
  - cbn [app stripTagsFrom].
    destruct (N.eqb c 62) eqn:E.
    + apply N.eqb_eq in E. subst c. exfalso. apply Hb. now left.
    + apply IH.
      * intros Hin. apply Hb. now right.
      * simpl in *. lia.
Qed.

(** A tag with a name, then text without [<], then a tag: the text. *)
Lemma stripTags_wrapped_from opening closing s rest :
  opening <> [] -> ~ In 62%N opening ->
  closing <> [] -> ~ In 62%N closing ->
  ~ In 60%N s ->
  stripTagsFrom None
    (60%N :: opening ++ 62%N :: s ++ 60%N :: closing ++ 62%N :: rest)
  = s ++ stripTagsFrom None rest.
Proof.
  intros Ho1 Ho2 Hc1 Hc2 Hs.
  cbn [stripTagsFrom]. rewrite N.eqb_refl.
  rewrite stripTags_inside; try assumption.
  2:{ destruct opening; [congruence | simpl; lia]. }
  rewrite stripTags_plain_from by assumption.
  cbn [stripTagsFrom]. rewrite N.eqb_refl.
  rewrite stripTags_inside; try assumption.
  - reflexivity.
  - destruct closing; [congruence | simpl; lia].
Qed.

Lemma escapeHtml_no_lt t : ~ In 60%N (escapeHtml t).
Proof. intros H. apply escapeHtml_chars in H. now destruct H. Qed.

Lemma no_gt_in l : forallb (fun c => negb (N.eqb c 62)) l = true -> ~ In 62%N l.
Proof.
  intros H Hin. rewrite forallb_forall in H. specialize (H _ Hin).
  discriminate.
Qed.

Ltac strip_wrapper opening closing t rest :=
  apply (stripTags_wrapped_from opening closing (escapeHtml t) rest);
  [ discriminate | now apply no_gt_in | discriminate | now apply no_gt_in
  | apply escapeHtml_no_lt ].

Lemma stripTags_delWrap_from t rest :
  stripTagsFrom None (delWrap (escapeHtml t) ++ rest)
  = escapeHtml t ++ stripTagsFrom None rest.
Proof.
  unfold delWrap. rewrite <- !app_assoc.
  strip_wrapper (js "del class=" ++ [dquote] ++ js "version-diff-delete"
                   ++ [dquote]) (js "/del") t rest.
Qed.

Lemma stripTags_insWrap_from t rest :
  stripTagsFrom None (insWrap (escapeHtml t) ++ rest)
  = escapeHtml t ++ stripTagsFrom None rest.
Proof.
  unfold insWrap. rewrite <- !app_assoc.
  strip_wrapper (js "ins class=" ++ [dquote] ++ js "version-diff-insert"
                   ++ [dquote]) (js "/ins") t rest.
Qed.

Lemma stripTags_spanWrap_from t rest :
  stripTagsFrom None (spanWrap (escapeHtml t) ++ rest)
  = escapeHtml t ++ stripTagsFrom None rest.
Proof.
  unfold spanWrap. rewrite <- !app_assoc.
  strip_wrapper (js "span class=" ++ [dquote] ++ js "version-diff-equal"
                   ++ [dquote]) (js "/span") t rest.
Qed.

Lemma stripTags_delWrap t : stripTags (delWrap (escapeHtml t)) = escapeHtml t.
Proof.
  unfold stripTags. rewrite <- (app_nil_r (delWrap _)).
  rewrite stripTags_delWrap_from. apply app_nil_r.
Qed.

Lemma stripTags_insWrap t : stripTags (insWrap (escapeHtml t)) = escapeHtml t.
Proof.
  unfold stripTags. rewrite <- (app_nil_r (insWrap _)).
  rewrite stripTags_insWrap_from. apply app_nil_r.
Qed.

Lemma stripTags_escaped t : stripTags (escapeHtml t) = escapeHtml t.
Proof.
  unfold stripTags.
  rewrite <- (app_nil_r (escapeHtml t)) at 1.
  rewrite stripTags_plain_from by apply escapeHtml_no_lt.
  apply app_nil_r.
Qed.

(** *** Lines *)

Lemma split_not_nil sep s : split sep s <> [].
Proof.
  destruct s as [|c r]; simpl; [discriminate|].
  destruct (N.eqb c sep); [discriminate|].
  destruct (split sep r); discriminate.
Qed.

Lemma join_split s : join [nl] (split nl s) = s.
Proof.
  induction s as [|c r IH]; [reflexivity|].
  cbn [split]. pose proof (split_not_nil nl r) as Hne.
  destruct (split nl r) as [|h t] eqn:E; [congruence|].
  destruct (N.eqb c nl) eqn:Ec.
  - apply N.eqb_eq in Ec. subst c.
    change (join [nl] ([] :: h :: t)) with ([nl] ++ join [nl] (h :: t)).
    now rewrite IH.
  - destruct t as [|h' t].
    + simpl in *. now rewrite IH.
    + change (join [nl] ((c :: h) :: h' :: t))
        with (c :: (h ++ [nl] ++ join [nl] (h' :: t))).
      f_equal. exact IH.
Qed.

(** *** What the loop of [renderSideBySide] gives to the panes *)

Lemma concat_snoc (ls : list jsstring) x (f : jsstring -> jsstring) :
  concat (map f (ls ++ [x])) = concat (map f ls) ++ f x.
Proof. now rewrite map_app, concat_app; simpl; rewrite app_nil_r. Qed.

Lemma truthy_false s : truthy s = false -> s = [].
Proof. now destruct s. Qed.

Lemma stepLine_old ty text line isLast p :
  oldContent (stepLine ty text line isLast p)
  = oldContent p
    ++ (if ty =? 1 then []
        else escapeHtml (if isLast then line else line ++ [nl])).
Proof.
  unfold stepLine, oldContent.
  destruct (ty =? 1).
  - destruct (negb isLast || _); cbn [leftLines currentOld];
      now rewrite app_nil_r.
  - destruct (ty =? -1).
    + destruct (negb isLast || _); cbn [leftLines currentOld].
      * rewrite concat_snoc, stripTags_delWrap, escapeHtml_app.
        now rewrite escapeHtml_nil, app_nil_r, app_assoc.
      * now rewrite escapeHtml_app, app_assoc.
    + cbn [leftLines currentOld]. rewrite escapeHtml_nil, app_nil_r.
      rewrite concat_snoc, stripTags_escaped. f_equal.
      destruct (truthy (currentOld p)) eqn:T.
      * now rewrite concat_snoc, stripTags_delWrap.
      * apply truthy_false in T. rewrite T.
        now rewrite escapeHtml_nil, app_nil_r.
Qed.

Lemma stepLine_new ty text line isLast p :
  newContent (stepLine ty text line isLast p)
  = newContent p
    ++ (if ty =? -1 then []
        else escapeHtml (if isLast then line else line ++ [nl])).
Proof.
  unfold stepLine, newContent.
  destruct (ty =? 1) eqn:E1.
  - apply Z.eqb_eq in E1. subst ty. cbn [Z.eqb].
    destruct (negb isLast || _); cbn [rightLines currentNew].
    + rewrite concat_snoc, stripTags_escaped, escapeHtml_app.
      now rewrite escapeHtml_nil, app_nil_r, app_assoc.
    + now rewrite escapeHtml_app, app_assoc.
  - destruct (ty =? -1).
    + destruct (negb isLast || _); cbn [rightLines currentNew];
        now rewrite app_nil_r.
    + cbn [rightLines currentNew]. rewrite escapeHtml_nil, app_nil_r.
      rewrite concat_snoc, stripTags_escaped. f_equal.
      destruct (truthy (currentNew p)) eqn:T.
      * now rewrite concat_snoc, stripTags_insWrap.
      * apply truthy_false in T. rewrite T.
        now rewrite escapeHtml_nil, app_nil_r.
Qed.

Lemma join_cons line rest :
  join [nl] (line :: rest)
  = (match rest with [] => line | _ => line ++ [nl] end) ++ join [nl] rest.
Proof.
  destruct rest as [|l rest]; simpl.
  - now rewrite app_nil_r.
  - now rewrite <- app_assoc.
Qed.

Lemma stepLines_old ty text lines p :
  oldContent (stepLines ty text lines p)
  = oldContent p
    ++ (if ty =? 1 then [] else escapeHtml (join [nl] lines)).
Proof.
  revert p. induction lines as [|line rest IH]; intros p.
  - simpl. destruct (ty =? 1); now rewrite ?escapeHtml_nil, app_nil_r.
  - cbn [stepLines]. rewrite IH, stepLine_old, join_cons.
    destruct (ty =? 1); [now rewrite !app_nil_r|].
    rewrite escapeHtml_app, <- app_assoc. f_equal. f_equal.
    now destruct rest.
Qed.

Lemma stepLines_new ty text lines p :
  newContent (stepLines ty text lines p)
  = newContent p
    ++ (if ty =? -1 then [] else escapeHtml (join [nl] lines)).
Proof.
  revert p. induction lines as [|line rest IH]; intros p.
  - simpl. destruct (ty =? -1); now rewrite ?escapeHtml_nil, app_nil_r.
  - cbn [stepLines]. rewrite IH, stepLine_new, join_cons.
    destruct (ty =? -1); [now rewrite !app_nil_r|].
    rewrite escapeHtml_app, <- app_assoc. f_equal. f_equal.
    now destruct rest.
Qed.

Lemma fold_stepDiff_old diffs p :
  oldContent (fold_left stepDiff diffs p)
  = oldContent p ++ escapeHtml (diff_text1 diffs).
Proof.
  revert p. induction diffs as [|[ty text] diffs IH]; intros p.
  - simpl. now rewrite ?escapeHtml_nil, app_nil_r.
  - cbn [fold_left]. rewrite IH. unfold stepDiff.
    rewrite stepLines_old, join_split, <- app_assoc. f_equal.
    unfold diff_text1. cbn [filter fst].
    destruct (ty =? 1); cbn [negb]; [reflexivity|].
    cbn [map snd concat]. now rewrite escapeHtml_app.
Qed.

Lemma fold_stepDiff_new diffs p :
  newContent (fold_left stepDiff diffs p)
  = newContent p ++ escapeHtml (diff_text2 diffs).
Proof.
  revert p. induction diffs as [|[ty text] diffs IH]; intros p.
  - simpl. now rewrite ?escapeHtml_nil, app_nil_r.
  - cbn [fold_left]. rewrite IH. unfold stepDiff.
    rewrite stepLines_new, join_split, <- app_assoc. f_equal.
    unfold diff_text2. cbn [filter fst].
    destruct (ty =? -1); cbn [negb]; [reflexivity|].
    cbn [map snd concat]. now rewrite escapeHtml_app.
Qed.

Lemma pushed_old diffs :
  concat (map stripTags (pushedLines true diffs))
  = escapeHtml (diff_text1 diffs).
Proof.
  unfold pushedLines, collectLines. cbn [fst].
  pose proof (fold_stepDiff_old diffs emptyPanes) as H.
  unfold oldContent in H at 2. cbn in H. rewrite <- H. unfold oldContent.
  destruct (truthy (currentOld _)) eqn:T.
  - now rewrite concat_snoc, stripTags_delWrap.
  - apply truthy_false in T. rewrite T.
    now rewrite escapeHtml_nil, app_nil_r.
Qed.

Lemma pushed_new diffs :
  concat (map stripTags (pushedLines false diffs))
  = escapeHtml (diff_text2 diffs).
Proof.
  unfold pushedLines, collectLines. cbn [snd].
  pose proof (fold_stepDiff_new diffs emptyPanes) as H.
  unfold newContent in H at 2. cbn in H. rewrite <- H. unfold newContent.
  destruct (truthy (currentNew _)) eqn:T.
  - now rewrite concat_snoc, stripTags_insWrap.
  - apply truthy_false in T. rewrite T.
    now rewrite escapeHtml_nil, app_nil_r.
Qed.

(** X3. The loop of [renderSideBySide] loses no text and adds none: the
    lines pushed to the old pane, their tags removed and put one after the
    other, are the escaped source text of the diffs (the equal and the
    deleted texts, in order), and those pushed to the new pane are the
    escaped destination text (the equal and the inserted texts). *)
Theorem panes_hold_the_escaped_texts
    (diff_main : jsstring -> jsstring -> list Diff)
    (diff_cleanupSemantic : list Diff -> list Diff)
    (oldText newText : jsstring) :
  let diffs := diff_cleanupSemantic (diff_main oldText newText) in
  concat (map stripTags (pushedLines true diffs))
  = escapeHtml (diff_text1 diffs)
  /\ concat (map stripTags (pushedLines false diffs))
     = escapeHtml (diff_text2 diffs).
Proof.
  intros diffs. split; [apply pushed_old | apply pushed_new].
Qed.

(** *** The shape of the pushed lines *)

Lemma Forall_snoc {A} (P : A -> Prop) l x :
  Forall P l -> P x -> Forall P (l ++ [x]).
Proof. intros Hl Hx. apply Forall_app. split; [exact Hl | now constructor]. Qed.

Lemma stepLine_shape ty text line isLast p :
  Forall oldPaneLine (leftLines p) /\ Forall newPaneLine (rightLines p) ->
  Forall oldPaneLine (leftLines (stepLine ty text line isLast p))
  /\ Forall newPaneLine (rightLines (stepLine ty text line isLast p)).
Proof.
  intros [HL HR]. unfold stepLine.
  destruct (ty =? 1); [|destruct (ty =? -1)].
  - destruct (negb isLast || _); cbn [leftLines rightLines];
      split; try assumption.
    apply Forall_snoc; [assumption|]. eexists. left. reflexivity.
  - destruct (negb isLast || _); cbn [leftLines rightLines];
      split; try assumption.
    apply Forall_snoc; [assumption|]. eexists. right. reflexivity.
  - cbn [leftLines rightLines]. split.
    + apply Forall_snoc; [|eexists; left; reflexivity].
      destruct (truthy (currentOld p)); [|assumption].
      apply Forall_snoc; [assumption|]. eexists. right. reflexivity.
    + apply Forall_snoc; [|eexists; left; reflexivity].
      destruct (truthy (currentNew p)); [|assumption].
      apply Forall_snoc; [assumption|]. eexists. right. reflexivity.
Qed.

Lemma stepLines_shape ty text lines p :
  Forall oldPaneLine (leftLines p) /\ Forall newPaneLine (rightLines p) ->
  Forall oldPaneLine (leftLines (stepLines ty text lines p))
  /\ Forall newPaneLine (rightLines (stepLines ty text lines p)).
Proof.
  revert p. induction lines as [|line rest IH]; intros p H; [exact H|].
  cbn [stepLines]. apply IH. now apply stepLine_shape.
Qed.

Lemma fold_stepDiff_shape diffs p :
  Forall oldPaneLine (leftLines p) /\ Forall newPaneLine (rightLines p) ->
  Forall oldPaneLine (leftLines (fold_left stepDiff diffs p))
  /\ Forall newPaneLine (rightLines (fold_left stepDiff diffs p)).
Proof.
  revert p. induction diffs as [|[ty text] diffs IH]; intros p H; [exact H|].
  cbn [fold_left]. apply IH. unfold stepDiff. now apply stepLines_shape.
Qed.

(** X4. Every line that [renderSideBySide] pushes to the old pane is
    escaped text, bare or inside the delete wrapper, and every line pushed
    to the new pane is escaped text, bare or inside the insert wrapper: no
    text reaches a pane without escaping, the old pane never gets an insert
    wrapper and the new pane never gets a delete wrapper. *)
Theorem pushed_lines_are_escaped
    (diff_main : jsstring -> jsstring -> list Diff)
    (diff_cleanupSemantic : list Diff -> list Diff)
    (oldText newText : jsstring) :
  let diffs := diff_cleanupSemantic (diff_main oldText newText) in
  Forall (fun l => exists s, l = escapeHtml s \/ l = delWrap (escapeHtml s))
    (pushedLines true diffs)
  /\ Forall (fun l => exists s, l = escapeHtml s \/ l = insWrap (escapeHtml s))
       (pushedLines false diffs).
Proof.
  intros diffs. unfold pushedLines, collectLines. cbn [fst snd].
  destruct (fold_stepDiff_shape diffs emptyPanes) as [HL HR].
  { split; constructor. }
  split.
  - destruct (truthy (currentOld _)); [|exact HL].
    apply Forall_snoc; [exact HL|]. eexists. right. reflexivity.
  - destruct (truthy (currentNew _)); [|exact HR].
    apply Forall_snoc; [exact HR|]. eexists. right. reflexivity.
Qed.

(** *** [renderDiffHtml] *)

Lemma join_nil_concat (ls : list jsstring) : join [] ls = concat ls.
Proof.
  induction ls as [|x ls IH]; [reflexivity|].
  destruct ls as [|y ls]; [simpl; now rewrite app_nil_r|].
  change (join [] (x :: y :: ls)) with (x ++ [] ++ join [] (y :: ls)).
  rewrite IH. reflexivity.
Qed.

Lemma stripTags_pieces diffs :
  stripTagsFrom None (concat (map diffHtmlPiece diffs))
  = escapeHtml (concat (map snd diffs)).
Proof.
  induction diffs as [|[ty text] diffs IH]; [reflexivity|].
  cbn [map concat snd]. rewrite escapeHtml_app, <- IH.
  unfold diffHtmlPiece.
  destruct (ty =? 1); [apply stripTags_insWrap_from|].
  destruct (ty =? -1); [apply stripTags_delWrap_from|].
  apply stripTags_spanWrap_from.
Qed.

(** X5. The markup of [renderDiffHtml], its tags removed, is the escaped
    text of all the diffs in order, inserted and deleted text alike: every
    character of every diff is shown once, inside exactly one element. *)
Theorem renderDiffHtml_shows_every_diff
    (diff_main : jsstring -> jsstring -> list Diff)
    (diff_cleanupSemantic : list Diff -> list Diff)
    (oldText newText : jsstring) :
  stripTags (renderDiffHtml diff_main diff_cleanupSemantic oldText newText)
  = escapeHtml
      (concat (map snd (diff_cleanupSemantic (diff_main oldText newText)))).
Proof.
  unfold renderDiffHtml, renderDiffHtmlOf, stripTags.
  rewrite join_nil_concat. apply stripTags_pieces.
Qed.

(** *** Frontmatter without a closing line *)

Lemma markFrom_open rest :
  (forall l, In l rest -> isDelimiter l = false) ->
  markFrom true true rest = map fmWrap rest.
Proof.
  intros H. induction rest as [|l rest IH]; [reflexivity|].
  simpl. rewrite (H l (or_introl eq_refl)). simpl.
  rewrite IH; [reflexivity|]. intros x Hx. apply H. now right.
Qed.

(** X6. [markFrontmatter] does not look where a [---] line stands: lines
    before the first [---] line stay as they are, that line opens the
    block even when it is not the first line, and when no second [---]
    line follows, every line from it to the end is wrapped. *)
Theorem frontmatter_without_closing
    (pre rest : list jsstring) (d1 : jsstring) :
  (forall l, In l pre -> isDelimiter l = false) ->
  isDelimiter d1 = true ->
  (forall l, In l rest -> isDelimiter l = false) ->
  markFrontmatter (pre ++ d1 :: rest) = pre ++ map fmWrap (d1 :: rest).
Proof.
  intros Hpre Hd1 Hrest. unfold markFrontmatter.
  rewrite markFrom_before by assumption. f_equal.
  simpl. rewrite Hd1. simpl. f_equal. now apply markFrom_open.
Qed.

Lemma frontmatter_without_closing_witness :
  markFrontmatter ([js "title"] ++ js "---" :: [js "body"; js "more"])
  = [js "title"] ++ map fmWrap (js "---" :: [js "body"; js "more"]).
Proof.
  apply (frontmatter_without_closing [js "title"] [js "body"; js "more"]
           (js "---")).
  - intros l [<- | []]. reflexivity.
  - reflexivity.
  - intros l [<- | [<- | []]]; reflexivity.
Defined.

End VersionDiffExtra.

(* ================================================================== *)
(** ** File names: folders, timestamps *)

Module NamesExtra.
Import Async Vault VersionStorage StorageEffects VersionStorageMore.
Import JSNumber JSNumberFacts.

(** *** The extension of a file name *)

Lemma stripExtension_ext base ext :
  ext <> [] ->
  forallb (fun x => negb (N.eqb x 47) && negb (N.eqb x 46)) ext = true ->
  stripExtension (base ++ 46%N :: ext) = base.
Proof.
  intros Hne Hext. induction base as [|c base IH].
  - cbn [app stripExtension]. rewrite N.eqb_refl, Hext.
    destruct ext; [congruence | reflexivity].
  - cbn [app stripExtension]. rewrite IH.
    replace (forallb _ (base ++ 46%N :: ext)) with false.
    + now rewrite !andb_false_r.
    + symmetry. rewrite forallb_app. cbn [forallb].
      rewrite N.eqb_refl. cbn. now rewrite andb_false_r.
Qed.

Lemma stripExtension_no_dot s :
  ~ In 46%N s -> stripExtension s = s.
Proof.
  induction s as [|c s IH]; intros H; [reflexivity|].
  cbn [stripExtension].
  destruct (N.eqb c 46) eqn:E.
  - apply N.eqb_eq in E. subst c. exfalso. apply H. now left.
  - cbn. f_equal. apply IH. intros Hin. apply H. now right.
Qed.

(** X7. The version folder of a document is made from its file name
    without the last extension and from nothing else: names that differ
    in the extension only (of one or more characters other than a dot and
    a slash) have the same version folder, and a name without a dot is
    taken as it is. *)
Theorem version_folder_ignores_extension
    (settings : VersionViewSettings) (base ext : jsstring) :
  ext <> [] ->
  forallb (fun x => negb (N.eqb x 47) && negb (N.eqb x 46)) ext = true ->
  getVersionFolder settings (base ++ 46%N :: ext)
  = storageFolder settings ++ slash ++ base
  /\ (~ In 46%N base ->
      getVersionFolder settings base
      = getVersionFolder settings (base ++ 46%N :: ext)).
Proof.
  intros Hne Hext. unfold getVersionFolder.
  rewrite stripExtension_ext by assumption. split; [reflexivity|].
  intros Hb. now rewrite stripExtension_no_dot.
Qed.

Lemma version_folder_ignores_extension_witness :
  getVersionFolder Scenario.DEFAULT_SETTINGS (js "a.b" ++ 46%N :: js "md")
  = storageFolder Scenario.DEFAULT_SETTINGS ++ slash ++ js "a.b"
  /\ (~ In 46%N (js "a.b") ->
      getVersionFolder Scenario.DEFAULT_SETTINGS (js "a.b")
      = getVersionFolder Scenario.DEFAULT_SETTINGS
          (js "a.b" ++ 46%N :: js "md")).
Proof.
  apply (version_folder_ignores_extension Scenario.DEFAULT_SETTINGS
           (js "a.b") (js "md")).
  - discriminate.
  - reflexivity.
Defined.

(** *** Reading back a printed number *)

Lemma js_String a s : js (String a s) = N_of_ascii a :: js s.
Proof. reflexivity. Qed.

Local Abbreviation digits d := (js (NilEmpty.string_of_uint d)).

Lemma readDigits_acc d acc :
  readDigits 10 (Some (Zpos acc)) (digits d)
  = Some (Zpos (Pos.of_uint_acc d acc)).
Proof.
  revert acc. induction d; intros acc;
    [reflexivity | cbn [NilEmpty.string_of_uint Pos.of_uint_acc];
                   rewrite js_String; cbn [readDigits];
                   match goal with
                   | |- context [digitValue 10 ?c] =>
                       let v := eval vm_compute in (digitValue 10 c) in
                       change (digitValue 10 c) with v
                   end; cbv iota beta;
                   match goal with
                   | |- readDigits 10 (Some ?z) _ = Some (Zpos (Pos.of_uint_acc _ ?p)) =>
                       replace z with (Zpos p) by lia
                   end; apply IHd ..].
Qed.

Lemma readDigits_zero d :
  readDigits 10 (Some 0) (digits d) = Some (Z.of_N (Pos.of_uint d)).
Proof.
  induction d;
    [reflexivity | cbn [NilEmpty.string_of_uint Pos.of_uint];
                   rewrite js_String; cbn [readDigits];
                   match goal with
                   | |- context [digitValue 10 ?c] =>
                       let v := eval vm_compute in (digitValue 10 c) in
                       change (digitValue 10 c) with v
                   end; cbv iota beta;
                   first [ exact IHd
                         | match goal with
                           | |- readDigits 10 (Some ?z) _ = Some (Z.of_N (Npos (Pos.of_uint_acc _ ?p))) =>
                               change z with (Zpos p); apply readDigits_acc
                           end ] ..].
Qed.



Lemma readDigits_start d :
  d <> Decimal.Nil ->
  readDigits 10 None (digits d) = readDigits 10 (Some 0) (digits d).
Proof.
  destruct d; [congruence | reflexivity ..].
Qed.

Lemma parseInt_digits d :
  d <> Decimal.Nil ->
  parseInt (digits d) = Some (Z.of_N (Pos.of_uint d)).
Proof.
  intros Hd.
  assert (R : readDigits 10 None (digits d) = Some (Z.of_N (Pos.of_uint d))).
  { rewrite (readDigits_start d Hd). apply readDigits_zero. }
  assert (Z1 : forall n : Z, 1 * n = n) by (intros; lia).
  destruct d as [|d|d|d|d|d|d|d|d|d|d]; [congruence | ..];
    try (unfold parseInt;
         cbn [NilEmpty.string_of_uint] in *; rewrite js_String in *;
         match goal with
         | |- context [N_of_ascii ?a] =>
             let v := eval vm_compute in (N_of_ascii a) in
             change (N_of_ascii a) with v in *
         end;
         cbn [trimStart];
         match goal with
         | |- context [isWhite ?c] =>
             let v := eval vm_compute in (isWhite c) in
             change (isWhite c) with v
         end; cbv iota beta;
         rewrite R, Z1; reflexivity).
  (* a leading zero: the next character is no x *)
  destruct d as [|d|d|d|d|d|d|d|d|d|d];
    unfold parseInt;
    cbn [NilEmpty.string_of_uint] in *; rewrite !js_String in *;
    repeat match goal with
           | |- context [N_of_ascii ?a] =>
               let v := eval vm_compute in (N_of_ascii a) in
               change (N_of_ascii a) with v in *
           end;
    cbn [trimStart];
    match goal with
    | |- context [isWhite ?c] =>
        let v := eval vm_compute in (isWhite c) in
        change (isWhite c) with v
    end; cbv iota beta;
    first [rewrite R, Z1; reflexivity | reflexivity].
Qed.

Lemma parseInt_toString n : parseInt (toString n) = Some n.
Proof.
  unfold toString. destruct n as [|p|p].
  - reflexivity.
  - cbn [Z.to_int NilZero.string_of_int].
    pose proof (DecimalPos.Unsigned.to_uint_nonnil p) as Hp.
    replace (NilZero.string_of_uint (Pos.to_uint p))
      with (NilEmpty.string_of_uint (Pos.to_uint p))
      by (destruct (Pos.to_uint p); [congruence | reflexivity ..]).
    rewrite (parseInt_digits _ Hp), DecimalPos.Unsigned.of_to.
    reflexivity.
  - cbn [Z.to_int NilZero.string_of_int].
    pose proof (DecimalPos.Unsigned.to_uint_nonnil p) as Hp.
    replace (NilZero.string_of_uint (Pos.to_uint p))
      with (NilEmpty.string_of_uint (Pos.to_uint p))
      by (destruct (Pos.to_uint p); [congruence | reflexivity ..]).
    pose proof (parseInt_digits _ Hp) as P.
    rewrite DecimalPos.Unsigned.of_to in P.
    rewrite js_String.
    unfold parseInt in *.
    change (N_of_ascii "-") with 45%N.
    cbn [trimStart].
    change (isWhite 45) with false. cbv iota beta.
    assert (T : trimStart (digits (Pos.to_uint p)) = digits (Pos.to_uint p)).
    { destruct (Pos.to_uint p); [congruence | reflexivity ..]. }
    rewrite T in P.
    assert (S : match digits (Pos.to_uint p) with
                | 45%N :: r => (-1, r)
                | 43%N :: r => (1, r)
                | _ => (1, digits (Pos.to_uint p))
                end = (1, digits (Pos.to_uint p))).
    { destruct (Pos.to_uint p); [congruence | reflexivity ..]. }
    rewrite S in P.
    destruct (match digits (Pos.to_uint p) with
              | 48%N :: 120%N :: r => (16, r)
              | 48%N :: 88%N :: r => (16, r)
              | _ => (10, digits (Pos.to_uint p))
              end) as [radix s3].
    destruct (readDigits radix None s3) as [n|]; [|discriminate].
    injection P as P.
    assert (E : n = Z.pos p) by (destruct n; exact P).
    now subst n.
Qed.


(** *** The name of a content file and the loops that parse it *)

Lemma replaceFirst_eq pat rep s :
  replaceFirst pat rep s
  = if startsWith s pat then rep ++ skipn (length pat) s
    else match s with
         | [] => []
         | c :: r => c :: replaceFirst pat rep r
         end.
Proof. now destruct s. Qed.

Lemma replaceFirst_prefix pat s :
  replaceFirst pat [] (pat ++ s) = s.
Proof.
  rewrite replaceFirst_eq, startsWith_app. apply skipn_length_app.
Qed.

Lemma replaceFirst_suffix c pat a :
  ~ In c a ->
  replaceFirst (c :: pat) [] (a ++ c :: pat) = a.
Proof.
  intros Ha. induction a as [|x a IH].
  - pose proof (replaceFirst_prefix (c :: pat) []) as H.
    now rewrite app_nil_r in H.
  - rewrite replaceFirst_eq. cbn [app startsWith].
    destruct (N.eqb x c) eqn:E.
    + apply N.eqb_eq in E. subst x. exfalso. apply Ha. now left.
    + cbn [andb]. f_equal. apply IH. intros H. apply Ha. now right.
Qed.

Lemma split_no_sep sep s : ~ In sep s -> split sep s = [s].
Proof.
  induction s as [|c s IH]; intros H; [reflexivity|].
  cbn [split]. destruct (N.eqb c sep) eqn:E.
  - apply N.eqb_eq in E. subst c. exfalso. apply H. now left.
  - rewrite IH; [reflexivity|]. intros Hin. apply H. now right.
Qed.

Lemma split_at_sep sep a b :
  ~ In sep a -> split sep (a ++ sep :: b) = a :: split sep b.
Proof.
  induction a as [|c a IH]; intros H.
  - cbn [app split]. now rewrite N.eqb_refl.
  - cbn [app split]. destruct (N.eqb c sep) eqn:E.
    + apply N.eqb_eq in E. subst c. exfalso. apply H. now left.
    + rewrite IH; [reflexivity|]. intros Hin. apply H. now right.
Qed.

Lemma endsWith_app a pat : endsWith (a ++ pat) pat = true.
Proof.
  unfold endsWith. rewrite rev_app_distr. apply startsWith_app.
Qed.

Lemma toString_no_dot z : ~ In 46%N (toString z).
Proof.
  intros H. apply toString_chars in H. lia.
Qed.

Lemma toString_no_slash z : ~ In 47%N (toString z).
Proof.
  intros H. apply toString_chars in H. lia.
Qed.

Lemma encodes_versionFilename now vid ts :
  encodesTimestamp (versionFilename now vid) ts = (now =? ts).
Proof.
  unfold encodesTimestamp, versionFilename.
  rewrite startsWith_app.
  replace (js "version_" ++ toString now ++ js "_" ++ toString vid
             ++ js ".md")
    with ((js "version_" ++ toString now ++ js "_" ++ toString vid)
            ++ js ".md")
    by now rewrite <- !app_assoc.
  rewrite endsWith_app. cbn [andb].
  rewrite <- !app_assoc, replaceFirst_prefix.
  replace (toString now ++ js "_" ++ toString vid ++ js ".md")
    with ((toString now ++ js "_" ++ toString vid) ++ 46%N :: js "md")
    by now rewrite <- !app_assoc.
  change (js ".md") with (46%N :: js "md").
  rewrite replaceFirst_suffix.
  2:{ rewrite !in_app_iff. intros [H | [H | H]].
      - now apply toString_no_dot in H.
      - destruct H as [H | []]. discriminate.
      - now apply toString_no_dot in H. }
  change (js "_" ++ toString vid) with (95%N :: toString vid).
  rewrite split_at_sep by apply toString_no_underscore.
  rewrite split_no_sep by apply toString_no_underscore.
  cbn [length Nat.leb hd]. now rewrite parseInt_toString.
Qed.

(** X8. The name that [saveVersion] gives to a content file is read back
    by the loops of [getVersionContent] and [deleteVersion]: the number
    they parse out of the name is the timestamp of the save, whatever
    the random number is, negative clock readings included. *)
Theorem content_file_name_encodes_its_timestamp (now vid ts : Z) :
  parseInt (toString now) = Some now
  /\ encodesTimestamp (versionFilename now vid) ts = (now =? ts).
Proof.
  split; [apply parseInt_toString | apply encodes_versionFilename].
Qed.

End NamesExtra.
(* ================================================================== *)
(** ** The store after a series of saves *)

Module StoreExtra.
Import Async Vault VersionStorage StorageEffects VersionStorageMore.
Import JSNumber JSNumberFacts VaultFacts ArrayFacts StorageFacts NamesExtra.

Section Store.
Variable JSON_stringify : VersionIndex -> jsstring.
Variable JSON_parse : jsstring -> option VersionIndex.
Variable settings : VersionViewSettings.
Variable file : TFile.t.
Hypothesis parse_stringify :
  forall index, JSON_parse (JSON_stringify index) = Some index.

Local Abbreviation fname := (TFile.name file).
Local Abbreviation fdir := (getVersionFolder settings (TFile.name file)).
Local Abbreviation idx := (getIndexFilePath settings (TFile.name file)).
Local Abbreviation cp r :=
  (contentPath settings (TFile.name file) (savedAt r) (randomId r)).
Local Abbreviation index_of v :=
  (indexOf JSON_parse settings v (TFile.name file)).
Local Abbreviation listed v := (map timestamp (versions (index_of v))).
Local Abbreviation after_delete ts v :=
  (afterDelete JSON_stringify JSON_parse settings (TFile.name file) ts v).
Local Abbreviation delete_all gone v :=
  (fold_left (fun acc m => after_delete (timestamp m) acc) gone v).
Local Abbreviation well_stored :=
  (wellStored JSON_parse settings file).
Local Abbreviation contents_kept :=
  (contentsKept JSON_parse settings file).
Local Abbreviation after_save :=
  (afterSave JSON_stringify JSON_parse settings file).
Local Abbreviation mk v ns := {| files := v; notices := ns |}.

(** *** One call of [saveVersion], as a function on the vault *)

Lemma saveVersion_run r v ns content :
  lookup (TFile.path file) v = Some (FileNode content) ->
  lookup (cp r) (ensured fdir v) = None ->
  lookup idx v <> Some FolderNode ->
  saveVersion JSON_stringify JSON_parse settings
    (savedAt r) (randomId r) file (givenName r) (givenDescription r)
    (mk v ns)
  = (Return (metaOf file r), mk (after_save r v) ns).
Proof.
  intros Hdoc Hcp HI.
  unfold afterSave. rewrite Hdoc. cbv zeta.
  set (v2 := addNode (cp r) (FileNode content) (ensured fdir v)).
  assert (HI2 : lookup idx v2 = lookup idx v).
  { unfold v2. rewrite lookup_addNode.
    rewrite (lookup_ensured_other fdir _ v
               (indexPath_not_folderPath settings fname)).
    destruct (lookup idx v); [reflexivity|].
    destruct (eqb (cp r) idx) eqn:E; [|reflexivity].
    apply eqb_eq in E. now apply contentPath_not_index in E. }
  set (index1 := {| versions := metaOf file r :: versions (index_of v2);
                    lastUpdated := savedAt r |}).
  set (v3 := written idx (JSON_stringify index1) (ensured fdir v2)).
  assert (HI3 : lookup idx v3 = Some (FileNode (JSON_stringify index1))).
  { apply lookup_written_self.
    rewrite (lookup_ensured_other fdir _ v2
               (indexPath_not_folderPath settings fname)).
    now rewrite HI2. }
  assert (HI3' : lookup idx v3 <> Some FolderNode)
    by (rewrite HI3; discriminate).
  assert (Hidx3 : index_of v3 = index1)
    by now apply (indexOf_written JSON_stringify JSON_parse settings
                    parse_stringify).
  unfold saveVersion.
  run_with (read_run (TFile.path file) v ns content Hdoc).
  run_with ensureFolderExists_run.
  change (fdir ++ slash ++ js "version_"
            ++ JSNumber.toString (savedAt r) ++ js "_"
            ++ JSNumber.toString (randomId r) ++ js ".md") with (cp r).
  run_with (create_run (cp r) content (ensured fdir v) ns Hcp).
  fold v2.
  run_with readVersionIndex_run.
  assert (HW : lookup idx v2 <> Some FolderNode) by now rewrite HI2.
  match goal with
  | |- context [writeVersionIndex ?a ?b ?c ?d] =>
      change (writeVersionIndex a b c d)
        with (writeVersionIndex a b c index1)
  end.
  run_with (writeVersionIndex_run JSON_stringify settings fname index1 v2 ns
              HW).
  fold v3.
  pose proof (cleanupOldVersions_run JSON_stringify JSON_parse settings
                file v3 ns HI3') as C.
  rewrite Hidx3 in C.
  run_with C. reflexivity.
Qed.

(** *** Content files among the children of the version folder *)

Lemma versionFilename_no_slash now vid :
  existsb (N.eqb 47) (versionFilename now vid) = false.
Proof.
  destruct (existsb (N.eqb 47) (versionFilename now vid)) eqn:E;
    [|reflexivity].
  apply existsb_exists in E as (c & Hc & E). apply N.eqb_eq in E. subst c.
  unfold versionFilename in Hc. rewrite !in_app_iff in Hc.
  destruct Hc as [H | [H | [H | [H | H]]]].
  - vm_compute in H. intuition discriminate.
  - now apply toString_no_slash in H.
  - vm_compute in H. intuition discriminate.
  - now apply toString_no_slash in H.
  - vm_compute in H. intuition discriminate.
Qed.

Lemma contentPath_name f now vid :
  contentPath settings f now vid
  = getVersionFolder settings f ++ slash ++ versionFilename now vid.
Proof. reflexivity. Qed.

Lemma childOf_content f now vid :
  childOf (getVersionFolder settings f) (contentPath settings f now vid)
  = Some (versionFilename now vid).
Proof.
  rewrite contentPath_name. unfold childOf.
  rewrite app_assoc, startsWith_app, skipn_length_app.
  now rewrite versionFilename_no_slash.
Qed.

Lemma children_complete F v q n :
  lookup q v <> None -> childOf F q = Some n ->
  In {| childName := n; childPath := q |} (children F v).
Proof.
  intros Hq Hn. induction v as [|[p m] v IH]; simpl in *; [congruence|].
  destruct (eqb p q) eqn:E.
  - apply eqb_eq in E. subst p. rewrite Hn. now left.
  - destruct (childOf F p); [right|]; now apply IH.
Qed.

Lemma NoDup_map_eq {A B} (f : A -> B) l x y :
  NoDup (map f l) -> In x l -> In y l -> f x = f y -> x = y.
Proof.
  induction l as [|a l IH]; simpl; [tauto|].
  intros H Hx Hy E. inversion H as [|? ? Ha Hl]; subst.
  destruct Hx as [-> | Hx], Hy as [-> | Hy]; try reflexivity.
  - exfalso. apply Ha. rewrite E. now apply in_map.
  - exfalso. apply Ha. rewrite <- E. now apply in_map.
  - now apply IH.
Qed.

(** Below the version folder there is the index and content files of the
    requests [saved], nothing else. *)
Local Abbreviation only_saved saved v :=
  (forall q, startsWith q (fdir ++ slash) = true -> lookup q v <> None ->
             q = idx \/ exists r, In r saved /\ q = cp r).

Lemma encoding_child saved v c ts :
  only_saved saved v ->
  In c (children fdir v) ->
  encodesTimestamp (childName c) ts = true ->
  exists r, In r saved /\ savedAt r = ts /\ childPath c = cp r.
Proof.
  intros Hbelow Hc He.
  pose proof (children_path _ _ _ Hc) as P.
  destruct (Hbelow (childPath c)) as [H | (r & Hr & H)].
  - rewrite P, app_assoc. apply startsWith_app.
  - now apply children_present in Hc.
  - exfalso. rewrite P in H. unfold getIndexFilePath in H.
    change (js "/versions.json") with (slash ++ js "versions.json") in H.
    apply app_inv_head in H. apply app_inv_head in H.
    rewrite H, index_name_encodes_nothing in He. discriminate.
  - exists r. split; [exact Hr|]. split; [|exact H].
    rewrite P, contentPath_name in H.
    apply app_inv_head in H. apply app_inv_head in H.
    rewrite H, encodes_versionFilename in He. now apply Z.eqb_eq in He.
Qed.

Lemma firstMatch_content saved v r :
  only_saved saved v ->
  NoDup (map savedAt saved) ->
  In r saved ->
  lookup (cp r) v <> None ->
  exists c, firstMatch (savedAt r) (children fdir v) = Some c
            /\ childPath c = cp r.
Proof.
  intros Hbelow Hnd Hr Hp. unfold firstMatch.
  destruct (find _ _) as [c|] eqn:E.
  - exists c. split; [reflexivity|].
    apply find_some in E as [Hc He].
    destruct (encoding_child saved v c (savedAt r) Hbelow Hc He)
      as (r' & Hr' & Ets & Hpath).
    now rewrite (NoDup_map_eq savedAt saved r' r Hnd Hr' Hr Ets) in Hpath.
  - exfalso.
    pose proof (children_complete fdir v (cp r) _ Hp
                  (childOf_content fname (savedAt r) (randomId r))) as Hc.
    apply (find_none _ _ E) in Hc. cbn [childName] in Hc.
    now rewrite encodes_versionFilename, Z.eqb_refl in Hc.
Qed.

(** *** What a deletion does to the content files *)

Lemma afterDelete_keeps_content now vid ts v :
  now <> ts ->
  lookup (contentPath settings fname now vid) (after_delete ts v)
  = lookup (contentPath settings fname now vid) v.
Proof.
  intros Hne. unfold afterDelete.
  set (q := contentPath settings fname now vid).
  set (v1 := written _ _ _).
  assert (L : lookup q v1 = lookup q v).
  { unfold v1. rewrite lookup_written_other.
    - apply lookup_ensured_other, below_not_folder, contentPath_below.
    - apply eqb_neq. intros E. symmetry in E.
      now apply contentPath_not_index in E. }
  destruct (lookup fdir v1) as [[d|]|]; try exact L.
  destruct (firstMatch ts (children fdir v1)) as [c|] eqn:E; [|exact L].
  apply find_some in E as [Hc He].
  rewrite lookup_removePath.
  replace (within (childPath c) q) with false; [exact L|].
  symmetry. unfold within. apply orb_false_iff.
  rewrite (children_path _ _ _ Hc). unfold q. rewrite contentPath_name.
  split.
  - apply eqb_neq. intros H.
    apply app_inv_head in H. apply app_inv_head in H.
    rewrite <- H, encodes_versionFilename in He.
    apply Z.eqb_eq in He. contradiction.
  - match goal with |- ?x = false => destruct x eqn:S end; [|reflexivity].
    apply startsWith_iff in S as [rest S].
    rewrite <- !app_assoc in S.
    apply app_inv_head in S. apply app_inv_head in S.
    pose proof (versionFilename_no_slash now vid) as N.
    rewrite S, existsb_app in N. apply orb_false_iff in N as [_ N].
    discriminate.
Qed.

Lemma delete_all_keeps_content now vid gone v :
  ~ In now (map timestamp gone) ->
  lookup (contentPath settings fname now vid) (delete_all gone v)
  = lookup (contentPath settings fname now vid) v.
Proof.
  revert v. induction gone as [|m gone IH]; intros v H; [reflexivity|].
  cbn [fold_left]. rewrite IH.
  - apply afterDelete_keeps_content. intros E. apply H. now left.
  - intros Hin. apply H. now right.
Qed.

Lemma only_saved_afterDelete saved ts v :
  only_saved saved v -> only_saved saved (after_delete ts v).
Proof.
  intros Hbelow q Hq Hp.
  apply (afterDelete_present_below JSON_stringify JSON_parse settings
           fname ts v q Hq) in Hp as [Hp | Hp]; [now left|].
  now apply Hbelow.
Qed.

Lemma folder_afterDelete ts v :
  lookup fdir v = Some FolderNode ->
  lookup fdir (after_delete ts v) = Some FolderNode.
Proof.
  intros H. rewrite afterDelete_lookup_kept; [exact H | | congruence].
  apply startsWith_self_app_false. discriminate.
Qed.

Lemma afterDelete_removes_content saved r v :
  only_saved saved v ->
  NoDup (map savedAt saved) ->
  In r saved ->
  lookup fdir v = Some FolderNode ->
  lookup idx v <> Some FolderNode ->
  lookup (cp r) (after_delete (savedAt r) v) = None.
Proof.
  intros Hbelow Hnd Hr HF HI.
  destruct (lookup (cp r) v) eqn:Hp.
  2:{ destruct (lookup (cp r) (after_delete (savedAt r) v)) eqn:E;
        [|reflexivity].
      exfalso.
      destruct (afterDelete_present_below JSON_stringify JSON_parse settings
                  fname (savedAt r) v (cp r)) as [H | H].
      - apply contentPath_below.
      - congruence.
      - now apply contentPath_not_index in H.
      - congruence. }
  unfold afterDelete.
  set (v1 := written _ _ _).
  assert (Other : forall q, eqb idx q = false -> eqb fdir q = false ->
                            lookup q v1 = lookup q v).
  { intros q E1 E2. unfold v1.
    now rewrite lookup_written_other, lookup_ensured_other. }
  assert (HF1 : lookup fdir v1 = Some FolderNode).
  { unfold v1. rewrite lookup_written_other.
    - now rewrite lookup_ensured_self, HF.
    - rewrite eqb_sym. apply indexPath_not_folderPath. }
  assert (Hbelow1 : only_saved saved v1).
  { intros q Hq Hq1. destruct (eqb idx q) eqn:E.
    - apply eqb_eq in E. now left.
    - apply Hbelow; [exact Hq|].
      now rewrite <- (Other q E (below_not_folder _ _ Hq)). }
  assert (Hp1 : lookup (cp r) v1 <> None).
  { rewrite Other.
    - congruence.
    - apply eqb_neq. intros E. symmetry in E.
      now apply contentPath_not_index in E.
    - apply below_not_folder, contentPath_below. }
  rewrite HF1.
  destruct (firstMatch_content saved v1 r Hbelow1 Hnd Hr Hp1)
    as (c & -> & ->).
  rewrite lookup_removePath. unfold within. now rewrite eqb_refl.
Qed.

Lemma delete_all_removes_content saved gone r v :
  only_saved saved v ->
  NoDup (map savedAt saved) ->
  In r saved ->
  lookup fdir v = Some FolderNode ->
  lookup idx v <> Some FolderNode ->
  In (savedAt r) (map timestamp gone) ->
  lookup (cp r) (delete_all gone v) = None.
Proof.
  intros Hbelow Hnd Hr. revert v Hbelow.
  induction gone as [|m gone IH]; intros v Hbelow HF HI Hin;
    [destruct Hin|].
  cbn [fold_left].
  destruct (in_dec Z.eq_dec (savedAt r) (map timestamp gone)) as [Hg | Hg].
  - apply IH.
    + now apply only_saved_afterDelete.
    + now apply folder_afterDelete.
    + rewrite afterDelete_lookup_index by exact HI. discriminate.
    + exact Hg.
  - destruct Hin as [E | Hin]; [|contradiction].
    rewrite delete_all_keeps_content by exact Hg.
    rewrite E. now apply (afterDelete_removes_content saved).
Qed.

(** *** An edit of the document between two saves *)

Lemma lookup_setData_other p q d v :
  eqb p q = false -> lookup q (setData p d v) = lookup q v.
Proof.
  intros E. now rewrite lookup_setData, E.
Qed.

Lemma indexOf_edit text v :
  startsWith (TFile.path file) (fdir ++ slash) = false ->
  index_of (setData (TFile.path file) text v) = index_of v.
Proof.
  intros Hout. unfold indexOf. rewrite lookup_setData_other; [reflexivity|].
  apply eqb_neq. intros E. rewrite E in Hout.
  now rewrite indexPath_below in Hout.
Qed.

Lemma below_edit text v q :
  startsWith (TFile.path file) (fdir ++ slash) = false ->
  startsWith q (fdir ++ slash) = true ->
  lookup q (setData (TFile.path file) text v) = lookup q v.
Proof.
  intros Hout Hq. apply lookup_setData_other.
  apply eqb_neq. intros E. congruence.
Qed.

Lemma wellStored_edit saved text v :
  well_stored saved v ->
  well_stored saved (setData (TFile.path file) text v).
Proof.
  intros (Hidx & HI & (content & Hdoc) & Hout & Hbelow).
  repeat split.
  - now rewrite indexOf_edit.
  - rewrite below_edit; [exact HI | exact Hout | apply indexPath_below].
  - exists text. now rewrite lookup_setData, eqb_refl, Hdoc.
  - exact Hout.
  - intros q Hq Hp. rewrite below_edit in Hp by assumption.
    now apply Hbelow.
Qed.

Lemma contentsKept_edit saved old text v :
  startsWith (TFile.path file) (fdir ++ slash) = false ->
  lookup (TFile.path file) v = Some (FileNode old) ->
  contents_kept saved v ->
  contents_kept saved (setData (TFile.path file) text v).
Proof.
  intros Hout Hdoc (K1 & K2 & K3 & K4).
  assert (HF : lookup fdir (setData (TFile.path file) text v)
               = lookup fdir v).
  { apply lookup_setData_other. apply eqb_neq. intros E.
    rewrite E in Hdoc. now apply K1 in Hdoc. }
  unfold contentsKept. cbv zeta. rewrite HF, indexOf_edit by exact Hout.
  repeat split; try assumption.
  - intros t r Hin Hl.
    rewrite below_edit; [now apply K3 | exact Hout | apply contentPath_below].
  - intros t r Hin Hp.
    rewrite below_edit in Hp;
      [now apply (K4 t) | exact Hout | apply contentPath_below].
Qed.

Lemma dropTimestamps_In ts gone l :
  In ts (map timestamp (dropTimestamps gone l))
  <-> In ts (map timestamp l) /\ ~ In ts (map timestamp gone).
Proof.
  rewrite dropTimestamps_filter, !in_map_iff. split.
  - intros (m & E & Hm). apply filter_In in Hm as [Hm Hk].
    split; [now exists m|].
    intros (g & Eg & Hg). apply negb_true_iff in Hk.
    assert (X : existsb (fun m0 => timestamp m =? timestamp m0) gone = true).
    { apply existsb_exists. exists g. split; [exact Hg|].
      apply Z.eqb_eq. congruence. }
    congruence.
  - intros ((m & E & Hm) & Hg). exists m. split; [exact E|].
    apply filter_In. split; [exact Hm|].
    apply negb_true_iff.
    destruct (existsb _ gone) eqn:X; [|reflexivity].
    apply existsb_exists in X as (g & Hg' & Eg). apply Z.eqb_eq in Eg.
    exfalso. apply Hg. exists g. split; congruence.
Qed.

(** *** One edit and one save *)

Lemma save_step saved text r v ns :
  0 <= maxVersions settings ->
  well_stored (map snd saved) v ->
  contents_kept saved v ->
  NoDup (map savedAt (map snd saved ++ [r])) ->
  exists v',
    bind (modify (TFile.path file) text)
      (fun _ =>
         saveVersion JSON_stringify JSON_parse settings
           (savedAt r) (randomId r) file (givenName r) (givenDescription r))
      (mk v ns)
    = (Return (metaOf file r), mk v' ns)
    /\ well_stored (map snd (saved ++ [(text, r)])) v'
    /\ contents_kept (saved ++ [(text, r)]) v'.
Proof.
  intros HM W K Hnd.
  pose proof W as (_ & _ & (old & Hdoc) & Hout & _).
  set (va := setData (TFile.path file) text v).
  assert (Wa : well_stored (map snd saved) va) by now apply wellStored_edit.
  assert (Ka : contents_kept saved va)
    by now apply (contentsKept_edit saved old).
  assert (Hdoca : lookup (TFile.path file) va = Some (FileNode text)).
  { unfold va. now rewrite lookup_setData, eqb_refl, Hdoc. }
  destruct (saveVersion_step JSON_stringify JSON_parse settings
              parse_stringify file (map snd saved) r va ns HM Wa Hnd)
    as (v' & S & W').
  destruct Wa as (Hidx & HI & _ & _ & Hbelow).
  assert (Hnd0 : NoDup (map savedAt (map snd saved))).
  { rewrite map_app in Hnd. now apply NoDup_app_remove_r in Hnd. }
  assert (Hfresh : ~ In (savedAt r) (map savedAt (map snd saved))).
  { rewrite map_app in Hnd. intros Hin.
    apply (NoDup_app_disjoint _ _ (savedAt r) Hnd Hin). now left. }
  assert (Hcp : lookup (cp r) (ensured fdir va) = None).
  { rewrite (lookup_ensured_other fdir (cp r) va)
      by apply below_not_folder, contentPath_below.
    destruct (lookup (cp r) va) eqn:E; [|reflexivity]. exfalso.
    destruct (Hbelow (cp r) (contentPath_below _ _ _ _))
      as [H | (r' & Hr' & H)].
    - congruence.
    - now apply contentPath_not_index in H.
    - apply contentPath_inj in H. apply Hfresh. rewrite H.
      now apply in_map. }
  rewrite (saveVersion_run r va ns text Hdoca Hcp HI) in S.
  injection S as <-.
  exists (after_save r va). split; [|split].
  - rewrite bind_unfold. unfold modify. cbn [files]. rewrite Hdoc.
    cbv iota beta. unfold setFiles. cbn [files notices]. fold va.
    apply (saveVersion_run r va ns text Hdoca Hcp HI).
  - now rewrite map_app.
  - destruct Ka as (K1 & K2 & K3 & K4).
    unfold contentsKept. cbv zeta.
    unfold afterSave in *. rewrite Hdoca in *. cbv zeta in *.
    set (v2 := addNode (cp r) (FileNode text) (ensured fdir va)) in *.
    set (index1 := {| versions := metaOf file r :: versions (index_of v2);
                      lastUpdated := savedAt r |}) in *.
    set (v3 := written idx (JSON_stringify index1) (ensured fdir v2)) in *.
    set (gone := toDelete settings index1) in *.
    assert (Below2 : forall q, startsWith q (fdir ++ slash) = true ->
              lookup q v2
              = match lookup q va with
                | Some x => Some x
                | None => if eqb (cp r) q then Some (FileNode text)
                          else None
                end).
    { intros q Hq. unfold v2. rewrite lookup_addNode.
      now rewrite (lookup_ensured_other fdir q va
                     (below_not_folder _ _ Hq)). }
    assert (HI2 : lookup idx v2 = lookup idx va).
    { rewrite Below2 by apply indexPath_below.
      destruct (lookup idx va); [reflexivity|].
      destruct (eqb (cp r) idx) eqn:E; [|reflexivity].
      apply eqb_eq in E. now apply contentPath_not_index in E. }
    assert (Hidx2 : index_of v2 = index_of va)
      by (unfold indexOf; now rewrite HI2).
    assert (HI3 : lookup idx v3 = Some (FileNode (JSON_stringify index1))).
    { apply lookup_written_self.
      rewrite (lookup_ensured_other fdir _ v2
                 (indexPath_not_folderPath settings fname)).
      now rewrite HI2. }
    assert (HI3' : lookup idx v3 <> Some FolderNode)
      by (rewrite HI3; discriminate).
    assert (Hidx3 : index_of v3 = index1)
      by now apply (indexOf_written JSON_stringify JSON_parse settings
                      parse_stringify).
    assert (Below3 : forall q, startsWith q (fdir ++ slash) = true ->
              eqb idx q = false -> lookup q v3 = lookup q v2).
    { intros q Hq E. unfold v3. rewrite lookup_written_other by exact E.
      apply lookup_ensured_other. now apply below_not_folder. }
    assert (HF3 : lookup fdir v3 = Some FolderNode).
    { unfold v3. rewrite lookup_written_other
        by (rewrite eqb_sym; apply indexPath_not_folderPath).
      rewrite lookup_ensured_self.
      assert (HF2 : lookup fdir v2 = Some FolderNode).
      { unfold v2. rewrite lookup_addNode, lookup_ensured_self.
        destruct (lookup fdir va) as [[d|]|] eqn:E; try reflexivity.
        exfalso. now apply (K1 d). }
      now rewrite HF2. }
    assert (HF' : lookup fdir (delete_all gone v3) = Some FolderNode).
    { rewrite delete_all_lookup_kept; [exact HF3 | | congruence].
      apply startsWith_self_app_false. discriminate. }
    assert (Only3 : only_saved (map snd saved ++ [r]) v3).
    { intros q Hq Hp. destruct (eqb idx q) eqn:E.
      { apply eqb_eq in E. now left. }
      rewrite (Below3 q Hq E), (Below2 q Hq) in Hp.
      destruct (lookup q va) eqn:Eq.
      - destruct (Hbelow q Hq) as [H | (r' & Hr' & H)].
        + congruence.
        + now left.
        + right. exists r'. split; [|exact H]. apply in_or_app. now left.
      - destruct (eqb (cp r) q) eqn:Ec; [|congruence].
        apply eqb_eq in Ec. right. exists r. split; [|now symmetry].
        apply in_or_app. right. now left. }
    assert (Listed : forall ts,
              In ts (listed (delete_all gone v3))
              <-> (ts = savedAt r \/ In ts (listed va))
                  /\ ~ In ts (map timestamp gone)).
    { intros ts.
      destruct (indexOf_delete_all JSON_stringify JSON_parse settings
                  parse_stringify fname gone v3 HI3') as [E _].
      rewrite E, Hidx3, dropTimestamps_In. cbn [versions index1 map In].
      rewrite Hidx2. cbn [timestamp metaOf]. intuition. }
    assert (Content3 : forall r', lookup (cp r') v3 = lookup (cp r') v2).
    { intros r'. apply Below3; [apply contentPath_below|].
      apply eqb_neq. intros E. symmetry in E.
      now apply contentPath_not_index in E. }
    repeat split.
    + intros d. rewrite HF'. discriminate.
    + intros _. exact HF'.
    + intros t r' Hin Hl. apply Listed in Hl as [Hl Hg].
      rewrite delete_all_keeps_content by exact Hg.
      rewrite Content3, Below2 by apply contentPath_below.
      apply in_app_or in Hin as [Hin | [[= <- <-] | []]].
      * assert (Hne : savedAt r' <> savedAt r).
        { intros E. apply Hfresh. rewrite <- E.
          apply in_map. apply in_map_iff. now exists (t, r'). }
        destruct Hl as [Hl | Hl]; [contradiction|].
        now rewrite (K3 t r' Hin Hl).
      * rewrite (lookup_ensured_other fdir (cp r) va) in Hcp
          by apply below_not_folder, contentPath_below.
        now rewrite Hcp, eqb_refl.
    + intros t r' Hin Hp.
      assert (Hr' : In r' (map snd saved ++ [r])).
      { apply in_app_or in Hin as [Hin | [[= <- <-] | []]].
        - apply in_or_app. left. apply in_map_iff. now exists (t, r').
        - apply in_or_app. right. now left. }
      apply Listed. split.
      * apply in_app_or in Hin as [Hin | [[= <- <-] | []]];
          [right | now left].
        apply (K4 t r' Hin).
        destruct (delete_all_present_below JSON_stringify JSON_parse
                    settings fname gone v3 (cp r')
                    (contentPath_below _ _ _ _) Hp) as [H | H].
        { now apply contentPath_not_index in H. }
        rewrite Content3, Below2 in H by apply contentPath_below.
        destruct (lookup (cp r') va); [discriminate|].
        destruct (eqb (cp r) (cp r')) eqn:E; [|congruence].
        apply eqb_eq in E. apply contentPath_inj in E.
        exfalso. apply Hfresh. rewrite E.
        apply in_map. apply in_map_iff. now exists (t, r').
      * intros Hg. apply Hp.
        apply (delete_all_removes_content (map snd saved ++ [r]));
          assumption.
Qed.

(** *** A series of edits and saves *)

Lemma contentsKept_initial v :
  (forall d, lookup fdir v <> Some (FileNode d)) ->
  contents_kept [] v.
Proof.
  intros H. repeat split.
  - exact H.
  - congruence.
  - intros t r [].
  - intros t r [].
Qed.

Lemma editAndSaveAll_run saved steps v ns :
  0 <= maxVersions settings ->
  well_stored (map snd saved) v ->
  contents_kept saved v ->
  NoDup (map savedAt (map snd (saved ++ steps))) ->
  exists v',
    editAndSaveAll JSON_stringify JSON_parse settings file steps (mk v ns)
    = (Return (map (fun s => metaOf file (snd s)) steps), mk v' ns)
    /\ well_stored (map snd (saved ++ steps)) v'
    /\ contents_kept (saved ++ steps) v'.
Proof.
  intros HM. revert saved v.
  induction steps as [|[text r] steps IH]; intros saved v W K Hnd.
  - exists v. rewrite app_nil_r. split; [reflexivity | now split].
  - assert (E : saved ++ (text, r) :: steps
                = (saved ++ [(text, r)]) ++ steps)
      by now rewrite <- app_assoc.
    rewrite E in Hnd |- *.
    assert (Hnd1 : NoDup (map savedAt (map snd saved ++ [r]))).
    { rewrite !map_app in Hnd. apply NoDup_app_remove_r in Hnd.
      now rewrite map_app. }
    destruct (save_step saved text r v ns HM W K Hnd1) as (v1 & S1 & W1 & K1).
    destruct (IH (saved ++ [(text, r)]) v1 W1 K1 Hnd) as (v2 & S2 & W2 & K2).
    exists v2. split; [|now split].
    cbn [editAndSaveAll map snd].
    rewrite bind_unfold in S1.
    destruct (modify (TFile.path file) text (mk v ns)) as [[[]|e] w1] eqn:M;
      [|discriminate].
    rewrite bind_unfold, M. cbv iota beta.
    run_with S1. run_with S2. reflexivity.
Qed.

Lemma In_firstn_middle {A} n (a b : list A) x :
  NoDup (a ++ x :: b) ->
  In x (firstn n (a ++ x :: b)) <-> (length a < n)%nat.
Proof.
  intros Hnd. rewrite firstn_app, in_app_iff. split.
  - intros [H | H].
    + apply firstn_In in H. exfalso.
      apply (NoDup_app_disjoint _ _ x Hnd H). now left.
    + destruct (n - length a)%nat eqn:E; [destruct H | lia].
  - intros H. right.
    destruct (n - length a)%nat eqn:E; [lia | now left].
Qed.

Lemma listed_position (before : list (jsstring * SaveRequest)) text r
    after v :
  0 <= maxVersions settings ->
  NoDup (map savedAt (map snd (before ++ (text, r) :: after))) ->
  well_stored (map snd (before ++ (text, r) :: after)) v ->
  In (savedAt r) (listed v)
  <-> Z.of_nat (length after) < maxVersions settings.
Proof.
  intros HM Hnd (Hidx & _). rewrite Hidx.
  rewrite <- firstn_map, timestamps_of_saved.
  rewrite !map_app in *. cbn [map snd] in *.
  rewrite rev_app_distr. cbn [rev]. rewrite <- app_assoc. cbn [app].
  rewrite In_firstn_middle.
  - rewrite length_rev, !length_map. lia.
  - apply NoDup_rev in Hnd.
    rewrite rev_app_distr in Hnd. cbn [rev] in Hnd.
    now rewrite <- app_assoc in Hnd.
Qed.

(** *** Reading a version *)

Lemma readFirstMatch_found ts cs c d w :
  firstMatch ts cs = Some c ->
  lookup (childPath c) (files w) = Some (FileNode d) ->
  readFirstMatch ts cs w = (Return (Some d), w).
Proof.
  unfold firstMatch. induction cs as [|x cs IH]; simpl; [discriminate|].
  destruct (encodesTimestamp (childName x) ts); [|exact IH].
  intros [= ->] L. unfold bind, read. now rewrite L.
Qed.

Lemma getVersionContent_unlisted ts v ns :
  ~ In ts (listed v) ->
  getVersionContent JSON_parse settings file ts (mk v ns)
  = (Return None, mk v ns).
Proof.
  intros H. unfold getVersionContent. run_with readVersionIndex_run.
  destruct (find _ _) as [m|] eqn:E; [|reflexivity].
  apply find_some in E as [Hm E]. apply Z.eqb_eq in E.
  exfalso. apply H. rewrite <- E. now apply in_map.
Qed.

Lemma getVersionContent_found requests text r v ns :
  only_saved requests v ->
  NoDup (map savedAt requests) ->
  In r requests ->
  lookup fdir v = Some FolderNode ->
  In (savedAt r) (listed v) ->
  lookup (cp r) v = Some (FileNode text) ->
  getVersionContent JSON_parse settings file (savedAt r) (mk v ns)
  = (Return (Some text), mk v ns).
Proof.
  intros Hbelow Hnd Hr HF Hl Hc.
  destruct (firstMatch_content requests v r Hbelow Hnd Hr)
    as (c & Hfind & Hpath); [congruence|].
  unfold getVersionContent. run_with readVersionIndex_run.
  destruct (find _ _) as [m|] eqn:E.
  2:{ exfalso. apply in_map_iff in Hl as (m & Em & Hm).
      apply (find_none _ _ E) in Hm. apply Z.eqb_neq in Hm. congruence. }
  rewrite tryCatch_unfold, bind_unfold.
  unfold getAbstractFileByPath, gets. cbn [files]. rewrite HF.
  rewrite bind_unfold. cbn [files].
  rewrite (readFirstMatch_found (savedAt r) _ c text (mk v ns) Hfind);
    [reflexivity|].
  cbn [files]. now rewrite Hpath.
Qed.

Lemma getVersionContent_listed saved text r v ns :
  well_stored (map snd saved) v ->
  contents_kept saved v ->
  NoDup (map savedAt (map snd saved)) ->
  In (text, r) saved ->
  In (savedAt r) (listed v) ->
  getVersionContent JSON_parse settings file (savedAt r) (mk v ns)
  = (Return (Some text), mk v ns).
Proof.
  intros (_ & _ & _ & _ & Hbelow) (K1 & K2 & K3 & K4) Hnd Hin Hl.
  apply (getVersionContent_found (map snd saved)); try assumption.
  - apply in_map_iff. now exists (text, r).
  - apply K2. intros ->. destruct Hin.
  - now apply K3.
Qed.

Lemma read_back_after_series
    (before after : list (jsstring * SaveRequest)) text r v ns :
  0 <= maxVersions settings ->
  (exists content, lookup (TFile.path file) v = Some (FileNode content)) ->
  (forall q, startsWith q (fdir ++ slash) = true -> lookup q v = None) ->
  (forall d, lookup fdir v <> Some (FileNode d)) ->
  NoDup (map savedAt (map snd (before ++ (text, r) :: after))) ->
  exists v',
    editAndSaveAll JSON_stringify JSON_parse settings file
      (before ++ (text, r) :: after) (mk v ns)
    = (Return (map (fun s => metaOf file (snd s))
                 (before ++ (text, r) :: after)),
       mk v' ns)
    /\ getVersionContent JSON_parse settings file (savedAt r) (mk v' ns)
       = (Return (if Z.of_nat (length after) <? maxVersions settings
                  then Some text else None),
          mk v' ns)
    /\ exists old, lookup (TFile.path file) v' = Some (FileNode old).
Proof.
  intros HM Hdoc Hnone HF Hnd.
  pose proof (wellStored_initial JSON_parse settings file v Hdoc Hnone) as W0.
  pose proof (contentsKept_initial v HF) as K0.
  destruct (editAndSaveAll_run [] _ v ns HM W0 K0 Hnd) as (v' & S & W & K).
  cbn [app] in W, K.
  exists v'. split; [exact S|].
  pose proof (listed_position before text r after v' HM Hnd W) as P.
  split; [|now destruct W as (_ & _ & Hdoc' & _)].
  destruct (Z.of_nat (length after) <? maxVersions settings) eqn:E.
  - apply (getVersionContent_listed _ text r v' ns W K Hnd).
    + apply in_or_app. right. now left.
    + apply P. now apply Z.ltb_lt.
  - apply getVersionContent_unlisted. rewrite P. apply Z.ltb_ge in E. lia.
Qed.
End Store.

(** X9. Versions read back.  From a vault in which the document is a
    file, nothing lies below its version folder and the folder path is no
    file, let the document be given a text and saved as a version, again
    and again, the clock readings being pairwise distinct.  Every call
    returns, no notice is shown, and afterwards [getVersionContent], asked
    for the timestamp of one of the saves, returns the text that the
    document had at that save if fewer than [maxVersions] saves came
    after it, and [null] otherwise. *)
Theorem saved_versions_read_back
    (JSON_stringify : VersionIndex -> jsstring)
    (JSON_parse : jsstring -> option VersionIndex)
    (settings : VersionViewSettings) (file : TFile.t)
    (before after : list (jsstring * SaveRequest))
    (text : jsstring) (r : SaveRequest)
    (v : vault) (ns : list Notice) :
  (forall index, JSON_parse (JSON_stringify index) = Some index) ->
  0 <= maxVersions settings ->
  (exists content, lookup (TFile.path file) v = Some (FileNode content)) ->
  (forall q,
      startsWith q (getVersionFolder settings (TFile.name file) ++ slash)
      = true ->
      lookup q v = None) ->
  (forall d, lookup (getVersionFolder settings (TFile.name file)) v
             <> Some (FileNode d)) ->
  NoDup (map savedAt (map snd (before ++ (text, r) :: after))) ->
  exists v',
    editAndSaveAll JSON_stringify JSON_parse settings file
      (before ++ (text, r) :: after) {| files := v; notices := ns |}
    = (Return (map (fun s => metaOf file (snd s))
                 (before ++ (text, r) :: after)),
       {| files := v'; notices := ns |})
    /\ getVersionContent JSON_parse settings file (savedAt r)
         {| files := v'; notices := ns |}
       = (Return (if Z.of_nat (length after) <? maxVersions settings
                  then Some text else None),
          {| files := v'; notices := ns |}).
Proof.
  intros RT HM Hdoc Hnone HF Hnd.
  destruct (read_back_after_series JSON_stringify JSON_parse settings
              file RT before after text r v ns HM Hdoc Hnone HF Hnd)
    as (v' & S & G & _).
  exists v'. now split.
Qed.

Lemma fresh_below_empty settings q :
  storageFolder settings = js "res/versions" ->
  startsWith q
    (getVersionFolder settings (TFile.name Scenario.note) ++ slash) = true ->
  lookup q (files Scenario.fresh) = None.
Proof.
  intros Hs H. unfold getVersionFolder in H. rewrite Hs in H.
  cbn [Scenario.fresh files lookup].
  destruct (eqb (js "notes/note.md") q) eqn:E; [|reflexivity].
  apply eqb_eq in E. subst q. discriminate.
Qed.

Lemma saved_versions_read_back_witness :
  exists v',
    editAndSaveAll Codec.stringify Codec.parse Scenario.keepOne Scenario.note
      ([(js "one", Scenario.request 100 1)]
         ++ (js "two", Scenario.request 101 2) :: [])
      {| files := files Scenario.fresh; notices := [] |}
    = (Return (map (fun s => metaOf Scenario.note (snd s))
                 ([(js "one", Scenario.request 100 1)]
                    ++ (js "two", Scenario.request 101 2) :: [])),
       {| files := v'; notices := [] |})
    /\ getVersionContent Codec.parse Scenario.keepOne Scenario.note
         (savedAt (Scenario.request 101 2))
         {| files := v'; notices := [] |}
       = (Return (if Z.of_nat (@length (jsstring * SaveRequest) [])
                       <? maxVersions Scenario.keepOne
                  then Some (js "two") else None),
          {| files := v'; notices := [] |}).
Proof.
  apply (saved_versions_read_back Codec.stringify Codec.parse
           Scenario.keepOne Scenario.note
           [(js "one", Scenario.request 100 1)] []
           (js "two") (Scenario.request 101 2)
           (files Scenario.fresh) []
           CodecFacts.parse_stringify).
  - vm_compute. discriminate.
  - eexists. reflexivity.
  - intros q. now apply fresh_below_empty.
  - intros d. vm_compute. discriminate.
  - repeat constructor; simpl; intuition discriminate.
Defined.

(** X10. Content files follow the index.  After such a series of edits and
    saves, the content file of a save is in the vault, with the text of the
    document at that save, if fewer than [maxVersions] saves came after it,
    and it is gone otherwise; below the version folder there is nothing
    but the index and the content files of saves that the index lists. *)
Theorem content_files_follow_the_index
    (JSON_stringify : VersionIndex -> jsstring)
    (JSON_parse : jsstring -> option VersionIndex)
    (settings : VersionViewSettings) (file : TFile.t)
    (before after : list (jsstring * SaveRequest))
    (text : jsstring) (r : SaveRequest)
    (v : vault) (ns : list Notice) :
  (forall index, JSON_parse (JSON_stringify index) = Some index) ->
  0 <= maxVersions settings ->
  (exists content, lookup (TFile.path file) v = Some (FileNode content)) ->
  (forall q,
      startsWith q (getVersionFolder settings (TFile.name file) ++ slash)
      = true ->
      lookup q v = None) ->
  (forall d, lookup (getVersionFolder settings (TFile.name file)) v
             <> Some (FileNode d)) ->
  NoDup (map savedAt (map snd (before ++ (text, r) :: after))) ->
  exists v',
    editAndSaveAll JSON_stringify JSON_parse settings file
      (before ++ (text, r) :: after) {| files := v; notices := ns |}
    = (Return (map (fun s => metaOf file (snd s))
                 (before ++ (text, r) :: after)),
       {| files := v'; notices := ns |})
    /\ lookup (contentPath settings (TFile.name file)
                 (savedAt r) (randomId r)) v'
       = (if Z.of_nat (length after) <? maxVersions settings
          then Some (FileNode text) else None)
    /\ (forall q,
          startsWith q (getVersionFolder settings (TFile.name file) ++ slash)
          = true ->
          lookup q v' <> None ->
          q = getIndexFilePath settings (TFile.name file)
          \/ exists m,
               In m (versions (indexOf JSON_parse settings v'
                                 (TFile.name file)))
               /\ exists vid,
                    q = contentPath settings (TFile.name file)
                          (timestamp m) vid).
Proof.
  intros RT HM Hdoc Hnone HF Hnd.
  pose proof (wellStored_initial JSON_parse settings file v Hdoc Hnone) as W0.
  pose proof (contentsKept_initial JSON_parse settings file v HF) as K0.
  destruct (editAndSaveAll_run JSON_stringify JSON_parse settings file RT
              [] _ v ns HM W0 K0 Hnd) as (v' & S & W & K).
  cbn [app] in W, K.
  exists v'. split; [exact S|].
  pose proof (listed_position JSON_parse settings file before text r after v'
                HM Hnd W) as P.
  destruct K as (_ & _ & K3 & K4).
  assert (Hin : In (text, r) (before ++ (text, r) :: after))
    by (apply in_or_app; right; now left).
  split.
  - destruct (Z.of_nat (length after) <? maxVersions settings) eqn:E.
    + apply (K3 text r Hin). apply P. now apply Z.ltb_lt.
    + destruct (lookup _ v') eqn:L; [|reflexivity].
      exfalso. apply Z.ltb_ge in E.
      assert (X : In (savedAt r)
                    (map timestamp
                       (versions (indexOf JSON_parse settings v'
                                    (TFile.name file))))).
      { apply (K4 text r Hin). congruence. }
      apply P in X. lia.
  - intros q Hq Hp.
    destruct W as (_ & _ & _ & _ & Hbelow).
    destruct (Hbelow q Hq Hp) as [H | (r' & Hr' & H)]; [now left | right].
    apply in_map_iff in Hr' as ([t r''] & Er & Hr'). cbn [snd] in Er.
    subst r''.
    assert (X : In (savedAt r')
                  (map timestamp
                     (versions (indexOf JSON_parse settings v'
                                  (TFile.name file))))).
    { apply (K4 t r' Hr'). congruence. }
    apply in_map_iff in X as (m & Em & Hm).
    exists m. split; [exact Hm|]. exists (randomId r'). now rewrite Em.
Qed.

Lemma content_files_follow_the_index_witness :
  exists v',
    editAndSaveAll Codec.stringify Codec.parse Scenario.keepOne Scenario.note
      ([] ++ (js "one", Scenario.request 100 1)
          :: [(js "two", Scenario.request 101 2)])
      {| files := files Scenario.fresh; notices := [] |}
    = (Return (map (fun s => metaOf Scenario.note (snd s))
                 ([] ++ (js "one", Scenario.request 100 1)
                     :: [(js "two", Scenario.request 101 2)])),
       {| files := v'; notices := [] |})
    /\ lookup (contentPath Scenario.keepOne (TFile.name Scenario.note)
                 (savedAt (Scenario.request 100 1))
                 (randomId (Scenario.request 100 1))) v'
       = (if Z.of_nat (length [(js "two", Scenario.request 101 2)])
               <? maxVersions Scenario.keepOne
          then Some (FileNode (js "one")) else None)
    /\ (forall q,
          startsWith q
            (getVersionFolder Scenario.keepOne (TFile.name Scenario.note)
               ++ slash) = true ->
          lookup q v' <> None ->
          q = getIndexFilePath Scenario.keepOne (TFile.name Scenario.note)
          \/ exists m,
               In m (versions (indexOf Codec.parse Scenario.keepOne v'
                                 (TFile.name Scenario.note)))
               /\ exists vid,
                    q = contentPath Scenario.keepOne
                          (TFile.name Scenario.note) (timestamp m) vid).
Proof.
  apply (content_files_follow_the_index Codec.stringify Codec.parse
           Scenario.keepOne Scenario.note
           [] [(js "two", Scenario.request 101 2)]
           (js "one") (Scenario.request 100 1)
           (files Scenario.fresh) []
           CodecFacts.parse_stringify).
  - vm_compute. discriminate.
  - eexists. reflexivity.
  - intros q. now apply fresh_below_empty.
  - intros d. vm_compute. discriminate.
  - repeat constructor; simpl; intuition discriminate.
Defined.

(** X11. Save, then restore.  After such a series of edits and saves,
    [restoreVersion] for the timestamp of one of the saves puts the text
    of that save back into the document, shows the notice of success and
    returns [true] if fewer than [maxVersions] saves came after that
    save; otherwise it shows the notice that the content cannot be read,
    returns [false] and leaves the vault as it is. *)
Theorem restore_after_saves
    (JSON_stringify : VersionIndex -> jsstring)
    (JSON_parse : jsstring -> option VersionIndex)
    (settings : VersionViewSettings) (file : TFile.t)
    (before after : list (jsstring * SaveRequest))
    (text : jsstring) (r : SaveRequest)
    (v : vault) (ns : list Notice) :
  (forall index, JSON_parse (JSON_stringify index) = Some index) ->
  0 <= maxVersions settings ->
  (exists content, lookup (TFile.path file) v = Some (FileNode content)) ->
  (forall q,
      startsWith q (getVersionFolder settings (TFile.name file) ++ slash)
      = true ->
      lookup q v = None) ->
  (forall d, lookup (getVersionFolder settings (TFile.name file)) v
             <> Some (FileNode d)) ->
  NoDup (map savedAt (map snd (before ++ (text, r) :: after))) ->
  exists v',
    editAndSaveAll JSON_stringify JSON_parse settings file
      (before ++ (text, r) :: after) {| files := v; notices := ns |}
    = (Return (map (fun s => metaOf file (snd s))
                 (before ++ (text, r) :: after)),
       {| files := v'; notices := ns |})
    /\ restoreVersion JSON_parse settings file (savedAt r)
         {| files := v'; notices := ns |}
       = (if Z.of_nat (length after) <? maxVersions settings
          then (Return true,
                {| files := setData (TFile.path file) text v';
                   notices := ns ++ [Restored] |})
          else (Return false,
                {| files := v'; notices := ns ++ [RestoreUnreadable] |}))
    /\ lookup (TFile.path file) (setData (TFile.path file) text v')
       = Some (FileNode text).
Proof.
  intros RT HM Hdoc Hnone HF Hnd.
  destruct (read_back_after_series JSON_stringify JSON_parse settings
              file RT before after text r v ns HM Hdoc Hnone HF Hnd)
    as (v' & S & G & old & Hdoc').
  exists v'. split; [exact S|]. split.
  - destruct (Z.of_nat (length after) <? maxVersions settings).
    + now apply (restoreVersion_found JSON_parse settings file (savedAt r)
                   v' ns text old).
    + now apply restoreVersion_missing.
  - now rewrite lookup_setData, eqb_refl, Hdoc'.
Qed.

Lemma restore_after_saves_witness :
  exists v',
    editAndSaveAll Codec.stringify Codec.parse Scenario.DEFAULT_SETTINGS
      Scenario.note
      ([] ++ (js "one", Scenario.request 100 1)
          :: [(js "two", Scenario.request 101 2)])
      {| files := files Scenario.fresh; notices := [] |}
    = (Return (map (fun s => metaOf Scenario.note (snd s))
                 ([] ++ (js "one", Scenario.request 100 1)
                     :: [(js "two", Scenario.request 101 2)])),
       {| files := v'; notices := [] |})
    /\ restoreVersion Codec.parse Scenario.DEFAULT_SETTINGS Scenario.note
         (savedAt (Scenario.request 100 1))
         {| files := v'; notices := [] |}
       = (if Z.of_nat (length [(js "two", Scenario.request 101 2)])
               <? maxVersions Scenario.DEFAULT_SETTINGS
          then (Return true,
                {| files := setData (TFile.path Scenario.note) (js "one") v';
                   notices := [] ++ [Restored] |})
          else (Return false,
                {| files := v'; notices := [] ++ [RestoreUnreadable] |}))
    /\ lookup (TFile.path Scenario.note)
         (setData (TFile.path Scenario.note) (js "one") v')
       = Some (FileNode (js "one")).
Proof.
  apply (restore_after_saves Codec.stringify Codec.parse
           Scenario.DEFAULT_SETTINGS Scenario.note
           [] [(js "two", Scenario.request 101 2)]
           (js "one") (Scenario.request 100 1)
           (files Scenario.fresh) []
           CodecFacts.parse_stringify).
  - vm_compute. discriminate.
  - eexists. reflexivity.
  - intros q. now apply fresh_below_empty.
  - intros d. vm_compute. discriminate.
  - repeat constructor; simpl; intuition discriminate.
Defined.

End StoreExtra.
(* ================================================================== *)
(** ** The service, call by call *)

Module ServiceExtra.
Import Async Vault VersionStorage StorageEffects VersionStorageMore.
Import VaultFacts ArrayFacts StorageFacts NamesExtra.

Section Service.
Variable JSON_stringify : VersionIndex -> jsstring.
Variable JSON_parse : jsstring -> option VersionIndex.
Variable settings : VersionViewSettings.
Variable file : TFile.t.

Local Abbreviation fname := (TFile.name file).
Local Abbreviation fdir := (getVersionFolder settings (TFile.name file)).
Local Abbreviation idx := (getIndexFilePath settings (TFile.name file)).
Local Abbreviation index_of v :=
  (indexOf JSON_parse settings v (TFile.name file)).
Local Abbreviation content_of := (contentOf JSON_parse settings file).
Local Abbreviation mk v ns := {| files := v; notices := ns |}.

Lemma readFirstMatch_run ts cs v ns :
  readFirstMatch ts cs (mk v ns)
  = (match firstMatch ts cs with
     | Some c =>
         match lookup (childPath c) v with
         | Some (FileNode d) => Return (Some d)
         | _ => Throw notFound
         end
     | None => Return None
     end, mk v ns).
Proof.
  unfold firstMatch. induction cs as [|c cs IH]; simpl; [reflexivity|].
  destruct (encodesTimestamp (childName c) ts); [|exact IH].
  unfold bind, read. cbn [files].
  now destruct (lookup (childPath c) v) as [[d|]|].
Qed.

(** [getVersionContent] as a function of the vault. *)
Lemma getVersionContent_eq ts v ns :
  getVersionContent JSON_parse settings file ts (mk v ns)
  = (Return (content_of v ts), mk v ns).
Proof.
  unfold getVersionContent, contentOf. run_with readVersionIndex_run.
  destruct (find _ _); [|reflexivity].
  rewrite tryCatch_unfold, bind_unfold.
  unfold getAbstractFileByPath, gets. cbn [files].
  destruct (lookup fdir v) as [[d|]|]; try reflexivity.
  rewrite bind_unfold. cbn [files]. rewrite readFirstMatch_run.
  destruct (firstMatch ts (children fdir v)) as [c|]; [|reflexivity].
  now destruct (lookup (childPath c) v) as [[d|]|].
Qed.

Lemma contentOf_unlisted ts v :
  ~ In ts (map timestamp (versions (index_of v))) ->
  content_of v ts = None.
Proof.
  intros H. unfold contentOf.
  destruct (find _ _) as [m|] eqn:E; [|reflexivity].
  apply find_some in E as [Hm E]. apply Z.eqb_eq in E.
  exfalso. apply H. rewrite <- E. now apply in_map.
Qed.

Lemma find_timestamps ts (l l' : list VersionMeta) :
  map timestamp l = map timestamp l' ->
  match find (fun m => timestamp m =? ts) l with
  | Some _ => true
  | None => false
  end
  = match find (fun m => timestamp m =? ts) l' with
    | Some _ => true
    | None => false
    end.
Proof.
  revert l'. induction l as [|m l IH]; intros [|m' l'] E;
    try discriminate; [reflexivity|].
  injection E as E1 E2. simpl. rewrite E1.
  destruct (timestamp m' =? ts); [reflexivity | now apply IH].
Qed.

(** A rewritten index that lists the same timestamps leaves the contents
    as they are. *)
Lemma contentOf_index_rewritten data v ts old :
  lookup fdir v = Some FolderNode ->
  lookup idx v = Some (FileNode old) ->
  map timestamp (versions (index_of (setData idx data v)))
  = map timestamp (versions (index_of v)) ->
  content_of (setData idx data v) ts = content_of v ts.
Proof.
  intros HF HI Hts. unfold contentOf.
  pose proof (find_timestamps ts _ _ Hts) as F.
  assert (HF' : lookup fdir (setData idx data v) = Some FolderNode).
  { rewrite lookup_setData.
    replace (eqb idx fdir) with false; [exact HF|].
    symmetry. rewrite eqb_sym. apply indexPath_not_folderPath. }
  rewrite HF', HF, children_setData.
  destruct (find _ (versions (index_of (setData idx data v))));
    destruct (find _ (versions (index_of v))); try discriminate;
    [|reflexivity].
  destruct (firstMatch ts (children fdir v)) as [c|] eqn:E; [|reflexivity].
  apply find_some in E as [Hc He].
  pose proof (content_child_not_index settings fname v c ts Hc He) as N.
  unfold within in N. apply orb_false_iff in N as [N _].
  rewrite lookup_setData. now rewrite N.
Qed.

Lemma ensured_present F v n : lookup F v = Some n -> ensured F v = v.
Proof. intros H. unfold ensured. now rewrite H. Qed.

Lemma written_file p d v old :
  lookup p v = Some (FileNode old) -> written p d v = setData p d v.
Proof. intros H. unfold written. now rewrite H. Qed.

Lemma applyUpdates_timestamp u m : timestamp (applyUpdates u m) = timestamp m.
Proof.
  unfold applyUpdates. now destruct (newName u), (newDescription u).
Qed.

Section RoundTrip.
Hypothesis parse_stringify :
  forall index, JSON_parse (JSON_stringify index) = Some index.

Lemma updateVersion_contents ts updates v ns :
  lookup fdir v = Some FolderNode ->
  exists r v' ns',
    updateVersion JSON_stringify JSON_parse settings file ts updates (mk v ns)
    = (Return r, mk v' ns')
    /\ (forall ts', content_of v' ts' = content_of v ts')
    /\ map timestamp (versions (index_of v'))
       = map timestamp (versions (index_of v)).
Proof.
  intros HF.
  destruct (in_dec Z.eq_dec ts (map timestamp (versions (index_of v))))
    as [Hin | Hout].
  - apply in_map_iff in Hin as (m & Em & Hm).
    destruct (split_at_first (fun x => timestamp x =? ts) _ m Hm)
      as (before & version & after & Hv & Hb & Hx).
    { now apply Z.eqb_eq. }
    apply Z.eqb_eq in Hx.
    assert (Hb' : forall y, In y before -> timestamp y <> ts).
    { intros y Hy. apply Z.eqb_neq. now apply Hb. }
    pose proof (updateVersion_found JSON_stringify JSON_parse settings file
                  ts updates v ns before version after Hv Hb' Hx) as U.
    destruct (lookup idx v) as [[old|]|] eqn:HI.
    2:{ unfold indexOf in Hv. rewrite HI in Hv. now destruct before. }
    2:{ unfold indexOf in Hv. rewrite HI in Hv. now destruct before. }
    rewrite (ensured_present _ _ _ HF), (written_file _ _ _ _ HI) in U.
    set (index' := {| versions := before ++ applyUpdates updates version
                                    :: after;
                      lastUpdated := lastUpdated (index_of v) |}) in *.
    assert (E : index_of (setData idx (JSON_stringify index') v) = index').
    { apply (indexOf_written JSON_stringify JSON_parse settings
               parse_stringify).
      now rewrite lookup_setData, eqb_refl, HI. }
    assert (T : map timestamp
                  (versions (index_of (setData idx (JSON_stringify index') v)))
                = map timestamp (versions (index_of v))).
    { rewrite E, Hv. cbn [versions index']. rewrite !map_app. cbn [map].
      now rewrite applyUpdates_timestamp. }
    exists true, (setData idx (JSON_stringify index') v), (ns ++ [Updated]).
    split; [exact U|]. split; [|exact T].
    intros ts'. now apply (contentOf_index_rewritten _ v ts' old).
  - exists false, v, (ns ++ [VersionMissing]). split; [|now split].
    apply updateVersion_absent. intros m Hm E. apply Hout.
    rewrite <- E. now apply in_map.
Qed.

Lemma deleteVersion_unlisted ts v :
  lookup idx v <> Some FolderNode ->
  ~ In ts (map timestamp
             (versions
                (index_of (afterDelete JSON_stringify JSON_parse settings
                             fname ts v)))).
Proof.
  intros HI.
  rewrite (indexOf_afterDelete JSON_stringify JSON_parse settings
             parse_stringify fname ts v HI).
  cbn [versions withoutTimestamp]. intros H.
  apply in_map_iff in H as (m & E & Hm).
  apply filter_In in Hm as [_ Hm]. apply negb_true_iff in Hm.
  apply Z.eqb_neq in Hm. contradiction.
Qed.

End RoundTrip.
End Service.

(** X12. The index that [writeVersionIndex] stores is the index that
    [readVersionIndex] reads afterwards, and no path but the index path
    and the version folder is touched; when the index path is a folder,
    [writeVersionIndex] throws the error of [vault.create], the version
    folder being made all the same. *)
Theorem index_written_is_read_back
    (JSON_stringify : VersionIndex -> jsstring)
    (JSON_parse : jsstring -> option VersionIndex)
    (settings : VersionViewSettings) (filename : jsstring)
    (index : VersionIndex) (v : vault) (ns : list Notice) :
  (forall i, JSON_parse (JSON_stringify i) = Some i) ->
  match lookup (getIndexFilePath settings filename) v with
  | Some FolderNode =>
      writeVersionIndex JSON_stringify settings filename index
        {| files := v; notices := ns |}
      = (Throw fileExists,
         {| files := ensured (getVersionFolder settings filename) v;
            notices := ns |})
  | _ =>
      exists v',
        writeVersionIndex JSON_stringify settings filename index
          {| files := v; notices := ns |}
        = (Return tt, {| files := v'; notices := ns |})
        /\ readVersionIndex JSON_parse settings filename
             {| files := v'; notices := ns |}
           = (Return index, {| files := v'; notices := ns |})
        /\ (forall q, q <> getIndexFilePath settings filename ->
                      q <> getVersionFolder settings filename ->
                      lookup q v' = lookup q v)
  end.
Proof.
  intros RT.
  assert (Run : lookup (getIndexFilePath settings filename) v
                <> Some FolderNode ->
    exists v',
      writeVersionIndex JSON_stringify settings filename index
        {| files := v; notices := ns |}
      = (Return tt, {| files := v'; notices := ns |})
      /\ readVersionIndex JSON_parse settings filename
           {| files := v'; notices := ns |}
         = (Return index, {| files := v'; notices := ns |})
      /\ (forall q, q <> getIndexFilePath settings filename ->
                    q <> getVersionFolder settings filename ->
                    lookup q v' = lookup q v)).
  { intros HI. eexists. split; [now apply writeVersionIndex_run|]. split.
    - rewrite readVersionIndex_run. f_equal. f_equal.
      apply (indexOf_written JSON_stringify JSON_parse settings RT).
      apply lookup_written_self.
      now rewrite (lookup_ensured_other _ _ v
                     (indexPath_not_folderPath settings filename)).
    - intros q Hq Hf.
      rewrite lookup_written_other by now apply eqb_neq.
      apply lookup_ensured_other. now apply eqb_neq. }
  destruct (lookup (getIndexFilePath settings filename) v) as [[d|]|] eqn:E.
  - apply Run. discriminate.
  - now apply writeVersionIndex_blocked.
  - apply Run. discriminate.
Qed.

Lemma index_written_is_read_back_witness :
  match lookup (getIndexFilePath Scenario.DEFAULT_SETTINGS (js "note.md"))
          (files Scenario.fresh) with
  | Some FolderNode =>
      writeVersionIndex Codec.stringify Scenario.DEFAULT_SETTINGS
        (js "note.md") emptyIndex
        {| files := files Scenario.fresh; notices := [] |}
      = (Throw fileExists,
         {| files := ensured (getVersionFolder Scenario.DEFAULT_SETTINGS
                                (js "note.md")) (files Scenario.fresh);
            notices := [] |})
  | _ =>
      exists v',
        writeVersionIndex Codec.stringify Scenario.DEFAULT_SETTINGS
          (js "note.md") emptyIndex
          {| files := files Scenario.fresh; notices := [] |}
        = (Return tt, {| files := v'; notices := [] |})
        /\ readVersionIndex Codec.parse Scenario.DEFAULT_SETTINGS
             (js "note.md") {| files := v'; notices := [] |}
           = (Return emptyIndex, {| files := v'; notices := [] |})
        /\ (forall q,
              q <> getIndexFilePath Scenario.DEFAULT_SETTINGS (js "note.md") ->
              q <> getVersionFolder Scenario.DEFAULT_SETTINGS (js "note.md") ->
              lookup q v' = lookup q (files Scenario.fresh))
  end.
Proof.
  apply (index_written_is_read_back Codec.stringify Codec.parse
           Scenario.DEFAULT_SETTINGS (js "note.md") emptyIndex
           (files Scenario.fresh) [] CodecFacts.parse_stringify).
Defined.

(** X13. [saveVersion] does not overwrite: when the path of the content
    file it is about to create is taken (the same clock reading and the
    same random number as an earlier save), it throws the error of
    [vault.create] to its caller; the version folder exists then, but the
    index, the file at that path and the notices are as before. *)
Theorem saveVersion_refuses_taken_name
    (JSON_stringify : VersionIndex -> jsstring)
    (JSON_parse : jsstring -> option VersionIndex)
    (settings : VersionViewSettings) (file : TFile.t)
    (now vid : Z) (name description : option jsstring)
    (v : vault) (ns : list Notice) (content : jsstring) (taken : node) :
  lookup (TFile.path file) v = Some (FileNode content) ->
  lookup (contentPath settings (TFile.name file) now vid) v = Some taken ->
  let v' := ensured (getVersionFolder settings (TFile.name file)) v in
  saveVersion JSON_stringify JSON_parse settings now vid file name description
    {| files := v; notices := ns |}
  = (Throw fileExists, {| files := v'; notices := ns |})
  /\ indexOf JSON_parse settings v' (TFile.name file)
     = indexOf JSON_parse settings v (TFile.name file)
  /\ lookup (contentPath settings (TFile.name file) now vid) v' = Some taken.
Proof.
  intros Hdoc Hcp v'.
  assert (L : lookup (contentPath settings (TFile.name file) now vid) v'
              = Some taken).
  { unfold v'. rewrite lookup_ensured_other; [exact Hcp|].
    apply below_not_folder, contentPath_below. }
  split; [|split; [|exact L]].
  - unfold saveVersion.
    run_with (read_run (TFile.path file) v ns content Hdoc).
    run_with ensureFolderExists_run.
    rewrite bind_unfold. unfold create. cbn [files].
    fold v'.
    change (getVersionFolder settings (TFile.name file) ++ slash
              ++ js "version_" ++ JSNumber.toString now ++ js "_"
              ++ JSNumber.toString vid ++ js ".md")
      with (contentPath settings (TFile.name file) now vid).
    now rewrite L.
  - unfold indexOf, v'.
    now rewrite (lookup_ensured_other _ _ v
                   (indexPath_not_folderPath settings (TFile.name file))).
Qed.

Lemma saveVersion_refuses_taken_name_witness :
  let v' := ensured (getVersionFolder Scenario.DEFAULT_SETTINGS
                       (TFile.name Scenario.note)) (files Scenario.twins) in
  saveVersion Codec.stringify Codec.parse Scenario.DEFAULT_SETTINGS 5 1
    Scenario.note None None
    {| files := files Scenario.twins; notices := [] |}
  = (Throw fileExists, {| files := v'; notices := [] |})
  /\ indexOf Codec.parse Scenario.DEFAULT_SETTINGS v'
       (TFile.name Scenario.note)
     = indexOf Codec.parse Scenario.DEFAULT_SETTINGS (files Scenario.twins)
         (TFile.name Scenario.note)
  /\ lookup (contentPath Scenario.DEFAULT_SETTINGS
               (TFile.name Scenario.note) 5 1) v'
     = Some (FileNode (js "a")).
Proof.
  apply (saveVersion_refuses_taken_name Codec.stringify Codec.parse
           Scenario.DEFAULT_SETTINGS Scenario.note 5 1 None None
           (files Scenario.twins) [] (js "hello") (FileNode (js "a")));
    reflexivity.
Defined.

(** X14. A deleted version is gone for the service: after
    [deleteVersion] for a timestamp, in a vault whose index path is no
    folder, [getVersionContent] returns [null] for that timestamp,
    [restoreVersion] fails with its notice and leaves the vault as it is,
    and [updateVersion] reports that the version does not exist, whatever
    content files with that timestamp are still in the folder. *)
Theorem deleted_version_is_unreadable
    (JSON_stringify : VersionIndex -> jsstring)
    (JSON_parse : jsstring -> option VersionIndex)
    (settings : VersionViewSettings) (file : TFile.t) (ts : Z)
    (v : vault) (ns : list Notice) :
  (forall i, JSON_parse (JSON_stringify i) = Some i) ->
  lookup (getIndexFilePath settings (TFile.name file)) v <> Some FolderNode ->
  exists v',
    deleteVersion JSON_stringify JSON_parse settings file ts
      {| files := v; notices := ns |}
    = (Return tt, {| files := v'; notices := ns |})
    /\ getVersionContent JSON_parse settings file ts
         {| files := v'; notices := ns |}
       = (Return None, {| files := v'; notices := ns |})
    /\ restoreVersion JSON_parse settings file ts
         {| files := v'; notices := ns |}
       = (Return false,
          {| files := v'; notices := ns ++ [RestoreUnreadable] |})
    /\ (forall updates,
          updateVersion JSON_stringify JSON_parse settings file ts updates
            {| files := v'; notices := ns |}
          = (Return false,
             {| files := v'; notices := ns ++ [VersionMissing] |})).
Proof.
  intros RT HI.
  pose proof (deleteVersion_unlisted JSON_stringify JSON_parse settings file
                RT ts v HI) as U.
  eexists. split; [now apply deleteVersion_run|].
  assert (G : forall ns',
             getVersionContent JSON_parse settings file ts
               {| files := afterDelete JSON_stringify JSON_parse settings
                             (TFile.name file) ts v;
                  notices := ns' |}
             = (Return None,
                {| files := afterDelete JSON_stringify JSON_parse settings
                              (TFile.name file) ts v;
                   notices := ns' |})).
  { intros ns'. rewrite getVersionContent_eq.
    now rewrite contentOf_unlisted. }
  split; [apply G|]. split.
  - apply restoreVersion_missing, G.
  - intros updates. apply updateVersion_absent.
    intros m Hm E. apply U. apply in_map_iff. now exists m.
Qed.

Lemma deleted_version_is_unreadable_witness :
  exists v',
    deleteVersion Codec.stringify Codec.parse Scenario.DEFAULT_SETTINGS
      Scenario.note 5 {| files := files Scenario.twins; notices := [] |}
    = (Return tt, {| files := v'; notices := [] |})
    /\ getVersionContent Codec.parse Scenario.DEFAULT_SETTINGS Scenario.note 5
         {| files := v'; notices := [] |}
       = (Return None, {| files := v'; notices := [] |})
    /\ restoreVersion Codec.parse Scenario.DEFAULT_SETTINGS Scenario.note 5
         {| files := v'; notices := [] |}
       = (Return false,
          {| files := v'; notices := [] ++ [RestoreUnreadable] |})
    /\ (forall updates,
          updateVersion Codec.stringify Codec.parse Scenario.DEFAULT_SETTINGS
            Scenario.note 5 updates {| files := v'; notices := [] |}
          = (Return false,
             {| files := v'; notices := [] ++ [VersionMissing] |})).
Proof.
  apply (deleted_version_is_unreadable Codec.stringify Codec.parse
           Scenario.DEFAULT_SETTINGS Scenario.note 5
           (files Scenario.twins) [] CodecFacts.parse_stringify).
  vm_compute. discriminate.
Defined.

(** X15. Editing the name or the description of a version changes no
    content: in a vault whose version folder is a folder, [updateVersion]
    returns, and afterwards [getVersionContent] returns for every
    timestamp what it returned before, and the index lists the same
    timestamps in the same order. *)
Theorem updateVersion_keeps_contents
    (JSON_stringify : VersionIndex -> jsstring)
    (JSON_parse : jsstring -> option VersionIndex)
    (settings : VersionViewSettings) (file : TFile.t) (ts : Z)
    (updates : Updates) (v : vault) (ns : list Notice) :
  (forall i, JSON_parse (JSON_stringify i) = Some i) ->
  lookup (getVersionFolder settings (TFile.name file)) v = Some FolderNode ->
  exists r v' ns',
    updateVersion JSON_stringify JSON_parse settings file ts updates
      {| files := v; notices := ns |}
    = (Return r, {| files := v'; notices := ns' |})
    /\ (forall ts',
          exists content,
            getVersionContent JSON_parse settings file ts'
              {| files := v; notices := ns |}
            = (Return content, {| files := v; notices := ns |})
            /\ getVersionContent JSON_parse settings file ts'
                 {| files := v'; notices := ns' |}
               = (Return content, {| files := v'; notices := ns' |}))
    /\ map timestamp
         (versions (indexOf JSON_parse settings v' (TFile.name file)))
       = map timestamp
           (versions (indexOf JSON_parse settings v (TFile.name file))).
Proof.
  intros RT HF.
  destruct (updateVersion_contents JSON_stringify JSON_parse settings file
              RT ts updates v ns HF) as (r & v' & ns' & U & C & T).
  exists r, v', ns'. split; [exact U|]. split; [|exact T].
  intros ts'. exists (contentOf JSON_parse settings file v ts').
  rewrite !getVersionContent_eq. now rewrite C.
Qed.

Lemma updateVersion_keeps_contents_witness :
  exists r v' ns',
    updateVersion Codec.stringify Codec.parse Scenario.DEFAULT_SETTINGS
      Scenario.note 5
      {| newName := Some (js "draft"); newDescription := None |}
      {| files := files Scenario.twins; notices := [] |}
    = (Return r, {| files := v'; notices := ns' |})
    /\ (forall ts',
          exists content,
            getVersionContent Codec.parse Scenario.DEFAULT_SETTINGS
              Scenario.note ts'
              {| files := files Scenario.twins; notices := [] |}
            = (Return content,
               {| files := files Scenario.twins; notices := [] |})
            /\ getVersionContent Codec.parse Scenario.DEFAULT_SETTINGS
                 Scenario.note ts' {| files := v'; notices := ns' |}
               = (Return content, {| files := v'; notices := ns' |}))
    /\ map timestamp
         (versions (indexOf Codec.parse Scenario.DEFAULT_SETTINGS v'
                      (TFile.name Scenario.note)))
       = map timestamp
           (versions (indexOf Codec.parse Scenario.DEFAULT_SETTINGS
                        (files Scenario.twins) (TFile.name Scenario.note))).
Proof.
  apply (updateVersion_keeps_contents Codec.stringify Codec.parse
           Scenario.DEFAULT_SETTINGS Scenario.note 5
           {| newName := Some (js "draft"); newDescription := None |}
           (files Scenario.twins) [] CodecFacts.parse_stringify).
  reflexivity.
Defined.

End ServiceExtra.
(* ================================================================== *)
(** ** The settings tab and the version view *)

Module InterfaceExtra.
Import VersionStorage SettingsTab VersionViewUI.
Import JSNumber JSNumberFacts ArrayFacts NamesExtra.

(** *** The settings tab *)

Lemma onChange_valid c s :
  0 < maxVersions s -> storageFolder s <> [] ->
  0 < maxVersions (onChange c s) /\ storageFolder (onChange c s) <> [].
Proof.
  intros HM HS. destruct c as [value | value | value]; cbn [onChange].
  - cbn [maxVersions storageFolder]. split; [exact HM|].
    destruct value; cbn [truthy]; discriminate.
  - destruct (parseInt10 value) as [num|]; [|now split].
    destruct (0 <? num) eqn:E; [|now split].
    cbn [maxVersions storageFolder]. split; [now apply Z.ltb_lt | exact HS].
  - now split.
Qed.

(** X16. The settings tab keeps the settings usable: whatever the user
    types into the folder field and the number field and however the
    toggle is switched, [maxVersions] stays a positive number and
    [storageFolder] a non-empty text, if they were so before (as they are
    in [DEFAULT_SETTINGS]). *)
Theorem settings_tab_keeps_settings_valid
    (changes : list Change) (settings : VersionViewSettings) :
  0 < maxVersions settings ->
  storageFolder settings <> [] ->
  0 < maxVersions (fold_left (fun s c => onChange c s) changes settings)
  /\ storageFolder (fold_left (fun s c => onChange c s) changes settings)
     <> [].
Proof.
  revert settings. induction changes as [|c changes IH]; intros s HM HS.
  - now split.
  - cbn [fold_left]. destruct (onChange_valid c s HM HS) as [HM' HS'].
    now apply IH.
Qed.

Lemma settings_tab_keeps_settings_valid_witness :
  0 < maxVersions
        (fold_left (fun s c => onChange c s)
           [MaxVersions (js "0"); StorageFolder (js ""); MaxVersions (js "7")]
           Scenario.DEFAULT_SETTINGS)
  /\ storageFolder
       (fold_left (fun s c => onChange c s)
          [MaxVersions (js "0"); StorageFolder (js ""); MaxVersions (js "7")]
          Scenario.DEFAULT_SETTINGS)
     <> [].
Proof.
  apply (settings_tab_keeps_settings_valid
           [MaxVersions (js "0"); StorageFolder (js ""); MaxVersions (js "7")]
           Scenario.DEFAULT_SETTINGS).
  - reflexivity.
  - discriminate.
Defined.

Local Abbreviation digits d := (js (NilEmpty.string_of_uint d)).

Lemma toDouble_exact n : Z.abs n <= 2 ^ 53 -> toDouble n = n.
Proof.
  intros H. unfold toDouble.
  destruct (Z.abs n <=? 2 ^ 53) eqn:E; [reflexivity|].
  apply Z.leb_gt in E. lia.
Qed.

Lemma toDouble_nonpos n : n <= 0 -> toDouble n <= 0.
Proof.
  intros H. unfold toDouble.
  destruct (Z.abs n <=? 2 ^ 53) eqn:E; [exact H|].
  apply Z.leb_gt in E.
  set (e := Z.log2 (Z.abs n) - 52).
  set (q := Z.abs n / 2 ^ e).
  assert (He : 0 <= e).
  { unfold e.
    assert (53 <= Z.log2 (Z.abs n)); [|lia].
    change 53 with (Z.log2 (2 ^ 53)). apply Z.log2_le_mono. lia. }
  assert (Hp : 0 < 2 ^ e) by now apply Z.pow_pos_nonneg.
  assert (Hq : 0 <= q) by (apply Z.div_pos; lia).
  assert (Hs : Z.sgn n = -1) by (apply Z.sgn_neg; lia).
  rewrite Hs.
  destruct ((_ <? _) || _); nia.
Qed.

Lemma readDigits_printed p :
  readDigits 10 None (digits (Pos.to_uint p)) = Some (Z.pos p).
Proof.
  rewrite (readDigits_start _ (DecimalPos.Unsigned.to_uint_nonnil p)).
  now rewrite readDigits_zero, DecimalPos.Unsigned.of_to.
Qed.

Lemma printed_starts_with_a_digit p :
  exists c rest,
    digits (Pos.to_uint p) = c :: rest
    /\ isWhite c = false /\ c <> 45%N /\ c <> 43%N.
Proof.
  pose proof (DecimalPos.Unsigned.to_uint_nonnil p) as Hp.
  destruct (Pos.to_uint p) as [|d|d|d|d|d|d|d|d|d|d]; [congruence | ..];
    cbn [NilEmpty.string_of_uint]; rewrite js_String;
    eexists; eexists; (split; [reflexivity|]);
    (split; [vm_compute; reflexivity|]); split; discriminate.
Qed.

Lemma parseInt10_unsigned c rest :
  isWhite c = false -> c <> 45%N -> c <> 43%N ->
  parseInt10 (c :: rest)
  = match readDigits 10 None (c :: rest) with
    | Some n => Some (toDouble (1 * n))
    | None => None
    end.
Proof.
  intros Hw H45 H43. unfold parseInt10. cbn [trimStart]. rewrite Hw.
  destruct c as [|p]; [reflexivity|].
  do 6 (destruct p as [p|p|]; try reflexivity); try congruence;
    destruct p; try reflexivity; congruence.
Qed.

Lemma parseInt10_toString n : parseInt10 (toString n) = Some (toDouble n).
Proof.
  unfold toString. destruct n as [|p|p].
  - reflexivity.
  - cbn [Z.to_int NilZero.string_of_int].
    pose proof (DecimalPos.Unsigned.to_uint_nonnil p) as Hp.
    replace (NilZero.string_of_uint (Pos.to_uint p))
      with (NilEmpty.string_of_uint (Pos.to_uint p))
      by (destruct (Pos.to_uint p); [congruence | reflexivity ..]).
    destruct (printed_starts_with_a_digit p) as (c & rest & E & Hw & H1 & H2).
    pose proof (readDigits_printed p) as R. rewrite E in *.
    rewrite (parseInt10_unsigned c rest Hw H1 H2), R.
    f_equal.
  - cbn [Z.to_int NilZero.string_of_int].
    pose proof (DecimalPos.Unsigned.to_uint_nonnil p) as Hp.
    replace (NilZero.string_of_uint (Pos.to_uint p))
      with (NilEmpty.string_of_uint (Pos.to_uint p))
      by (destruct (Pos.to_uint p); [congruence | reflexivity ..]).
    rewrite js_String. change (N_of_ascii "-") with 45%N.
    unfold parseInt10. cbn [trimStart].
    change (isWhite 45) with false. cbv iota beta.
    now rewrite readDigits_printed.
Qed.

(** X17. The number field of the settings tab takes back what it shows,
    up to 2^53: the decimal text of a number [n] that is at most 2^53, put
    into the field, sets [maxVersions] to [n] if [n] is positive and
    changes nothing otherwise; so the text that [display] shows for such
    a positive [maxVersions] leaves the settings as they are.  Beyond
    2^53 the field does not store the number typed: the text
    9007199254740993 sets [maxVersions] to 9007199254740992. *)
Theorem max_versions_field_round_trip (n : Z) (settings : VersionViewSettings) :
  n <= 2 ^ 53 ->
  onChange (MaxVersions (toString n)) settings
  = (if 0 <? n
     then {| storageFolder := storageFolder settings;
             maxVersions := n;
             autoSave := autoSave settings |}
     else settings)
  /\ (maxVersions settings = n -> 0 < n ->
      shownMaxVersions settings = Some (toString n)
      /\ onChange (MaxVersions (toString n)) settings = settings)
  /\ onChange (MaxVersions (js "9007199254740993")) settings
     = {| storageFolder := storageFolder settings;
          maxVersions := 9007199254740992;
          autoSave := autoSave settings |}.
Proof.
  intros Hn.
  assert (First : onChange (MaxVersions (toString n)) settings
                  = (if 0 <? n
                     then {| storageFolder := storageFolder settings;
                             maxVersions := n;
                             autoSave := autoSave settings |}
                     else settings)).
  { cbn [onChange]. rewrite parseInt10_toString.
    destruct (0 <? n) eqn:E.
    - apply Z.ltb_lt in E. rewrite toDouble_exact by lia.
      now rewrite (proj2 (Z.ltb_lt 0 n) E).
    - apply Z.ltb_ge in E. pose proof (toDouble_nonpos n E) as N.
      now rewrite (proj2 (Z.ltb_ge 0 (toDouble n)) N). }
  split; [exact First|]. split.
  - intros Hm Hp. split.
    + unfold shownMaxVersions. rewrite Hm.
      now rewrite (proj2 (Z.leb_le (Z.abs n) (2 ^ 53))) by lia.
    + rewrite First, (proj2 (Z.ltb_lt 0 n) Hp), <- Hm.
      now destruct settings.
  - reflexivity.
Qed.

Lemma max_versions_field_round_trip_witness :
  onChange (MaxVersions (toString 50)) Scenario.DEFAULT_SETTINGS
  = (if 0 <? 50
     then {| storageFolder := storageFolder Scenario.DEFAULT_SETTINGS;
             maxVersions := 50;
             autoSave := autoSave Scenario.DEFAULT_SETTINGS |}
     else Scenario.DEFAULT_SETTINGS)
  /\ (maxVersions Scenario.DEFAULT_SETTINGS = 50 -> 0 < 50 ->
      shownMaxVersions Scenario.DEFAULT_SETTINGS = Some (toString 50)
      /\ onChange (MaxVersions (toString 50)) Scenario.DEFAULT_SETTINGS
         = Scenario.DEFAULT_SETTINGS)
  /\ onChange (MaxVersions (js "9007199254740993")) Scenario.DEFAULT_SETTINGS
     = {| storageFolder := storageFolder Scenario.DEFAULT_SETTINGS;
          maxVersions := 9007199254740992;
          autoSave := autoSave Scenario.DEFAULT_SETTINGS |}.
Proof.
  apply (max_versions_field_round_trip 50 Scenario.DEFAULT_SETTINGS).
  vm_compute. discriminate.
Defined.

(** *** The numbers of the versions *)

Lemma itemsFrom_In len i versions meta n :
  In (meta, n) (itemsFrom len i versions) ->
  exists k, nth_error versions k = Some meta /\ n = len - i - Z.of_nat k.
Proof.
  revert i. induction versions as [|v versions IH]; intros i H;
    [destruct H|].
  cbn [itemsFrom] in H. destruct H as [[= -> <-] | H].
  - exists O. split; [reflexivity | lia].
  - apply IH in H as (k & Hk & ->). exists (S k). split; [exact Hk | lia].
Qed.

Lemma findIndex_nth (versions : list VersionMeta) k meta :
  NoDup (map timestamp versions) ->
  nth_error versions k = Some meta ->
  findIndex (fun v => timestamp v =? timestamp meta) versions = Some k.
Proof.
  revert k. induction versions as [|v versions IH]; intros k Hnd Hk.
  - now destruct k.
  - inversion Hnd as [|? ? Hv Hr]; subst. cbn [findIndex].
    destruct k as [|k]; cbn [nth_error] in Hk.
    + injection Hk as ->. now rewrite Z.eqb_refl.
    + destruct (timestamp v =? timestamp meta) eqn:E.
      * apply Z.eqb_eq in E. exfalso. apply Hv. rewrite E.
        apply in_map. now apply nth_error_In in Hk.
      * now rewrite (IH k Hr Hk).
Qed.

(** X18. The number under which the list shows a version is the number
    that the diff window gets for it, and the numbers count down from the
    number of versions, for the newest, to 1, for the oldest, as long as
    no two versions of the index have the same timestamp. *)
Theorem diff_number_is_list_number
    (versions : list VersionMeta) (meta : VersionMeta) (n : Z) :
  NoDup (map timestamp versions) ->
  In (meta, n) (items versions) ->
  diffNumber versions meta = n
  /\ 1 <= n <= Z.of_nat (length versions)
  /\ map snd (items versions)
     = map (fun k => Z.of_nat (length versions) - Z.of_nat k)
         (seq 0 (length versions)).
Proof.
  intros Hnd Hin. unfold items in *.
  apply itemsFrom_In in Hin as (k & Hk & ->).
  split; [|split].
  - unfold diffNumber. rewrite (findIndex_nth versions k meta Hnd Hk). lia.
  - assert (k < length versions)%nat
      by (apply nth_error_Some; congruence).
    lia.
  - clear Hnd Hk. generalize (Z.of_nat (length versions)). intros len.
    change 0 with (Z.of_nat 0). generalize 0%nat.
    induction versions as [|v versions IH]; intros i; [reflexivity|].
    cbn [itemsFrom map snd length seq]. f_equal.
    replace (Z.of_nat i + 1) with (Z.of_nat (S i)) by lia. apply IH.
Qed.

Lemma diff_number_is_list_number_witness :
  diffNumber
    [StorageEffects.metaOf Scenario.note (Scenario.request 101 2);
     StorageEffects.metaOf Scenario.note (Scenario.request 100 1)]
    (StorageEffects.metaOf Scenario.note (Scenario.request 100 1)) = 1
  /\ 1 <= 1
     <= Z.of_nat
          (length
             [StorageEffects.metaOf Scenario.note (Scenario.request 101 2);
              StorageEffects.metaOf Scenario.note (Scenario.request 100 1)])
  /\ map snd
       (items
          [StorageEffects.metaOf Scenario.note (Scenario.request 101 2);
           StorageEffects.metaOf Scenario.note (Scenario.request 100 1)])
     = map (fun k =>
              Z.of_nat
                (length
                   [StorageEffects.metaOf Scenario.note
                      (Scenario.request 101 2);
                    StorageEffects.metaOf Scenario.note
                      (Scenario.request 100 1)])
              - Z.of_nat k)
         (seq 0
            (length
               [StorageEffects.metaOf Scenario.note (Scenario.request 101 2);
                StorageEffects.metaOf Scenario.note
                  (Scenario.request 100 1)])).
Proof.
  apply (diff_number_is_list_number
           [StorageEffects.metaOf Scenario.note (Scenario.request 101 2);
            StorageEffects.metaOf Scenario.note (Scenario.request 100 1)]
           (StorageEffects.metaOf Scenario.note (Scenario.request 100 1)) 1).
  - repeat constructor; simpl; intuition discriminate.
  - right. left. reflexivity.
Defined.

(** *** The flags of [render] *)

Lemma locked_view_stays view events :
  isRendering view = true -> awaiting view = None ->
  shown (fold_left step events view) = shown view
  /\ isRendering (fold_left step events view) = true
  /\ awaiting (fold_left step events view) = None.
Proof.
  revert view. induction events as [|e events IH]; intros view HR HA.
  - now repeat split.
  - cbn [fold_left].
    assert (S : shown (step view e) = shown view
                /\ isRendering (step view e) = true
                /\ awaiting (step view e) = None).
    { destruct e as [active | vs active]; cbn [step].
      - unfold render. rewrite HR. now repeat split.
      - unfold resume. rewrite HA. now repeat split. }
    destruct S as (S1 & S2 & S3).
    destruct (IH (step view e) S2 S3) as (I1 & I2 & I3).
    rewrite I1, S1. now repeat split.
Qed.

(** X19. A call of [render] that finds no active file leaves
    [isRendering] set: whatever calls of [render] follow, with whatever
    active file, the view goes on showing the request to open a file, and
    [getVersions] is not called again. *)
Theorem view_without_file_stays_empty (view : View) (events : list Event) :
  isRendering view = false ->
  shown (fold_left step events (render None view)) = OpenAFileFirst
  /\ isRendering (fold_left step events (render None view)) = true
  /\ awaiting (fold_left step events (render None view)) = None.
Proof.
  intros H.
  assert (E : render None view
              = {| isRendering := true; pendingRender := pendingRender view;
                   awaiting := None; shown := OpenAFileFirst |})
    by (unfold render; now rewrite H).
  rewrite E. now apply locked_view_stays.
Qed.

Lemma view_without_file_stays_empty_witness :
  shown (fold_left step
           [Render (Some Scenario.note); Versions [] (Some Scenario.note)]
           (render None created)) = OpenAFileFirst
  /\ isRendering (fold_left step
           [Render (Some Scenario.note); Versions [] (Some Scenario.note)]
           (render None created)) = true
  /\ awaiting (fold_left step
           [Render (Some Scenario.note); Versions [] (Some Scenario.note)]
           (render None created)) = None.
Proof.
  apply (view_without_file_stays_empty created
           [Render (Some Scenario.note); Versions [] (Some Scenario.note)]).
  reflexivity.
Defined.

(** *** The edit window *)

Lemma modalUpdates_applied meta nameValue descValue :
  applyUpdates (modalUpdates meta nameValue descValue) meta
  = {| filename := filename meta;
       timestamp := timestamp meta;
       name := Some (if truthy nameValue then nameValue
                     else match name meta with
                          | Some n => n
                          | None => []
                          end);
       description := Some descValue;
       originalPath := originalPath meta |}.
Proof.
  unfold applyUpdates, modalUpdates. cbn.
  destruct nameValue as [|a x], descValue as [|b y],
    (name meta) as [[|c z]|]; reflexivity.
Qed.

(** X20. The edit window cannot clear a name.  When the user saves the
    window for a listed version, [updateVersion] succeeds and the index
    read afterwards has, in the place of that version, the same version
    with the text of the description field as description, the empty
    text included, and with the text of the name field as name, except
    that an empty name field leaves the name as it was (the empty text
    if there was none). *)
Theorem edit_window_cannot_clear_a_name
    (JSON_stringify : VersionIndex -> jsstring)
    (JSON_parse : jsstring -> option VersionIndex)
    (settings : VersionViewSettings) (file : TFile.t)
    (before after : list VersionMeta) (version : VersionMeta)
    (nameValue descValue : jsstring)
    (v : Vault.vault) (ns : list Vault.Notice) :
  (forall i, JSON_parse (JSON_stringify i) = Some i) ->
  versions (StorageEffects.indexOf JSON_parse settings v (TFile.name file))
  = before ++ version :: after ->
  (forall m, In m before -> timestamp m <> timestamp version) ->
  exists v',
    updateVersion JSON_stringify JSON_parse settings file (timestamp version)
      (modalUpdates version nameValue descValue)
      {| Vault.files := v; Vault.notices := ns |}
    = (Async.Return true,
       {| Vault.files := v'; Vault.notices := ns ++ [Vault.Updated] |})
    /\ getVersions JSON_parse settings file
         {| Vault.files := v'; Vault.notices := ns ++ [Vault.Updated] |}
       = (Async.Return
            (before
               ++ {| filename := filename version;
                     timestamp := timestamp version;
                     name := Some (if truthy nameValue then nameValue
                                   else match name version with
                                        | Some n => n
                                        | None => []
                                        end);
                     description := Some descValue;
                     originalPath := originalPath version |}
               :: after),
          {| Vault.files := v'; Vault.notices := ns ++ [Vault.Updated] |}).
Proof.
  intros RT Hv Hb.
  pose proof (StorageFacts.updateVersion_found JSON_stringify JSON_parse
                settings file (timestamp version)
                (modalUpdates version nameValue descValue) v ns
                before version after Hv Hb eq_refl) as U.
  eexists. split; [exact U|].
  rewrite StorageFacts.getVersions_run. f_equal. f_equal.
  rewrite (StorageFacts.indexOf_written JSON_stringify JSON_parse settings RT
             (TFile.name file)
             {| versions := before
                  ++ applyUpdates (modalUpdates version nameValue descValue)
                       version
                  :: after;
                lastUpdated :=
                  lastUpdated (StorageEffects.indexOf JSON_parse settings v
                                 (TFile.name file)) |}).
  - cbn [versions]. now rewrite modalUpdates_applied.
  - apply StorageFacts.lookup_written_self.
    rewrite (StorageFacts.lookup_ensured_other _ _ v
               (StorageFacts.indexPath_not_folderPath settings
                  (TFile.name file))).
    intros E. unfold StorageEffects.indexOf in Hv. rewrite E in Hv.
    now destruct before.
Qed.

Lemma edit_window_cannot_clear_a_name_witness :
  exists v',
    updateVersion Codec.stringify Codec.parse Scenario.DEFAULT_SETTINGS
      Scenario.note
      (timestamp (StorageEffects.metaOf Scenario.note
                    (Scenario.request 100 1)))
      (modalUpdates (StorageEffects.metaOf Scenario.note
                       (Scenario.request 100 1)) (js "") (js ""))
      {| Vault.files := Vault.files Scenario.savedTwice; Vault.notices := [] |}
    = (Async.Return true,
       {| Vault.files := v'; Vault.notices := [] ++ [Vault.Updated] |})
    /\ getVersions Codec.parse Scenario.DEFAULT_SETTINGS Scenario.note
         {| Vault.files := v'; Vault.notices := [] ++ [Vault.Updated] |}
       = (Async.Return
            ([StorageEffects.metaOf Scenario.note (Scenario.request 101 2)]
               ++ {| filename :=
                       filename (StorageEffects.metaOf Scenario.note
                                   (Scenario.request 100 1));
                     timestamp :=
                       timestamp (StorageEffects.metaOf Scenario.note
                                    (Scenario.request 100 1));
                     name :=
                       Some (if truthy (js "") then js ""
                             else match name (StorageEffects.metaOf
                                                Scenario.note
                                                (Scenario.request 100 1)) with
                                  | Some n => n
                                  | None => []
                                  end);
                     description := Some (js "");
                     originalPath :=
                       originalPath (StorageEffects.metaOf Scenario.note
                                       (Scenario.request 100 1)) |}
               :: []),
          {| Vault.files := v'; Vault.notices := [] ++ [Vault.Updated] |}).
Proof.
  apply (edit_window_cannot_clear_a_name Codec.stringify Codec.parse
           Scenario.DEFAULT_SETTINGS Scenario.note
           [StorageEffects.metaOf Scenario.note (Scenario.request 101 2)] []
           (StorageEffects.metaOf Scenario.note (Scenario.request 100 1))
           (js "") (js "")
           (Vault.files Scenario.savedTwice) []
           CodecFacts.parse_stringify).
  - vm_compute. reflexivity.
  - intros m [<- | []]. discriminate.
Defined.
End InterfaceExtra.
(* ================================================================== *)
(** ** Deleting from a store; saving over an unreadable index *)

Module FlowExtra.
Import Async Vault VersionStorage StorageEffects VersionStorageMore.
Import VaultFacts ArrayFacts StorageFacts NamesExtra StoreExtra ServiceExtra.

Section Flows.
Variable JSON_stringify : VersionIndex -> jsstring.
Variable JSON_parse : jsstring -> option VersionIndex.
Variable settings : VersionViewSettings.
Variable file : TFile.t.
Hypothesis parse_stringify :
  forall index, JSON_parse (JSON_stringify index) = Some index.

Local Abbreviation fname := (TFile.name file).
Local Abbreviation fdir := (getVersionFolder settings (TFile.name file)).
Local Abbreviation idx := (getIndexFilePath settings (TFile.name file)).
Local Abbreviation cp r :=
  (contentPath settings (TFile.name file) (savedAt r) (randomId r)).
Local Abbreviation index_of v :=
  (indexOf JSON_parse settings v (TFile.name file)).
Local Abbreviation listed v := (map timestamp (versions (index_of v))).
Local Abbreviation after_delete ts v :=
  (afterDelete JSON_stringify JSON_parse settings (TFile.name file) ts v).
Local Abbreviation well_stored :=
  (wellStored JSON_parse settings file).
Local Abbreviation contents_kept :=
  (contentsKept JSON_parse settings file).
Local Abbreviation mk v ns := {| files := v; notices := ns |}.

Lemma listed_afterDelete ts v ts' :
  lookup idx v <> Some FolderNode ->
  In ts' (listed (after_delete ts v)) <-> In ts' (listed v) /\ ts' <> ts.
Proof.
  intros HI.
  rewrite (indexOf_afterDelete JSON_stringify JSON_parse settings
             parse_stringify fname ts v HI).
  cbn [versions withoutTimestamp]. rewrite !in_map_iff. split.
  - intros (m & E & Hm). apply filter_In in Hm as [Hm Hk].
    apply negb_true_iff, Z.eqb_neq in Hk.
    split; [now exists m | congruence].
  - intros ((m & E & Hm) & Hne). exists m. split; [exact E|].
    apply filter_In. split; [exact Hm|].
    apply negb_true_iff, Z.eqb_neq. congruence.
Qed.

Lemma delete_in_store saved ts v ns :
  saved <> [] ->
  well_stored (map snd saved) v ->
  contents_kept saved v ->
  NoDup (map savedAt (map snd saved)) ->
  (forall text r, In (text, r) saved -> savedAt r <> ts ->
     exists c,
       getVersionContent JSON_parse settings file (savedAt r) (mk v ns)
       = (Return c, mk v ns)
       /\ getVersionContent JSON_parse settings file (savedAt r)
            (mk (after_delete ts v) ns)
          = (Return c, mk (after_delete ts v) ns))
  /\ (forall text r, In (text, r) saved -> savedAt r = ts ->
        lookup (cp r) (after_delete ts v) = None).
Proof.
  intros Hne (_ & HI & _ & _ & Hbelow) (K1 & K2 & K3 & K4) Hnd.
  pose proof (K2 Hne) as HF.
  split.
  - intros text r Hin Hts.
    assert (Hr : In r (map snd saved))
      by (apply in_map_iff; now exists (text, r)).
    destruct (in_dec Z.eq_dec (savedAt r) (listed v)) as [Hl | Hl].
    + exists (Some text). split.
      * apply (getVersionContent_found JSON_parse settings file
                 (map snd saved)); try assumption.
        now apply (K3 text).
      * apply (getVersionContent_found JSON_parse settings file
                 (map snd saved)); try assumption.
        -- intros q Hq Hp.
           apply (afterDelete_present_below JSON_stringify JSON_parse
                    settings fname ts v q Hq) in Hp as [Hp | Hp];
             [now left | now apply Hbelow].
        -- now apply folder_afterDelete.
        -- apply listed_afterDelete; [exact HI | now split].
        -- rewrite afterDelete_keeps_content by exact Hts.
           now apply (K3 text).
    + exists None. split.
      * now apply getVersionContent_unlisted.
      * apply getVersionContent_unlisted. intros H.
        apply listed_afterDelete in H as [H _]; [contradiction | exact HI].
  - intros text r Hin <-.
    apply (afterDelete_removes_content JSON_stringify JSON_parse settings
             file (map snd saved)); try assumption.
    apply in_map_iff. now exists (text, r).
Qed.
End Flows.

(** X21. Deleting one version leaves the others alone.  After a series
    of edits and saves as above, [deleteVersion] for a timestamp returns
    without a notice; for every save with another timestamp,
    [getVersionContent] returns afterwards what it returned before; and
    the content file of the save with that timestamp is no longer in the
    vault. *)
Theorem deleting_one_version_keeps_the_others
    (JSON_stringify : VersionIndex -> jsstring)
    (JSON_parse : jsstring -> option VersionIndex)
    (settings : VersionViewSettings) (file : TFile.t)
    (steps : list (jsstring * SaveRequest)) (ts : Z)
    (v : vault) (ns : list Notice) :
  (forall index, JSON_parse (JSON_stringify index) = Some index) ->
  0 <= maxVersions settings ->
  (exists content, lookup (TFile.path file) v = Some (FileNode content)) ->
  (forall q,
      startsWith q (getVersionFolder settings (TFile.name file) ++ slash)
      = true ->
      lookup q v = None) ->
  (forall d, lookup (getVersionFolder settings (TFile.name file)) v
             <> Some (FileNode d)) ->
  NoDup (map savedAt (map snd steps)) ->
  steps <> [] ->
  exists v' v'',
    editAndSaveAll JSON_stringify JSON_parse settings file steps
      {| files := v; notices := ns |}
    = (Return (map (fun s => metaOf file (snd s)) steps),
       {| files := v'; notices := ns |})
    /\ deleteVersion JSON_stringify JSON_parse settings file ts
         {| files := v'; notices := ns |}
       = (Return tt, {| files := v''; notices := ns |})
    /\ (forall text r, In (text, r) steps -> savedAt r <> ts ->
          exists c,
            getVersionContent JSON_parse settings file (savedAt r)
              {| files := v'; notices := ns |}
            = (Return c, {| files := v'; notices := ns |})
            /\ getVersionContent JSON_parse settings file (savedAt r)
                 {| files := v''; notices := ns |}
               = (Return c, {| files := v''; notices := ns |}))
    /\ (forall text r, In (text, r) steps -> savedAt r = ts ->
          lookup (contentPath settings (TFile.name file)
                    (savedAt r) (randomId r)) v'' = None).
Proof.
  intros RT HM Hdoc Hnone HF Hnd Hne.
  pose proof (wellStored_initial JSON_parse settings file v Hdoc Hnone) as W0.
  pose proof (contentsKept_initial JSON_parse settings file v HF) as K0.
  destruct (editAndSaveAll_run JSON_stringify JSON_parse settings file RT
              [] steps v ns HM W0 K0 Hnd) as (v' & S & W & K).
  cbn [app] in W, K.
  exists v', (afterDelete JSON_stringify JSON_parse settings
                (TFile.name file) ts v').
  split; [exact S|]. split.
  - apply deleteVersion_run. now destruct W as (_ & HI & _).
  - now apply (delete_in_store JSON_stringify JSON_parse settings file RT
                 steps ts v' ns).
Qed.

Lemma deleting_one_version_keeps_the_others_witness :
  exists v' v'',
    editAndSaveAll Codec.stringify Codec.parse Scenario.DEFAULT_SETTINGS
      Scenario.note
      [(js "one", Scenario.request 100 1); (js "two", Scenario.request 101 2)]
      {| files := files Scenario.fresh; notices := [] |}
    = (Return (map (fun s => metaOf Scenario.note (snd s))
                 [(js "one", Scenario.request 100 1);
                  (js "two", Scenario.request 101 2)]),
       {| files := v'; notices := [] |})
    /\ deleteVersion Codec.stringify Codec.parse Scenario.DEFAULT_SETTINGS
         Scenario.note 100 {| files := v'; notices := [] |}
       = (Return tt, {| files := v''; notices := [] |})
    /\ (forall text r,
          In (text, r)
            [(js "one", Scenario.request 100 1);
             (js "two", Scenario.request 101 2)] ->
          savedAt r <> 100 ->
          exists c,
            getVersionContent Codec.parse Scenario.DEFAULT_SETTINGS
              Scenario.note (savedAt r) {| files := v'; notices := [] |}
            = (Return c, {| files := v'; notices := [] |})
            /\ getVersionContent Codec.parse Scenario.DEFAULT_SETTINGS
                 Scenario.note (savedAt r) {| files := v''; notices := [] |}
               = (Return c, {| files := v''; notices := [] |}))
    /\ (forall text r,
          In (text, r)
            [(js "one", Scenario.request 100 1);
             (js "two", Scenario.request 101 2)] ->
          savedAt r = 100 ->
          lookup (contentPath Scenario.DEFAULT_SETTINGS
                    (TFile.name Scenario.note) (savedAt r) (randomId r)) v''
          = None).
Proof.
  apply (deleting_one_version_keeps_the_others Codec.stringify Codec.parse
           Scenario.DEFAULT_SETTINGS Scenario.note
           [(js "one", Scenario.request 100 1);
            (js "two", Scenario.request 101 2)] 100
           (files Scenario.fresh) []
           CodecFacts.parse_stringify).
  - vm_compute. discriminate.
  - eexists. reflexivity.
  - intros q. now apply fresh_below_empty.
  - intros d. vm_compute. discriminate.
  - repeat constructor; simpl; intuition discriminate.
  - discriminate.
Defined.

(** X22. A save over an unreadable index starts the index anew.  When
    the index file holds a text that [JSON.parse] rejects, [saveVersion]
    of a document (with room for one version at least and a free content
    path) returns, and the index read afterwards lists the new version and
    nothing else: what the file held is overwritten.  No other path than
    the index, the version folder and the new content file is touched. *)
Theorem saveVersion_replaces_unreadable_index
    (JSON_stringify : VersionIndex -> jsstring)
    (JSON_parse : jsstring -> option VersionIndex)
    (settings : VersionViewSettings) (file : TFile.t)
    (r : SaveRequest) (v : vault) (ns : list Notice)
    (content unreadable : jsstring) :
  (forall index, JSON_parse (JSON_stringify index) = Some index) ->
  1 <= maxVersions settings ->
  lookup (TFile.path file) v = Some (FileNode content) ->
  lookup (getIndexFilePath settings (TFile.name file)) v
  = Some (FileNode unreadable) ->
  JSON_parse unreadable = None ->
  lookup (contentPath settings (TFile.name file) (savedAt r) (randomId r)) v
  = None ->
  exists v',
    saveVersion JSON_stringify JSON_parse settings
      (savedAt r) (randomId r) file (givenName r) (givenDescription r)
      {| files := v; notices := ns |}
    = (Return (metaOf file r), {| files := v'; notices := ns |})
    /\ readVersionIndex JSON_parse settings (TFile.name file)
         {| files := v'; notices := ns |}
       = (Return {| versions := [metaOf file r]; lastUpdated := savedAt r |},
          {| files := v'; notices := ns |})
    /\ (forall q,
          q <> getIndexFilePath settings (TFile.name file) ->
          q <> getVersionFolder settings (TFile.name file) ->
          q <> contentPath settings (TFile.name file)
                 (savedAt r) (randomId r) ->
          lookup q v' = lookup q v).
Proof.
  intros RT HM Hdoc HI Hbad Hcp.
  assert (Hcp' : lookup (contentPath settings (TFile.name file)
                           (savedAt r) (randomId r))
                   (ensured (getVersionFolder settings (TFile.name file)) v)
                 = None).
  { rewrite lookup_ensured_other; [exact Hcp|].
    apply below_not_folder, contentPath_below. }
  assert (HI' : lookup (getIndexFilePath settings (TFile.name file)) v
                <> Some FolderNode) by (rewrite HI; discriminate).
  pose proof (saveVersion_run JSON_stringify JSON_parse settings file RT
                r v ns content Hdoc Hcp' HI') as Run.
  eexists. split; [exact Run|].
  unfold afterSave. rewrite Hdoc. cbv zeta.
  set (fdir := getVersionFolder settings (TFile.name file)).
  set (idx := getIndexFilePath settings (TFile.name file)).
  set (cp := contentPath settings (TFile.name file) (savedAt r) (randomId r)).
  set (v2 := addNode cp (FileNode content) (ensured fdir v)).
  assert (HI2 : lookup idx v2 = Some (FileNode unreadable)).
  { unfold v2. rewrite lookup_addNode.
    rewrite (lookup_ensured_other fdir idx v
               (indexPath_not_folderPath settings (TFile.name file))).
    unfold idx. now rewrite HI. }
  assert (E2 : indexOf JSON_parse settings v2 (TFile.name file) = emptyIndex).
  { unfold indexOf. fold idx. now rewrite HI2, Hbad. }
  rewrite E2. cbn [versions emptyIndex].
  unfold toDelete. cbn [versions length].
  replace (maxVersions settings <? Z.of_nat 1) with false
    by (symmetry; apply Z.ltb_ge; lia).
  cbn [fold_left].
  split.
  - rewrite readVersionIndex_run. f_equal. f_equal.
    apply (indexOf_written JSON_stringify JSON_parse settings RT).
    apply lookup_written_self.
    rewrite (lookup_ensured_other fdir idx v2
               (indexPath_not_folderPath settings (TFile.name file))).
    rewrite HI2. discriminate.
  - intros q Hq1 Hq2 Hq3.
    rewrite lookup_written_other by now apply eqb_neq.
    rewrite lookup_ensured_other by now apply eqb_neq.
    unfold v2. rewrite lookup_addNode.
    rewrite lookup_ensured_other by now apply eqb_neq.
    destruct (lookup q v); [reflexivity|].
    replace (eqb cp q) with false; [reflexivity|].
    symmetry. apply eqb_neq. congruence.
Qed.

Lemma saveVersion_replaces_unreadable_index_witness :
  exists v',
    saveVersion Codec.stringify Codec.parse Scenario.DEFAULT_SETTINGS
      (savedAt (Scenario.request 7 1)) (randomId (Scenario.request 7 1))
      Scenario.note (givenName (Scenario.request 7 1))
      (givenDescription (Scenario.request 7 1))
      {| files :=
           [(js "notes/note.md", FileNode (js "hello"));
            (js "res/versions/note", FolderNode);
            (js "res/versions/note/versions.json", FileNode (js "{"))];
         notices := [] |}
    = (Return (metaOf Scenario.note (Scenario.request 7 1)),
       {| files := v'; notices := [] |})
    /\ readVersionIndex Codec.parse Scenario.DEFAULT_SETTINGS
         (TFile.name Scenario.note) {| files := v'; notices := [] |}
       = (Return {| versions := [metaOf Scenario.note (Scenario.request 7 1)];
                    lastUpdated := savedAt (Scenario.request 7 1) |},
          {| files := v'; notices := [] |})
    /\ (forall q,
          q <> getIndexFilePath Scenario.DEFAULT_SETTINGS
                 (TFile.name Scenario.note) ->
          q <> getVersionFolder Scenario.DEFAULT_SETTINGS
                 (TFile.name Scenario.note) ->
          q <> contentPath Scenario.DEFAULT_SETTINGS
                 (TFile.name Scenario.note)
                 (savedAt (Scenario.request 7 1))
                 (randomId (Scenario.request 7 1)) ->
          lookup q v'
          = lookup q
              [(js "notes/note.md", FileNode (js "hello"));
               (js "res/versions/note", FolderNode);
               (js "res/versions/note/versions.json", FileNode (js "{"))]).
Proof.
  apply (saveVersion_replaces_unreadable_index Codec.stringify Codec.parse
           Scenario.DEFAULT_SETTINGS Scenario.note (Scenario.request 7 1)
           [(js "notes/note.md", FileNode (js "hello"));
            (js "res/versions/note", FolderNode);
            (js "res/versions/note/versions.json", FileNode (js "{"))]
           [] (js "hello") (js "{") CodecFacts.parse_stringify).
  - vm_compute. discriminate.
  - reflexivity.
  - reflexivity.
  - reflexivity.
  - reflexivity.
Defined.

End FlowExtra.
